(** * The persistent service supervisor of deployment/ultimate_persistent_system.py

    A shallow embedding of [UltimatePersistentSystem]: the configuration
    dictionary, the supervisor object ([processes], [restart_counts],
    [running]), the operating system it talks to (process table, clock,
    HTTP, psutil) and every method of the class, written in a small state and
    exception monad that follows Python's control flow ([try]/[except],
    [for], [while]).  *)

From Stdlib Require Import ZArith QArith.
From stdpp Require Import gmap strings list fin_maps.

Local Open Scope Z_scope.
Local Open Scope nat_scope.

(** ** Configuration: the [KINGDOM_CONFIG] dictionary *)

(** [max_restarts] is [float('inf')] or a number. *)
Inductive MaxRestarts : Type :=
| Unbounded
| AtMost (n : nat).

(** One entry of [KINGDOM_CONFIG['services']]. *)
Record ServiceConfig : Type := mkServiceConfig {
  port : Z;
  script : string;
  name : string;
  critical : bool;
  restart_on_failure : bool;
  max_restarts : MaxRestarts
}.

(** The part of [KINGDOM_CONFIG] that the class reads.  [services] is a
    Python dict literal: an association list in insertion order, which is
    the order [.items()] iterates in. *)
Record Config : Type := mkConfig {
  project_root : string;
  python_path : string;
  services : list (string * ServiceConfig);
  health_check_interval : nat;
  auto_patch_interval : nat;
  resource_monitor_interval : nat
}.

Definition KINGDOM_CONFIG : Config :=
  {| project_root := "/teamspace/studios/this_studio/valifi";
     python_path := "/home/zeus/miniconda3/envs/cloudspace/bin/python";
     services :=
       [ ("terminal_agent",
          mkServiceConfig 8001 "agents/terminal_agent/conversational_agent.py"
                          "Terminal Agent" true true Unbounded);
         ("sdk_agent",
          mkServiceConfig 8002 "agents/sdk_agent/intelligent_sdk_agent.py"
                          "SDK Agent" true true Unbounded);
         ("orchestrator",
          mkServiceConfig 8003 "agents/orchestrator/master_orchestrator.py"
                          "Master Orchestrator" true true Unbounded);
         ("interface",
          mkServiceConfig 8000 "agents/interface/conversational_interface.py"
                          "Web Interface" true true Unbounded) ];
     health_check_interval := 10;
     auto_patch_interval := 60;
     resource_monitor_interval := 30 |}.

(** [d[key]] on an insertion-ordered dict. *)
Fixpoint dict_get {A : Type} (key : string) (d : list (string * A)) : option A :=
  match d with
  | [] => None
  | (k, v) :: d' => if decide (k = key) then Some v else dict_get key d'
  end.

(** ** Exceptions *)

(** Python's exception hierarchy as far as the handlers of this file tell
    it apart: [except Exception] catches the first kind only, a bare
    [except:] catches both, [except KeyboardInterrupt] the second only. *)
Inductive exn : Type :=
| Exception (msg : string)
| KeyboardInterrupt.

Inductive Outcome (A : Type) : Type :=
| Ok (a : A)
| Raise (e : exn).
Arguments Ok {A} a.
Arguments Raise {A} e.

(** ** The outside world *)

(** The two URLs a probe requests: [/health] and [/]. *)
Inductive Path : Type := HealthPath | RootPath.

(** What [requests.get(url, timeout=5)] does: it returns a response with a
    status code, or raises. *)
Inductive HttpOutcome : Type :=
| Response (status_code : Z)
| ConnectionRefused
| ConnectionReset
| RequestTimeout
| TransportError.

(** How a launched process behaves: after how many time units it exits by
    itself ([None]: never), and how many time units after SIGTERM it exits
    ([None]: it ignores SIGTERM). *)
Record Behaviour : Type := mkBehaviour {
  lifetime : option nat;
  term_delay : option nat
}.

(** [psutil] readings taken by [check_system_health]. *)
Record Resources : Type := mkResources {
  cpu_percent : Q;
  memory_percent : Q;
  disk_percent : Q;
  load_average : Q * Q * Q
}.

(** The environment answers every external call.  Answers are indexed by
    the number of external calls made so far, so any sequence of answers can
    be described. *)
Record Env : Type := mkEnv {
  (* requests.get on http://localhost:<port><path> *)
  http_get : Z -> Path -> nat -> HttpOutcome;
  (* open(log_path, 'a') followed by subprocess.Popen(...) for a service *)
  popen : string -> nat -> Outcome Behaviour;
  (* the four psutil / os readings of check_system_health *)
  read_resources : nat -> Outcome Resources;
  (* psutil.virtual_memory().percent in auto_patch_system *)
  virtual_memory : nat -> Outcome Q;
  (* subprocess.run of the trainer: its return code *)
  run_trainer : nat -> Outcome Z;
  (* os.makedirs in __init__ *)
  makedirs : Outcome unit;
  (* the time at which SIGINT or SIGTERM arrives, if ever *)
  shutdown_at : option nat
}.

(** An entry of the operating system's process table: the time at which
    the process is gone ([None]: not scheduled to exit), and its reaction to
    SIGTERM. *)
Record Proc : Type := mkProc {
  exit_at : option nat;
  on_term : option nat
}.

(** Lines of the supervisor's log, without their wording. *)
Inductive LogEvent : Type :=
| LogShutdownSignal
| LogStarting (service_name : string)
| LogStarted (service_name : string) (pid : nat)
| LogFailedToStart (service_name : string)
| LogErrorStarting (service_name : string) (e : exn)
| LogStopping (service_name : string)
| LogStopped (service_name : string)
| LogErrorStopping (service_name : string) (e : exn)
| LogRestarting (service_name : string)
| LogRestarted (service_name : string) (count : nat)
| LogRestartFailed (service_name : string)
| LogAutoPatching (service_name : string)
| LogCleaningUp (service_name : string)
| LogHighMemory (mem_percent : Q)
| LogPatchCycle (patches_applied : nat)
| LogTraining (ok : bool)
| LogAutoHealing (service_name : string)
| LogStatus (degraded : bool) (healthy_count total_count : nat)
| LogIssue (issue : string)
| LogKeyboardInterrupt
| LogLoopError (e : exn)
| LogShuttingDown
| LogShutdownComplete
| LogFatal (e : exn).

(** The operating system as the supervisor sees it: a clock advanced by
    [time.sleep], the number of external calls made, the process table
    (a pid is an index into it) and the log written so far. *)
Record World : Type := mkWorld {
  clock : nat;
  calls : nat;
  ptable : list Proc;
  log : list LogEvent
}.

(** A [subprocess.Popen] object. *)
Record Popen : Type := mkPopen { pid : nat }.

(** The supervisor object together with the world.  The three counters are
    the local variables of [run_persistent_loop]; they live in the state
    because an assignment made before an exception survives it. *)
Record System : Type := mkSystem {
  processes : gmap string Popen;
  restart_counts : gmap string nat;
  running : bool;
  start_time : nat;
  health_check_counter : nat;
  auto_patch_counter : nat;
  monitor_counter : nat;
  world : World
}.

Definition set_processes (f : gmap string Popen -> gmap string Popen) (s : System) : System :=
  mkSystem (f (processes s)) (restart_counts s) (running s) (start_time s)
           (health_check_counter s) (auto_patch_counter s) (monitor_counter s) (world s).

Definition set_restart_counts (f : gmap string nat -> gmap string nat) (s : System) : System :=
  mkSystem (processes s) (f (restart_counts s)) (running s) (start_time s)
           (health_check_counter s) (auto_patch_counter s) (monitor_counter s) (world s).

Definition set_running (b : bool) (s : System) : System :=
  mkSystem (processes s) (restart_counts s) b (start_time s)
           (health_check_counter s) (auto_patch_counter s) (monitor_counter s) (world s).

Definition set_counters (h a m : nat) (s : System) : System :=
  mkSystem (processes s) (restart_counts s) (running s) (start_time s) h a m (world s).

Definition set_world (f : World -> World) (s : System) : System :=
  mkSystem (processes s) (restart_counts s) (running s) (start_time s)
           (health_check_counter s) (auto_patch_counter s) (monitor_counter s) (f (world s)).

(** [self.restart_counts.get(service_name, 0)] *)
Definition restart_count_of (s : System) (service_name : string) : nat :=
  default 0 (restart_counts s !! service_name).

(** ** Process table *)

Definition before (t : nat) (limit : option nat) : bool :=
  match limit with
  | None => true
  | Some e => bool_decide (t < e)
  end.

(** Is the process in the table and not gone yet? *)
Definition alive (w : World) (p : nat) : bool :=
  match ptable w !! p with
  | Some pr => before (clock w) (exit_at pr)
  | None => false
  end.

Definition earliest (a : option nat) (b : nat) : option nat :=
  match a with
  | None => Some b
  | Some x => Some (x `min` b)
  end.

(** SIGTERM: a process that honours it is gone [d] time units later. *)
Definition deliver_term (now : nat) (pr : Proc) : Proc :=
  match on_term pr with
  | Some d => mkProc (earliest (exit_at pr) (now + d)) (on_term pr)
  | None => pr
  end.

(** SIGKILL: the process is gone at once.  In the supervisor every [kill]
    is followed by [time.sleep(1)] before anything looks at the process
    again, so the time the kernel takes is not visible there; the
    orchestrator, whose [shutdown] returns right after [kill], has
    [kill_after]. *)
Definition deliver_kill (now : nat) (pr : Proc) : Proc :=
  mkProc (earliest (exit_at pr) now) (on_term pr).

Definition spawn (now : nat) (b : Behaviour) : Proc :=
  mkProc (match lifetime b with Some d => Some (now + d) | None => None end) (term_delay b).

(** ** The monad: state and exceptions *)

Definition M (A : Type) : Type := System -> Outcome A * System.

Definition ret {A : Type} (a : A) : M A := fun s => (Ok a, s).

Definition bind {A B : Type} (m : M A) (k : A -> M B) : M B :=
  fun s => match m s with
           | (Ok a, s') => k a s'
           | (Raise e, s') => (Raise e, s')
           end.

Definition raise {A : Type} (e : exn) : M A := fun s => (Raise e, s).

Declare Scope py_scope.
Delimit Scope py_scope with py.
Notation "'let*' x := m 'in' k" := (bind m (fun x => k))
  (at level 10, x name, m at level 100, k at level 200) : py_scope.
Notation "m ;;; k" := (bind m (fun _ => k))
  (at level 100, k at level 200, right associativity) : py_scope.
Local Open Scope py_scope.

(** [try: body except Exception as e: handler e] *)
Definition try_except_Exception {A : Type} (body : M A) (handler : exn -> M A) : M A :=
  fun s => match body s with
           | (Raise (Exception msg), s') => handler (Exception msg) s'
           | r => r
           end.

(** [try: body except: handler]: a bare [except] catches everything. *)
Definition try_except {A : Type} (body : M A) (handler : M A) : M A :=
  fun s => match body s with
           | (Raise _, s') => handler s'
           | r => r
           end.

Definition get : M System := fun s => (Ok s, s).
Definition modify (f : System -> System) : M unit := fun s => (Ok tt, f s).

(** [for x in l: body x] *)
Fixpoint for_each {A : Type} (l : list A) (body : A -> M unit) : M unit :=
  match l with
  | [] => ret tt
  | x :: l' => body x ;;; for_each l' body
  end.

(** [for x in l: acc = body acc x] with a local accumulator. *)
Fixpoint for_fold {A B : Type} (l : list A) (acc : B) (body : B -> A -> M B) : M B :=
  match l with
  | [] => ret acc
  | x :: l' => let* acc' := body acc x in for_fold l' acc' body
  end.

(** ** The supervisor, for a fixed configuration and environment *)

Section Supervisor.

Variable cfg : Config.
Variable env : Env.

(** *** Primitive operations *)

(** [logger.info], [logger.warning], [logger.error] *)
Definition logger (e : LogEvent) : M unit :=
  modify (set_world (fun w => mkWorld (clock w) (calls w) (ptable w) (log w ++ [e]))).

(** [time.sleep(n)] *)
Definition sleep (n : nat) : M unit :=
  modify (set_world (fun w => mkWorld (clock w + n) (calls w) (ptable w) (log w))).

(** Every external call consumes one answer of the environment. *)
Definition next_call : M nat :=
  fun s => (Ok (calls (world s)),
            set_world (fun w => mkWorld (clock w) (S (calls w)) (ptable w) (log w)) s).

(** [response = requests.get(url, timeout=5)], with the exception it may
    raise kept in the result. *)
Definition requests_get (port : Z) (path : Path) : M HttpOutcome :=
  let* i := next_call in ret (http_get env port path i).

(** [log_file = open(log_path, 'a')] and [subprocess.Popen(...)]: the new
    process gets the next free pid. *)
Definition subprocess_Popen (service_name : string) : M Popen :=
  let* i := next_call in
  match popen env service_name i with
  | Raise e => raise e
  | Ok b =>
      let* s := get in
      let p := length (ptable (world s)) in
      modify (set_world (fun w =>
        mkWorld (clock w) (calls w) (ptable w ++ [spawn (clock w) b]) (log w))) ;;;
      ret (mkPopen p)
  end.

(** [process.poll() is None] *)
Definition poll_is_None (process : Popen) : M bool :=
  let* s := get in ret (alive (world s) (pid process)).

(** [process.terminate()]: [Popen.send_signal] swallows the error of a
    process that is already gone, so the call does not raise. *)
Definition terminate (process : Popen) : M unit :=
  modify (set_world (fun w =>
    mkWorld (clock w) (calls w) (alter (deliver_term (clock w)) (pid process) (ptable w)) (log w))).

(** [process.kill()] *)
Definition kill (process : Popen) : M unit :=
  modify (set_world (fun w =>
    mkWorld (clock w) (calls w) (alter (deliver_kill (clock w)) (pid process) (ptable w)) (log w))).

(** *** [_signal_handler] *)

Definition _signal_handler : M unit :=
  logger LogShutdownSignal ;;;
  modify (set_running false).

(** *** [_check_service_health] *)

(** The dictionary a probe returns. *)
Record ServiceHealth : Type := mkServiceHealth {
  h_name : string;
  h_port : Z;
  healthy : bool;
  h_running : bool;
  responding : bool;
  restart_count : nat;
  h_pid : option nat
}.

Definition mark_running (p : nat) (h : ServiceHealth) : ServiceHealth :=
  mkServiceHealth (h_name h) (h_port h) (healthy h) true (responding h) (restart_count h) (Some p).

Definition mark_healthy (h : ServiceHealth) : ServiceHealth :=
  mkServiceHealth (h_name h) (h_port h) true (h_running h) true (restart_count h) (h_pid h).

Definition _check_service_health (service_name : string) (config : ServiceConfig)
  : M ServiceHealth :=
  let* s := get in
  let health :=
    mkServiceHealth (name config) (port config) false false false
                    (restart_count_of s service_name) None in
  (* Check if process is running *)
  let* health :=
    match processes s !! service_name with
    | Some process =>
        let* up := poll_is_None process in
        ret (if up then mark_running (pid process) health else health)
    | None => ret health
    end in
  (* Check if service responds to HTTP *)
  let* response := requests_get (port config) HealthPath in
  match response with
  | Response status_code =>
      ret (if bool_decide (status_code = 200%Z) then mark_healthy health else health)
  | _ =>
      (* Try alternate endpoint *)
      let* response := requests_get (port config) RootPath in
      match response with
      | Response status_code =>
          ret (if bool_decide (status_code = 200%Z) || bool_decide (status_code = 404%Z)
               then mark_healthy health else health)
      | _ => ret health
      end
  end.

(** *** [start_service] *)

Definition start_service (service_name : string) (config : ServiceConfig) : M bool :=
  try_except_Exception
    (logger (LogStarting service_name) ;;;
     let* process := subprocess_Popen service_name in
     modify (set_processes (insert service_name process)) ;;;
     (* Wait a bit and verify it started *)
     sleep 3 ;;;
     let* up := poll_is_None process in
     if up then
       logger (LogStarted service_name (pid process)) ;;; ret true
     else
       logger (LogFailedToStart service_name) ;;; ret false)
    (fun e => logger (LogErrorStarting service_name e) ;;; ret false).

(** *** [stop_service] *)

Definition stop_service (service_name : string) : M bool :=
  let* s := get in
  match processes s !! service_name with
  | None => ret true
  | Some process =>
      try_except_Exception
        (let* up := poll_is_None process in
         (if up then
            logger (LogStopping service_name) ;;;
            terminate process ;;;
            sleep 2 ;;;
            let* up := poll_is_None process in
            if up then kill process ;;; sleep 1 else ret tt
          else ret tt) ;;;
         modify (set_processes (delete service_name)) ;;;
         logger (LogStopped service_name) ;;;
         ret true)
        (fun e => logger (LogErrorStopping service_name e) ;;; ret false)
  end.

(** *** [restart_service] *)

Definition restart_service (service_name : string) (config : ServiceConfig) : M bool :=
  logger (LogRestarting service_name) ;;;
  (* Stop if running *)
  stop_service service_name ;;;
  (* Increment restart count *)
  let* s := get in
  modify (set_restart_counts (insert service_name (restart_count_of s service_name + 1))) ;;;
  (* Wait a moment *)
  sleep 2 ;;;
  (* Start again *)
  let* success := start_service service_name config in
  let* s := get in
  (if success then logger (LogRestarted service_name (restart_count_of s service_name))
   else logger (LogRestartFailed service_name)) ;;;
  ret success.

(** *** [check_system_health] *)

Inductive OverallStatus : Type := StatusHealthy | StatusDegraded.

(** The dictionary [check_system_health] returns; [h_services] is the
    nested dict, in insertion order. *)
Record SystemHealth : Type := mkSystemHealth {
  h_services : list (string * ServiceHealth);
  h_resources : option Resources;
  issues : list string;
  overall_status : OverallStatus
}.

(** [d[key] = v] on an insertion-ordered dict: a present key keeps its
    place. *)
Fixpoint dict_set {A : Type} (key : string) (v : A) (d : list (string * A))
  : list (string * A) :=
  match d with
  | [] => [(key, v)]
  | (k, x) :: d' => if decide (k = key) then (k, v) :: d' else (k, x) :: dict_set key v d'
  end.

(** The four readings; [psutil.cpu_percent(interval=1)] blocks for one
    time unit. *)
Definition psutil_resources : M Resources :=
  sleep 1 ;;;
  let* i := next_call in
  match read_resources env i with
  | Ok r => ret r
  | Raise e => raise e
  end.

(** Body of the loop of [check_system_health]: probe one service and
    record the result. *)
Definition check_one (health : SystemHealth) (item : string * ServiceConfig) : M SystemHealth :=
  let '(service_name, service_config) := item in
  let* service_health := _check_service_health service_name service_config in
  let health :=
    mkSystemHealth (dict_set service_name service_health (h_services health))
                   (h_resources health) (issues health) (overall_status health) in
  ret (if healthy service_health then health
       else mkSystemHealth (h_services health) (h_resources health)
                           (issues health ++ [name service_config +:+ " unhealthy"])
                           StatusDegraded).

Definition check_system_health : M SystemHealth :=
  let health := mkSystemHealth [] None [] StatusHealthy in
  (* Check each service *)
  let* health := for_fold (services cfg) health check_one in
  (* Check system resources *)
  let* r := psutil_resources in
  ret (mkSystemHealth (h_services health) (Some r) (issues health) (overall_status health)).

(** *** [auto_patch_system] *)

(** [list(self.processes.keys())].  Python lists the keys in insertion
    order, the finite map in its own order; each key is listed once either
    way. *)
Definition process_names (s : System) : list string := (map_to_list (processes s)).*1.

Definition psutil_virtual_memory_percent : M Q :=
  let* i := next_call in
  match virtual_memory env i with
  | Ok q => ret q
  | Raise e => raise e
  end.

(** First loop of [auto_patch_system], body: one configured service. *)
Definition patch_service (patches_applied : nat) (item : string * ServiceConfig) : M nat :=
  let '(service_name, service_config) := item in
  if restart_on_failure service_config then
    let* health := _check_service_health service_name service_config in
    if negb (healthy health) && critical service_config then
      logger (LogAutoPatching service_name) ;;;
      let* ok := restart_service service_name service_config in
      ret (if ok then patches_applied + 1 else patches_applied)
    else ret patches_applied
  else ret patches_applied.

(** Second loop of [auto_patch_system], body: one stored process. *)
Definition clean_up (service_name : string) : M unit :=
  let* s := get in
  match processes s !! service_name with
  | None => raise (Exception "KeyError")
  | Some process =>
      let* up := poll_is_None process in
      if up then ret tt
      else
        logger (LogCleaningUp service_name) ;;;
        modify (set_processes (delete service_name))
  end.

(** The [try] block on memory use; its bare [except: pass] swallows
    everything. *)
Definition optimize_memory (patches_applied : nat) : M nat :=
  try_except
    (let* mem_percent := psutil_virtual_memory_percent in
     if Qlt_le_dec 90 mem_percent then
       logger (LogHighMemory mem_percent) ;;;
       (* gc.collect() *)
       ret (patches_applied + 1)
     else ret patches_applied)
    (ret patches_applied).

(** The second loop: [for service_name in list(self.processes.keys())]. *)
Definition clean_up_zombies : M unit :=
  let* s := get in
  for_each (process_names s) clean_up.

Definition auto_patch_system : M unit :=
  let patches_applied := 0 in
  (* Check for failed services and restart them *)
  let* patches_applied := for_fold (services cfg) patches_applied patch_service in
  (* Check and clean up zombie processes *)
  clean_up_zombies ;;;
  (* Check system resources and optimize if needed *)
  let* patches_applied := optimize_memory patches_applied in
  logger (LogPatchCycle patches_applied).

(** *** [train_agents] *)

Definition train_agents : M bool :=
  try_except_Exception
    (let* i := next_call in
     match run_trainer env i with
     | Raise e => raise e
     | Ok returncode =>
         if bool_decide (returncode = 0%Z) then logger (LogTraining true) ;;; ret true
         else logger (LogTraining false) ;;; ret false
     end)
    (fun e => logger (LogTraining false) ;;; ret false).

(** *** [start_all_services] *)

Definition service_order : list string :=
  ["terminal_agent"; "sdk_agent"; "orchestrator"; "interface"].

Definition start_all_services : M unit :=
  (* Start in dependency order *)
  for_each service_order (fun service_name =>
    match dict_get service_name (services cfg) with
    | Some config =>
        start_service service_name config ;;;
        sleep 3
    | None => ret tt
    end).

(** *** [monitor_and_report] *)

Definition monitor_and_report : M unit :=
  let* health := check_system_health in
  let healthy_count := length (filter (fun kv => healthy kv.2 = true) (h_services health)) in
  let total_count := length (h_services health) in
  logger (LogStatus (match overall_status health with StatusDegraded => true | _ => false end)
                    healthy_count total_count) ;;;
  for_each (issues health) (fun issue => logger (LogIssue issue)).

(** *** [run_persistent_loop] *)

(** Body of the auto-heal loop: one entry of [health['services']]. *)
Definition heal (item : string * ServiceHealth) : M unit :=
  let '(service_name, service_health) := item in
  if negb (healthy service_health) then
    match dict_get service_name (services cfg) with
    | None => raise (Exception "KeyError")
    | Some config =>
        if restart_on_failure config then
          logger (LogAutoHealing service_name) ;;;
          restart_service service_name config ;;;
          ret tt
        else ret tt
    end
  else ret tt.

(** The health-check branch of the loop body. *)
Definition health_checks : M unit :=
  let* s := get in
  if bool_decide (health_check_interval cfg <= health_check_counter s) then
    let* health := check_system_health in
    (* Auto-heal any unhealthy services *)
    for_each (h_services health) heal ;;;
    modify (fun s => set_counters 0 (auto_patch_counter s) (monitor_counter s) s)
  else ret tt.

(** The body of the [try] inside the [while]. *)
Definition loop_body : M unit :=
  (* Health checks *)
  health_checks ;;;
  (* Auto-patch cycle *)
  (let* s := get in
   if bool_decide (auto_patch_interval cfg <= auto_patch_counter s) then
     auto_patch_system ;;;
     modify (fun s => set_counters (health_check_counter s) 0 (monitor_counter s) s)
   else ret tt) ;;;
  (* Monitoring and reporting *)
  (let* s := get in
   if bool_decide (resource_monitor_interval cfg <= monitor_counter s) then
     monitor_and_report ;;;
     modify (fun s => set_counters (health_check_counter s) (auto_patch_counter s) 0 s)
   else ret tt) ;;;
  (* Sleep 1 second and increment counters *)
  sleep 1 ;;;
  modify (fun s => set_counters (health_check_counter s + 1) (auto_patch_counter s + 1)
                                (monitor_counter s + 1) s).

(** One pass through the [while] body: the [try] with its two handlers. *)
Definition loop_iteration : M unit :=
  fun s =>
    match loop_body s with
    | (Raise KeyboardInterrupt, s') =>
        (logger LogKeyboardInterrupt ;;; modify (set_running false)) s'
    | (Raise (Exception msg), s') =>
        (logger (LogLoopError (Exception msg)) ;;;
         (* Continue running even on errors *)
         sleep 5) s'
    | (Ok tt, s') => (Ok tt, s')
    end.

(** A pending SIGINT or SIGTERM runs [_signal_handler]; its only effect,
    [running = False], is read at the head of the loop. *)
Definition deliver_signal : M unit :=
  let* s := get in
  match shutdown_at env with
  | Some t => if running s && bool_decide (t <= clock (world s)) then _signal_handler else ret tt
  | None => ret tt
  end.

Inductive LoopEnd : Type :=
| Exited       (* the condition [self.running] was found false *)
| StillLooping (* the given number of iterations did not reach the end *).

(** [while self.running: try: ... except ...], for at most [fuel]
    iterations. *)
Fixpoint while_running (fuel : nat) : M LoopEnd :=
  match fuel with
  | 0 => ret StillLooping
  | S fuel' =>
      deliver_signal ;;;
      let* s := get in
      if running s then loop_iteration ;;; while_running fuel'
      else ret Exited
  end.

(** [for service_name in names: self.stop_service(service_name)] *)
Definition stop_each (names : list string) : M unit :=
  for_each names (fun service_name => stop_service service_name ;;; ret tt).

(** The last lines of [run_persistent_loop]: graceful shutdown. *)
Definition graceful_shutdown : M unit :=
  logger LogShuttingDown ;;;
  let* s := get in
  stop_each (process_names s) ;;;
  logger LogShutdownComplete.

Definition run_persistent_loop (fuel : nat) : M LoopEnd :=
  (* Initial training *)
  train_agents ;;;
  (* Start all services *)
  start_all_services ;;;
  (* Wait for services to initialize *)
  sleep 10 ;;;
  (* Counters for periodic tasks *)
  modify (set_counters 0 0 0) ;;;
  let* r := while_running fuel in
  match r with
  | StillLooping => ret StillLooping
  | Exited => graceful_shutdown ;;; ret Exited
  end.

(** *** [__init__] and [main] *)

(** The fields right after their initialisation in [__init__]. *)
Definition constructed (s : System) : System :=
  mkSystem ∅ ∅ true (clock (world s)) 0 0 0 (world s).

Definition __init__ : M unit :=
  modify constructed ;;;
  (* Create necessary directories *)
  match makedirs env with
  | Ok tt => ret tt
  | Raise e => raise e
  end.

(** How the program ends: [sys.exit(1)], a normal return, an exception
    that no handler of [main] catches, or still inside the loop. *)
Inductive ProgramEnd : Type :=
| SysExit (code : nat)
| Returned
| Uncaught (e : exn)
| Looping.

Definition main (fuel : nat) (s : System) : ProgramEnd * System :=
  match (__init__ ;;; run_persistent_loop fuel) s with
  | (Raise (Exception msg), s') =>
      let '(_, s'') := logger (LogFatal (Exception msg)) s' in (SysExit 1, s'')
  | (Raise e, s') => (Uncaught e, s')
  | (Ok StillLooping, s') => (Looping, s')
  | (Ok Exited, s') => (Returned, s')
  end.

End Supervisor.

(** ** The operations of the supervisor *)

(** Every method of the class (and the signal handler), as a value. *)
Inductive Operation : Type :=
| OpSignalHandler
| OpCheckSystemHealth
| OpCheckServiceHealth (service_name : string) (config : ServiceConfig)
| OpStartService (service_name : string) (config : ServiceConfig)
| OpStopService (service_name : string)
| OpRestartService (service_name : string) (config : ServiceConfig)
| OpAutoPatchSystem
| OpTrainAgents
| OpStartAllServices
| OpMonitorAndReport
| OpLoopIteration
| OpRunPersistentLoop (fuel : nat).

(** The state an operation leaves behind, whether it returns or raises. *)
Definition perform (cfg : Config) (env : Env) (op : Operation) (s : System) : System :=
  match op with
  | OpSignalHandler => (_signal_handler s).2
  | OpCheckSystemHealth => (check_system_health cfg env s).2
  | OpCheckServiceHealth n c => (_check_service_health env n c s).2
  | OpStartService n c => (start_service env n c s).2
  | OpStopService n => (stop_service n s).2
  | OpRestartService n c => (restart_service env n c s).2
  | OpAutoPatchSystem => (auto_patch_system cfg env s).2
  | OpTrainAgents => (train_agents env s).2
  | OpStartAllServices => (start_all_services cfg env s).2
  | OpMonitorAndReport => (monitor_and_report cfg env s).2
  | OpLoopIteration => (loop_iteration cfg env s).2
  | OpRunPersistentLoop fuel => (run_persistent_loop cfg env fuel s).2
  end.

(** ** Relations between a state and a later one *)

(** [m] relates its final state to its initial state by [R], whether it
    returns or raises. *)
Definition preserves {A : Type} (R : System -> System -> Prop) (m : M A) : Prop :=
  forall s, R s (m s).2.

(** [restart_counts] is left as it is. *)
Definition counts_unchanged (s s' : System) : Prop := restart_counts s' = restart_counts s.

(** No service's restart count goes down. *)
Definition counts_grow (s s' : System) : Prop :=
  forall service_name, restart_count_of s service_name <= restart_count_of s' service_name.

(** A probe changes nothing but the number of external calls made. *)
Definition after_calls (n : nat) (s : System) : System :=
  set_world (fun w => mkWorld (clock w) (calls w + n) (ptable w) (log w)) s.



(** No process that is gone comes back. *)
Definition no_revival (s s' : System) : Prop :=
  forall p, alive (world s') p = true -> alive (world s) p = true.

(** The clock and the process table are as they were. *)
Definition os_unchanged (s s' : System) : Prop :=
  clock (world s') = clock (world s) /\ ptable (world s') = ptable (world s).

(** The flag [running] is as it was. *)
Definition running_unchanged (s s' : System) : Prop := running s' = running s.

(** The stored handles are as they were and no process has come back. *)
Definition handles_kept (s s' : System) : Prop :=
  processes s' = processes s /\ no_revival s s'.

(** Every process that is alive has its handle in [processes]. *)
Definition tracked (s : System) : Prop :=
  forall p, alive (world s) p = true -> exists service_name,
      processes s !! service_name = Some (mkPopen p).

Definition keeps_tracked (s s' : System) : Prop := tracked s -> tracked s'.

(** ** Vocabulary of the statements *)

(** Does a process with this behaviour still run [n] time units after its
    launch? *)
Definition survives (n : nat) (b : Behaviour) : bool :=
  match lifetime b with
  | None => true
  | Some d => bool_decide (n < d)
  end.

(** Did the request raise instead of returning a response? *)
Definition raised (r : HttpOutcome) : bool :=
  match r with
  | Response _ => false
  | _ => true
  end.

(** The first and, if it is made, the second HTTP answer a probe started
    in state [s] receives. *)
Definition first_answer (env : Env) (config : ServiceConfig) (s : System) : HttpOutcome :=
  http_get env (port config) HealthPath (calls (world s)).

Definition second_answer (env : Env) (config : ServiceConfig) (s : System) : HttpOutcome :=
  http_get env (port config) RootPath (S (calls (world s))).

(** The probe of a service in state [s], as a value. *)
Definition probe (env : Env) (service_name : string) (config : ServiceConfig) (s : System)
  : Outcome ServiceHealth :=
  (_check_service_health env service_name config s).1.

(** The stored handles, the clock and the process table are as they
    were. *)
Definition handles_unchanged (s s' : System) : Prop :=
  processes s' = processes s /\ os_unchanged s s'.

(** What is left of a dictionary entry when the handles of dead processes
    are dropped. *)
Definition if_alive (w : World) (entry : option Popen) : option Popen :=
  match entry with
  | Some process => if alive w (pid process) then Some process else None
  | None => None
  end.

(** The log has only grown, and [running] is as it was unless the new
    lines tell of a shutdown signal or a keyboard interrupt. *)
Definition signalled (s s' : System) : Prop :=
  exists l,
    log (world s') = log (world s) ++ l
    /\ (running s' = running s \/ LogShutdownSignal ∈ l \/ LogKeyboardInterrupt ∈ l).

(** A computation that never raises an [Exception]. *)
Definition no_Exception {A : Type} (m : M A) : Prop :=
  forall s msg, (m s).1 <> Raise (Exception msg).

(** ** Sample configurations, environments and states *)

(** A port on which nothing listens, processes that run until told to
    stop, quiet resources, no signal. *)
Definition quiet_env : Env :=
  mkEnv (fun _ _ _ => ConnectionRefused)
        (fun _ _ => Ok (mkBehaviour None (Some 1)))
        (fun _ => Ok (mkResources 0 0 0 (0, 0, 0)%Q))
        (fun _ => Ok 0%Q)
        (fun _ => Ok 0%Z)
        (Ok tt)
        None.

(** A freshly constructed supervisor in an empty world. *)
Definition fresh : System := mkSystem ∅ ∅ true 0 0 0 0 (mkWorld 0 0 [] []).

(** The restart rule in the words of the specification: restart iff
    [restartOnFailure] and [critical] and the last health is one of Down,
    Unhealthy, TimedOut and ([maxRestarts] is unbounded or [restartCount] is
    below it).  It is stated here to be compared with what the loop does. *)
Definition spec_shouldRestart (config : ServiceConfig) (restartCount : nat) (unhealthy : bool)
  : bool :=
  restart_on_failure config && critical config && unhealthy
  && match max_restarts config with
     | Unbounded => true
     | AtMost m => bool_decide (restartCount < m)
     end.

(** Scenario A: "alpha", critical, restarted on failure, without ceiling. *)
Definition alpha_config : ServiceConfig :=
  mkServiceConfig 8001 "alpha.py" "Alpha" true true Unbounded.

Definition alpha_cfg : Config := mkConfig "" "" [("alpha", alpha_config)] 10 60 30.

(** Scenario B: "beta", critical, restarted on failure, at most twice. *)
Definition beta_config : ServiceConfig :=
  mkServiceConfig 8002 "beta.py" "Beta" true true (AtMost 2).

Definition beta_cfg : Config := mkConfig "" "" [("beta", beta_config)] 10 60 30.

(** A supervisor whose health check is due. *)
Definition due : System := set_counters 10 0 0 fresh.

(** The same, with "beta" already restarted twice. *)
Definition beta_at_ceiling : System :=
  set_restart_counts (fun _ => {["beta" := 2]}) due.

(** What [check_system_health] reports in [quiet_env] for "alpha" and for
    "beta" with the given restart count. *)
Definition down_report (name : string) (port : Z) (count : nat) : ServiceHealth :=
  mkServiceHealth name port false false false count None.

Definition quiet_health (key name : string) (port : Z) (count : nat) : SystemHealth :=
  mkSystemHealth [(key, down_report name port count)]
                 (Some (mkResources 0 0 0 (0, 0, 0)%Q))
                 [name +:+ " unhealthy"] StatusDegraded.

(** Scenario C: "gamma", a service without a health route. *)
Definition gamma_config : ServiceConfig :=
  mkServiceConfig 8003 "gamma.py" "Gamma" true true Unbounded.

Definition gamma_cfg : Config := mkConfig "" "" [("gamma", gamma_config)] 10 60 30.

(** An environment in which every request to [/health] times out and
    every request to [/] is answered with the given status. *)
Definition answering_on_root (status_code : Z) : Env :=
  mkEnv (fun _ path _ => match path with
                         | HealthPath => RequestTimeout
                         | RootPath => Response status_code
                         end)
        (popen quiet_env) (read_resources quiet_env) (virtual_memory quiet_env)
        (run_trainer quiet_env) (makedirs quiet_env) (shutdown_at quiet_env).

(** An environment in which every request is answered with the given
    status. *)
Definition answering (status_code : Z) : Env :=
  mkEnv (fun _ _ _ => Response status_code)
        (popen quiet_env) (read_resources quiet_env) (virtual_memory quiet_env)
        (run_trainer quiet_env) (makedirs quiet_env) (shutdown_at quiet_env).

(** An environment in which every launched process exits by itself
    after one time unit. *)
Definition short_lived_env : Env :=
  mkEnv (http_get quiet_env)
        (fun _ _ => Ok (mkBehaviour (Some 1) (Some 1)))
        (read_resources quiet_env) (virtual_memory quiet_env)
        (run_trainer quiet_env) (makedirs quiet_env) (shutdown_at quiet_env).

(** The same environment with other HTTP answers. *)
Definition with_http (http : Z -> Path -> nat -> HttpOutcome) (env : Env) : Env :=
  mkEnv http (popen env) (read_resources env) (virtual_memory env)
        (run_trainer env) (makedirs env) (shutdown_at env).

(** An environment in which every reading of the resources fails. *)
Definition failing_psutil_env : Env :=
  mkEnv (http_get quiet_env) (popen quiet_env)
        (fun _ => Raise (Exception "psutil")) (virtual_memory quiet_env)
        (run_trainer quiet_env) (makedirs quiet_env) (shutdown_at quiet_env).

(** The quiet environment with a shutdown signal at time [t]. *)
Definition signal_at (t : nat) : Env :=
  mkEnv (http_get quiet_env) (popen quiet_env) (read_resources quiet_env)
        (virtual_memory quiet_env) (run_trainer quiet_env) (makedirs quiet_env) (Some t).

(** "alpha" started in the quiet environment: its process is alive and
    honours SIGTERM after one time unit. *)
Definition started : System := (start_service quiet_env "alpha" alpha_config fresh).2.

(** An environment whose processes ignore SIGTERM. *)
Definition stubborn_env : Env :=
  mkEnv (http_get quiet_env)
        (fun _ _ => Ok (mkBehaviour None None))
        (read_resources quiet_env) (virtual_memory quiet_env)
        (run_trainer quiet_env) (makedirs quiet_env) (shutdown_at quiet_env).

(** The external calls made, the size of the process table and the clock
    after a step that launches nothing: the first two as they were, the
    third not earlier. *)
Definition no_launch (s s' : System) : Prop :=
  calls (world s') = calls (world s)
  /\ length (ptable (world s')) = length (ptable (world s))
  /\ clock (world s) <= clock (world s').

(** The state in which [restart_service] calls [start_service]: after
    the log line, the stop, the increment and the settle delay. *)
Definition ready_to_start (service_name : string) (s : System) : System :=
  let s1 := (stop_service service_name (logger (LogRestarting service_name) s).2).2 in
  (sleep 2 (set_restart_counts
              (insert service_name (restart_count_of s1 service_name + 1)) s1)).2.

(** The body of the loop of [start_all_services], by name. *)
Definition start_configured (cfg : Config) (env : Env) (service_name : string) : M unit :=
  match dict_get service_name (services cfg) with
  | Some config => start_service env service_name config ;;; sleep 3
  | None => ret tt
  end.

(** A report agrees with itself: its status is healthy exactly when every
    recorded probe is, and it lists one issue per probe that is not. *)
Definition report_consistent (health : SystemHealth) : Prop :=
  (overall_status health = StatusHealthy
   <-> forall kv, kv ∈ h_services health -> healthy kv.2 = true)
  /\ length (issues health)
     = length (filter (fun kv => healthy kv.2 = false) (h_services health)).

(** The fields of the supervisor object and the loop counters are as they
    were. *)
Definition fields_kept (s s' : System) : Prop :=
  processes s' = processes s
  /\ restart_counts s' = restart_counts s
  /\ running s' = running s
  /\ health_check_counter s' = health_check_counter s
  /\ auto_patch_counter s' = auto_patch_counter s
  /\ monitor_counter s' = monitor_counter s.

(** The quiet environment with memory use at 95 percent. *)
Definition hot_env : Env :=
  mkEnv (http_get quiet_env) (popen quiet_env) (read_resources quiet_env)
        (fun _ => Ok 95%Q)
        (run_trainer quiet_env) (makedirs quiet_env) (shutdown_at quiet_env).

(** The value of a loop counter after a pass that returned: 1 if its
    activity was due (it is reset, then incremented), one more otherwise. *)
Definition tick (interval counter : nat) : nat :=
  if bool_decide (interval <= counter) then 1 else counter + 1.

(** The three loop counters are as they were. *)
Definition counters_kept (s s' : System) : Prop :=
  health_check_counter s' = health_check_counter s
  /\ auto_patch_counter s' = auto_patch_counter s
  /\ monitor_counter s' = monitor_counter s.

(** Time does not go back. *)
Definition later (s s' : System) : Prop := clock (world s) <= clock (world s').

(** The state after [k] consecutive passes through the body of the
    [while] loop. *)
Definition passes (cfg : Config) (env : Env) (k : nat) (s : System) : System :=
  Nat.iter k (fun s0 => (loop_iteration cfg env s0).2) s.

(** The stored handles and the process table are as they were. *)
Definition reach_kept (s s' : System) : Prop :=
  processes s' = processes s /\ ptable (world s') = ptable (world s).

(** A process of the table to which no stored handle refers. *)
Definition unhandled (p : nat) (s : System) : Prop :=
  p < length (ptable (world s))
  /\ forall service_name, processes s !! service_name <> Some (mkPopen p).

(** A process without handle gets no handle and no signal. *)
Definition leaves_alone (p : nat) (s s' : System) : Prop :=
  unhandled p s ->
  unhandled p s' /\ ptable (world s') !! p = ptable (world s) !! p.

(** "alpha" started, and its handle lost. *)
Definition orphaned : System := set_processes (fun _ => ∅) started.

(** * The orchestrator that launches the supervisor

    [multi_system_orchestrator.py] starts the supervisor's script as one of
    its three systems.  Its health check and its shutdown are modelled over
    the same world; [processes] holds the orchestrator's own handles. *)

Module MultiSystemOrchestrator.

(** [health_status]: for each of the three systems, the verdict per
    port, in the order of the assignments. *)
Record HealthStatus : Type := mkHealthStatus {
  valifi : list (Z * bool);
  comfyui : list (Z * bool);
  blue_elites : list (Z * bool)
}.

Definition valifi_ports : list Z := [8000; 8001; 8002; 8003]%Z.

(** [try: response = requests.get(".../health", timeout=2);
    ... = response.status_code == 200; except: ... = False] *)
Definition check_valifi_port (env : Env) (port : Z) : M bool :=
  let* response := requests_get env port HealthPath in
  match response with
  | Response status_code => ret (bool_decide (status_code = 200%Z))
  | _ => ret false
  end.

(** [try: response = requests.get(".../", timeout=2);
    ... = response.status_code in [200, 404]; except: ... = False] *)
Definition check_root (env : Env) (port : Z) : M bool :=
  let* response := requests_get env port RootPath in
  match response with
  | Response status_code =>
      ret (bool_decide (status_code = 200%Z) || bool_decide (status_code = 404%Z))
  | _ => ret false
  end.

Definition check_system_health (env : Env) : M HealthStatus :=
  (* Check Valifi services *)
  let* valifi_status :=
    for_fold valifi_ports [] (fun status port =>
      let* ok := check_valifi_port env port in ret (status ++ [(port, ok)])) in
  (* Check ComfyUI *)
  let* comfyui_ok := check_root env 8188 in
  (* Check blue_elites *)
  let* blue_ok := check_root env 3000 in
  ret (mkHealthStatus valifi_status [(8188%Z, comfyui_ok)] [(3000%Z, blue_ok)]).

(** [process.kill()].  SIGKILL cannot be ignored, but the process is gone
    only when the kernel has taken it down, [latency] time units after the
    call; [shutdown] makes the call last and does not wait. *)
Definition kill_after (latency : nat) (process : Popen) : M unit :=
  modify (set_world (fun w =>
    mkWorld (clock w) (calls w)
            (alter (fun pr => mkProc (earliest (exit_at pr) (clock w + latency)) (on_term pr))
                   (pid process) (ptable w))
            (log w))).

(** Body of the loop of [shutdown]: one stored process. *)
Definition shutdown_one (latency : nat) (item : string * Popen) : M unit :=
  let '(system_name, process) := item in
  try_except
    (logger (LogStopping system_name) ;;;
     terminate process ;;;
     sleep 2 ;;;
     let* up := poll_is_None process in
     if up then kill_after latency process else ret tt)
    (ret tt).

(** [for system_name, process in self.processes.items(): ...] *)
Definition shutdown (latency : nat) : M unit :=
  logger LogShuttingDown ;;;
  let* s := get in
  for_each (map_to_list (processes s)) (shutdown_one latency) ;;;
  logger LogShutdownComplete.

End MultiSystemOrchestrator.

(** Is the process of the table still running at time [t]? *)
Definition alive_at (t : nat) (w : World) (p : nat) : bool :=
  match ptable w !! p with
  | Some pr => before t (exit_at pr)
  | None => false
  end.

(** No process ends later than it would have. *)
Definition never_later (s s' : System) : Prop :=
  forall t p, alive_at t (world s') p = true -> alive_at t (world s) p = true.

(** A supervisor process among the orchestrator's handles that needs
    three time units to shut down after SIGTERM, and one of its services, to
    which the orchestrator has no handle. *)
Definition orchestrated : System :=
  mkSystem {["valifi" := mkPopen 0]} ∅ true 0 0 0 0
           (mkWorld 0 0 [mkProc None (Some 3); mkProc None (Some 1)] []).

(** Between [s] and [s'] every restart of the service has cost two time
    units: twice the growth of its restart count is at most the time that has
    passed. *)
Definition paced (service_name : string) (s s' : System) : Prop :=
  clock (world s) + 2 * restart_count_of s' service_name
  <= clock (world s') + 2 * restart_count_of s service_name.

(** The log is as it was. *)
Definition log_kept (s s' : System) : Prop := log (world s') = log (world s).

(** * Reasoning about monadic code *)

(** ** Relations that every step of a computation respects *)

Section Preservation.

Variable R : System -> System -> Prop.
Hypothesis R_refl : forall s, R s s.
Hypothesis R_trans : forall s1 s2 s3, R s1 s2 -> R s2 s3 -> R s1 s3.

Lemma preserves_ret {A : Type} (a : A) : preserves R (ret a).
Proof using R_refl. intros s. apply R_refl. Qed.

Lemma preserves_raise {A : Type} (e : exn) : preserves R (raise (A:=A) e).
Proof using R_refl. intros s. apply R_refl. Qed.

Lemma preserves_get : preserves R get.
Proof using R_refl. intros s. apply R_refl. Qed.

Lemma preserves_modify (f : System -> System) :
  (forall s, R s (f s)) -> preserves R (modify f).
Proof. intros Hf s. apply Hf. Qed.

Lemma preserves_bind {A B : Type} (m : M A) (k : A -> M B) :
  preserves R m -> (forall a, preserves R (k a)) -> preserves R (bind m k).
Proof using R_trans.
  intros Hm Hk s. unfold bind. specialize (Hm s).
  destruct (m s) as [[a|e] s1]; simpl in *; [|done].
  eapply R_trans; [exact Hm | apply Hk].
Qed.

Lemma preserves_try_except_Exception {A : Type} (body : M A) (handler : exn -> M A) :
  preserves R body -> (forall e, preserves R (handler e)) ->
  preserves R (try_except_Exception body handler).
Proof using R_trans.
  intros Hb Hh s. unfold try_except_Exception. specialize (Hb s).
  destruct (body s) as [[a|[msg|]] s1]; simpl in *; try done.
  eapply R_trans; [exact Hb | apply Hh].
Qed.

Lemma preserves_try_except {A : Type} (body handler : M A) :
  preserves R body -> preserves R handler -> preserves R (try_except body handler).
Proof using R_trans.
  intros Hb Hh s. unfold try_except. specialize (Hb s).
  destruct (body s) as [[a|e] s1]; simpl in *; [done|].
  eapply R_trans; [exact Hb | apply Hh].
Qed.

Lemma preserves_for_each {A : Type} (l : list A) (body : A -> M unit) :
  (forall x, preserves R (body x)) -> preserves R (for_each l body).
Proof using R_refl R_trans.
  intros Hb. induction l as [|x l IH]; simpl.
  - apply preserves_ret.
  - apply preserves_bind; [apply Hb | intros _; exact IH].
Qed.

Lemma preserves_for_fold {A B : Type} (l : list A) (acc : B) (body : B -> A -> M B) :
  (forall b x, preserves R (body b x)) -> preserves R (for_fold l acc body).
Proof using R_refl R_trans.
  intros Hb. revert acc. induction l as [|x l IH]; intros acc; simpl.
  - apply preserves_ret.
  - apply preserves_bind; [apply Hb | intros acc'; apply IH].
Qed.

End Preservation.

(** Break a goal [preserves R m] along the structure of [m]. *)
Ltac preserve_step :=
  lazymatch goal with
  | |- preserves _ (bind _ _) => apply preserves_bind; [assumption | | intros ?]
  | |- preserves _ (ret _) => apply preserves_ret; assumption
  | |- preserves _ (raise _) => apply preserves_raise; assumption
  | |- preserves _ get => apply preserves_get; assumption
  | |- preserves _ (try_except_Exception _ _) =>
      apply preserves_try_except_Exception; [assumption | | intros ?]
  | |- preserves _ (try_except _ _) => apply preserves_try_except; [assumption | | ]
  | |- preserves _ (for_each _ _) =>
      apply preserves_for_each; [assumption | assumption | intros ?]
  | |- preserves _ (for_fold _ _ _) =>
      apply preserves_for_fold; [assumption | assumption | intros ? ?]
  | |- preserves _ (let '(_, _) := ?x in _) => destruct x
  | |- preserves _ (match ?x with _ => _ end) => destruct x
  end.

(** ** From the primitive operations to the methods

    If the primitive operations respect a relation, so do the methods built
    from them.  The hypotheses are introduced where they are first needed, so
    that each lemma depends only on the primitives its method uses. *)

Section Methods.

Variable cfg : Config.
Variable env : Env.
Variable R : System -> System -> Prop.
Hypothesis R_refl : forall s, R s s.
Hypothesis R_trans : forall s1 s2 s3, R s1 s2 -> R s2 s3 -> R s1 s3.

Hypothesis R_logger : forall e, preserves R (logger e).
Hypothesis R_sleep : forall n, preserves R (sleep n).
Hypothesis R_processes : forall f, preserves R (modify (set_processes f)).
Hypothesis R_terminate : forall p, preserves R (terminate p).
Hypothesis R_kill : forall p, preserves R (kill p).

Ltac preserve := repeat (preserve_step || assumption || apply R_logger || apply R_sleep).

Lemma poll_is_None_preserves p : preserves R (poll_is_None p).
Proof using R_refl R_trans. unfold poll_is_None. preserve. Qed.

Lemma stop_service_preserves service_name : preserves R (stop_service service_name).
Proof using R_refl R_trans R_logger R_sleep R_processes R_terminate R_kill.
  unfold stop_service.
  preserve; try apply poll_is_None_preserves; try apply R_processes;
    try apply R_terminate; try apply R_kill.
Qed.

Lemma clean_up_preserves service_name : preserves R (clean_up service_name).
Proof using R_refl R_trans R_logger R_processes.
  unfold clean_up. preserve; try apply poll_is_None_preserves; apply R_processes.
Qed.

Hypothesis R_next_call : preserves R next_call.
Hypothesis R_Popen : forall service_name, preserves R (subprocess_Popen env service_name).

Lemma requests_get_preserves port path : preserves R (requests_get env port path).
Proof using R_refl R_trans R_next_call. unfold requests_get. preserve. Qed.

Lemma _check_service_health_preserves service_name config :
  preserves R (_check_service_health env service_name config).
Proof using R_refl R_trans R_next_call.
  unfold _check_service_health.
  preserve; try apply poll_is_None_preserves; apply requests_get_preserves.
Qed.

Lemma start_service_preserves service_name config :
  preserves R (start_service env service_name config).
Proof using R_refl R_trans R_logger R_sleep R_processes R_Popen.
  unfold start_service.
  preserve; try apply poll_is_None_preserves; try apply R_processes; apply R_Popen.
Qed.

Lemma check_system_health_preserves : preserves R (check_system_health cfg env).
Proof using R_refl R_trans R_sleep R_next_call.
  unfold check_system_health, check_one, psutil_resources.
  preserve; apply _check_service_health_preserves.
Qed.

Lemma optimize_memory_preserves n : preserves R (optimize_memory env n).
Proof using R_refl R_trans R_logger R_next_call.
  unfold optimize_memory, psutil_virtual_memory_percent. preserve.
Qed.

Lemma train_agents_preserves : preserves R (train_agents env).
Proof using R_refl R_trans R_logger R_next_call.
  unfold train_agents. preserve.
Qed.

Lemma start_all_services_preserves : preserves R (start_all_services cfg env).
Proof using R_refl R_trans R_logger R_sleep R_processes R_Popen.
  unfold start_all_services. preserve. apply start_service_preserves.
Qed.

Lemma monitor_and_report_preserves : preserves R (monitor_and_report cfg env).
Proof using R_refl R_trans R_logger R_sleep R_next_call.
  unfold monitor_and_report. preserve. apply check_system_health_preserves.
Qed.

Lemma graceful_shutdown_preserves : preserves R graceful_shutdown.
Proof using R_refl R_trans R_logger R_sleep R_processes R_terminate R_kill.
  unfold graceful_shutdown, stop_each. preserve. apply stop_service_preserves.
Qed.

(** The restart counter is written in one place only. *)
Hypothesis R_bump : forall service_name,
  preserves R (let* s := get in
               modify (set_restart_counts
                         (insert service_name (restart_count_of s service_name + 1)))).

Lemma restart_service_preserves service_name config :
  preserves R (restart_service env service_name config).
Proof using All.
  unfold restart_service.
  apply preserves_bind; [assumption | apply R_logger | intros _].
  apply preserves_bind; [assumption | apply stop_service_preserves | intros _].
  intros s. specialize (R_bump service_name s). unfold bind, get in *. simpl in *.
  eapply R_trans; [exact R_bump|].
  set (s1 := set_restart_counts _ s). clearbody s1.
  assert (Hrest : preserves R (
     sleep 2 ;;;
     let* success := start_service env service_name config in
     let* s := get in
     (if success then logger (LogRestarted service_name (restart_count_of s service_name))
      else logger (LogRestartFailed service_name)) ;;;
     ret success)).
  { preserve. apply start_service_preserves. }
  apply (Hrest s1).
Qed.

Lemma patch_service_preserves n item : preserves R (patch_service env n item).
Proof using All.
  unfold patch_service.
  preserve; try apply _check_service_health_preserves; apply restart_service_preserves.
Qed.

Lemma heal_preserves item : preserves R (heal cfg env item).
Proof using All.
  unfold heal. preserve. apply restart_service_preserves.
Qed.

Hypothesis R_counters : forall f : System -> nat * nat * nat,
  preserves R (modify (fun s => let '(h, a, m) := f s in set_counters h a m s)).

Lemma set_counters_preserves (h a m : System -> nat) :
  preserves R (modify (fun s => set_counters (h s) (a s) (m s) s)).
Proof using R_counters. apply (R_counters (fun s => (h s, a s, m s))). Qed.

Lemma auto_patch_system_preserves : preserves R (auto_patch_system cfg env).
Proof using All.
  unfold auto_patch_system, clean_up_zombies.
  preserve; try apply patch_service_preserves; try apply clean_up_preserves;
    apply optimize_memory_preserves.
Qed.

Lemma health_checks_preserves : preserves R (health_checks cfg env).
Proof using All.
  unfold health_checks.
  preserve; try apply check_system_health_preserves; try apply heal_preserves.
  apply (set_counters_preserves (fun _ => 0) auto_patch_counter monitor_counter).
Qed.

Lemma loop_body_preserves : preserves R (loop_body cfg env).
Proof using All.
  unfold loop_body.
  preserve; try apply health_checks_preserves; try apply auto_patch_system_preserves;
    try apply monitor_and_report_preserves.
  - apply (set_counters_preserves health_check_counter (fun _ => 0) monitor_counter).
  - apply (set_counters_preserves health_check_counter auto_patch_counter (fun _ => 0)).
  - apply (set_counters_preserves (fun s => health_check_counter s + 1)
             (fun s => auto_patch_counter s + 1) (fun s => monitor_counter s + 1)).
Qed.

Hypothesis R_running : forall b, preserves R (modify (set_running b)).

Lemma _signal_handler_preserves : preserves R _signal_handler.
Proof using R_refl R_trans R_logger R_running.
  unfold _signal_handler. preserve. apply R_running.
Qed.

Lemma loop_iteration_preserves : preserves R (loop_iteration cfg env).
Proof using All.
  intros s. unfold loop_iteration.
  pose proof (loop_body_preserves s) as Hb.
  destruct (loop_body cfg env s) as [[[]|[msg|]] s1]; simpl in *; [done| |].
  - eapply R_trans; [exact Hb|].
    assert (H : preserves R (logger (LogLoopError (Exception msg)) ;;; sleep 5)) by preserve.
    apply (H s1).
  - eapply R_trans; [exact Hb|].
    assert (H : preserves R (logger LogKeyboardInterrupt ;;; modify (set_running false))).
    { preserve. apply R_running. }
    apply (H s1).
Qed.

Lemma deliver_signal_preserves : preserves R (deliver_signal env).
Proof using R_refl R_trans R_logger R_running.
  unfold deliver_signal. preserve. apply _signal_handler_preserves.
Qed.

Lemma while_running_preserves fuel : preserves R (while_running cfg env fuel).
Proof using All.
  induction fuel as [|fuel IH]; simpl.
  - preserve.
  - preserve; try apply deliver_signal_preserves; try apply loop_iteration_preserves.
Qed.

Lemma run_persistent_loop_preserves fuel : preserves R (run_persistent_loop cfg env fuel).
Proof using All.
  unfold run_persistent_loop.
  preserve; try apply train_agents_preserves; try apply start_all_services_preserves;
    try apply while_running_preserves; try apply graceful_shutdown_preserves.
  apply (set_counters_preserves (fun _ => 0) (fun _ => 0) (fun _ => 0)).
Qed.

End Methods.

(** * Restart counters *)

Lemma counts_unchanged_refl s : counts_unchanged s s.
Proof. reflexivity. Qed.

Lemma counts_unchanged_trans s1 s2 s3 :
  counts_unchanged s1 s2 -> counts_unchanged s2 s3 -> counts_unchanged s1 s3.
Proof. unfold counts_unchanged. congruence. Qed.

Lemma counts_grow_refl s : counts_grow s s.
Proof. intros n. lia. Qed.

Lemma counts_grow_trans s1 s2 s3 : counts_grow s1 s2 -> counts_grow s2 s3 -> counts_grow s1 s3.
Proof. intros H1 H2 n. specialize (H1 n). specialize (H2 n). lia. Qed.

Lemma counts_unchanged_grow s s' : counts_unchanged s s' -> counts_grow s s'.
Proof. intros H n. unfold restart_count_of. rewrite H. lia. Qed.

Lemma restart_count_of_bump s service_name other :
  restart_count_of
    (set_restart_counts (insert service_name (restart_count_of s service_name + 1)) s) other
  = if decide (service_name = other) then restart_count_of s other + 1
    else restart_count_of s other.
Proof.
  unfold restart_count_of at 1. simpl. rewrite lookup_insert.
  destruct (decide (service_name = other)) as [->|]; reflexivity.
Qed.

(** Tactic for the side conditions of the lemmas of [Methods]: a primitive
    that does not touch the field a relation reads. *)
Ltac untouched := intros; intros ?; reflexivity.

Section CountsUnchanged.

Variable env : Env.

Lemma stop_service_counts service_name : preserves counts_unchanged (stop_service service_name).
Proof.
  apply stop_service_preserves;
    first [apply counts_unchanged_refl | apply counts_unchanged_trans | untouched].
Qed.

Lemma start_service_counts service_name config :
  preserves counts_unchanged (start_service env service_name config).
Proof.
  apply start_service_preserves;
    try first [apply counts_unchanged_refl | apply counts_unchanged_trans | untouched].
  intros n s. unfold subprocess_Popen, bind, next_call. simpl.
  destruct (popen env n _); reflexivity.
Qed.

Lemma _check_service_health_counts service_name config :
  preserves counts_unchanged (_check_service_health env service_name config).
Proof.
  apply _check_service_health_preserves;
    first [apply counts_unchanged_refl | apply counts_unchanged_trans | untouched].
Qed.

Lemma check_system_health_counts cfg : preserves counts_unchanged (check_system_health cfg env).
Proof.
  apply check_system_health_preserves;
    first [apply counts_unchanged_refl | apply counts_unchanged_trans | untouched].
Qed.

End CountsUnchanged.

(** [stop_service] always returns [True]: nothing in its [try] block
    raises, and afterwards no handle is stored under the name. *)
Lemma stop_service_returns service_name s :
  (stop_service service_name s).1 = Ok true
  /\ processes (stop_service service_name s).2 = delete service_name (processes s).
Proof.
  unfold stop_service, bind, get. simpl.
  destruct (processes s !! service_name) as [process|] eqn:Hp; simpl.
  - unfold try_except_Exception, bind, poll_is_None, get, ret. simpl.
    destruct (alive (world s) (pid process)); simpl; [|done].
    match goal with |- context [if ?b then _ else _] => destruct b end; simpl; done.
  - split; [done|]. symmetry. by apply delete_id.
Qed.

(** What [restart_service] does to the counters, whatever else happens:
    the entry of its service goes up by one. *)
Lemma restart_service_counts env service_name config s :
  restart_counts (restart_service env service_name config s).2
  = <[service_name := restart_count_of s service_name + 1]> (restart_counts s).
Proof.
  unfold restart_service, bind at 1, logger at 1, modify at 1.
  set (s0 := set_world _ s).
  unfold bind at 1.
  pose proof (stop_service_counts service_name s0) as Hstop.
  destruct (stop_service_returns service_name s0) as [Hok _].
  destruct (stop_service service_name s0) as [r s1]; simpl in Hstop, Hok. subst r.
  unfold bind at 1, get at 1. unfold bind at 1, modify at 1. unfold bind at 1, sleep at 1, modify at 1.
  set (s2 := set_world _ _).
  unfold bind at 1.
  pose proof (start_service_counts env service_name config s2) as Hstart.
  unfold counts_unchanged in *.
  destruct (start_service env service_name config s2) as [[b|e] s3]; simpl in Hstart.
  - unfold bind, get. destruct b; simpl; rewrite Hstart; subst s2; simpl;
      unfold restart_count_of; by rewrite Hstop.
  - simpl. rewrite Hstart. subst s2. simpl. unfold restart_count_of. by rewrite Hstop.
Qed.

(** ** Every primitive leaves the counters alone *)

Section PrimitivesAndCounts.

Variable env : Env.
Variable R : System -> System -> Prop.
Hypothesis R_unchanged : forall s s', counts_unchanged s s' -> R s s'.

Lemma logger_counts e : preserves R (logger e).
Proof using R_unchanged. intros s. by apply R_unchanged. Qed.

Lemma sleep_counts n : preserves R (sleep n).
Proof using R_unchanged. intros s. by apply R_unchanged. Qed.

Lemma next_call_counts : preserves R next_call.
Proof using R_unchanged. intros s. by apply R_unchanged. Qed.

Lemma set_processes_counts f : preserves R (modify (set_processes f)).
Proof using R_unchanged. intros s. by apply R_unchanged. Qed.

Lemma set_running_counts b : preserves R (modify (set_running b)).
Proof using R_unchanged. intros s. by apply R_unchanged. Qed.

Lemma set_counters_counts (f : System -> nat * nat * nat) :
  preserves R (modify (fun s => let '(h, a, m) := f s in set_counters h a m s)).
Proof using R_unchanged.
  intros s. apply R_unchanged. unfold modify. simpl. by destruct (f s) as [[h a] m].
Qed.

Lemma terminate_counts p : preserves R (terminate p).
Proof using R_unchanged. intros s. by apply R_unchanged. Qed.

Lemma kill_counts p : preserves R (kill p).
Proof using R_unchanged. intros s. by apply R_unchanged. Qed.

Lemma subprocess_Popen_counts service_name : preserves R (subprocess_Popen env service_name).
Proof using R_unchanged.
  intros s. apply R_unchanged. unfold subprocess_Popen, bind, next_call. simpl.
  by destruct (popen env service_name _).
Qed.

End PrimitivesAndCounts.

Lemma bump_grows service_name :
  preserves counts_grow
    (let* s := get in
     modify (set_restart_counts (insert service_name (restart_count_of s service_name + 1)))).
Proof.
  intros s other. unfold bind, get, modify. simpl. rewrite restart_count_of_bump.
  destruct (decide (service_name = other)); lia.
Qed.

(** Discharge the premises of a lemma of [Methods] for [counts_grow]. *)
Ltac grow_premises :=
  intros;
  first [ assumption
        | apply counts_grow_refl
        | eapply counts_grow_trans; eassumption
        | apply bump_grows
        | apply logger_counts, counts_unchanged_grow
        | apply sleep_counts, counts_unchanged_grow
        | apply next_call_counts, counts_unchanged_grow
        | apply set_processes_counts, counts_unchanged_grow
        | apply set_running_counts, counts_unchanged_grow
        | apply set_counters_counts, counts_unchanged_grow
        | apply terminate_counts, counts_unchanged_grow
        | apply kill_counts, counts_unchanged_grow
        | apply subprocess_Popen_counts, counts_unchanged_grow ].

(** C5. For every service, the restart count never decreases across any
    operation of the supervisor (no method resets it), and every call of
    [restart_service] raises the count of its service by exactly one,
    whether the start that follows returns [True], returns [False] or
    raises. *)
Theorem restart_count_monotone (cfg : Config) (env : Env) :
  (forall (op : Operation) (s : System) (service_name : string),
     restart_count_of s service_name <= restart_count_of (perform cfg env op s) service_name)
  /\ (forall (service_name : string) (config : ServiceConfig) (s : System),
       restart_count_of (restart_service env service_name config s).2 service_name
       = restart_count_of s service_name + 1).
Proof.
  split.
  - intros op s. change (counts_grow s (perform cfg env op s)).
    destruct op; simpl.
    + apply _signal_handler_preserves with (R := counts_grow); grow_premises.
    + apply check_system_health_preserves with (R := counts_grow); grow_premises.
    + apply _check_service_health_preserves with (R := counts_grow); grow_premises.
    + apply start_service_preserves with (R := counts_grow); grow_premises.
    + apply stop_service_preserves with (R := counts_grow); grow_premises.
    + apply restart_service_preserves with (R := counts_grow); grow_premises.
    + apply auto_patch_system_preserves with (R := counts_grow); grow_premises.
    + apply train_agents_preserves with (R := counts_grow); grow_premises.
    + apply start_all_services_preserves with (R := counts_grow); grow_premises.
    + apply monitor_and_report_preserves with (R := counts_grow); grow_premises.
    + apply loop_iteration_preserves with (R := counts_grow); grow_premises.
    + apply run_persistent_loop_preserves with (R := counts_grow); grow_premises.
  - intros service_name config s. unfold restart_count_of at 1.
    rewrite restart_service_counts, lookup_insert_eq. reflexivity.
Qed.

(** * Stopping *)

(** [stop_service] on a stored handle whose process is gone sends no
    signal and does not wait: only the handle is dropped and the stop is
    logged. *)
Lemma stop_service_gone service_name process s :
  processes s !! service_name = Some process ->
  alive (world s) (pid process) = false ->
  stop_service service_name s
  = (Ok true,
     set_world (fun w => mkWorld (clock w) (calls w) (ptable w)
                                 (log w ++ [LogStopped service_name]))
               (set_processes (delete service_name) s)).
Proof.
  intros Hp Hdead. unfold stop_service, bind, get. simpl. rewrite Hp.
  unfold try_except_Exception, bind, poll_is_None, get, ret. simpl.
  rewrite Hdead. reflexivity.
Qed.

(** C4. Stopping a service that has no stored handle (it was never
    started, or it has been stopped) changes nothing and returns [True]; stop
    always returns [True] and leaves no handle behind, so a second stop is such
    a no-op; when the stored handle's process has already gone, no signal is
    sent and no time passes; and stop never changes [restart_counts]. *)
Theorem stop_service_idempotent (service_name : string) (s : System) :
  (processes s !! service_name = None -> stop_service service_name s = (Ok true, s))
  /\ (stop_service service_name s).1 = Ok true
  /\ stop_service service_name (stop_service service_name s).2
     = (Ok true, (stop_service service_name s).2)
  /\ (forall process,
        processes s !! service_name = Some process ->
        alive (world s) (pid process) = false ->
        ptable (world (stop_service service_name s).2) = ptable (world s)
        /\ clock (world (stop_service service_name s).2) = clock (world s))
  /\ restart_counts (stop_service service_name s).2 = restart_counts s
  /\ (forall other,
        restart_count_of (stop_service service_name s).2 other = restart_count_of s other).
Proof.
  assert (Hnone : forall s0, processes s0 !! service_name = None ->
                             stop_service service_name s0 = (Ok true, s0)).
  { intros s0 H. unfold stop_service, bind, get. simpl. by rewrite H. }
  destruct (stop_service_returns service_name s) as [Hok Hdel].
  pose proof (stop_service_counts service_name s) as Hcounts.
  repeat split.
  - apply Hnone.
  - exact Hok.
  - apply Hnone. rewrite Hdel. apply lookup_delete_eq.
  - by rewrite (stop_service_gone _ _ _ H H0).
  - by rewrite (stop_service_gone _ _ _ H H0).
  - exact Hcounts.
  - intros other. unfold restart_count_of. by rewrite Hcounts.
Qed.

Lemma stop_service_idempotent_witness :
  processes fresh !! "beta" = None /\ stop_service "beta" fresh = (Ok true, fresh).
Proof.
  split; [reflexivity | apply (proj1 (stop_service_idempotent "beta" fresh)); reflexivity].
Defined.

(** * Processes *)

Lemma before_mono t t' e : t <= t' -> before t' e = true -> before t e = true.
Proof.
  destruct e as [x|]; simpl; [|done].
  intros Hle H. apply bool_decide_eq_true in H. apply bool_decide_eq_true. lia.
Qed.

Lemma before_earliest t a b : before t (earliest a b) = true -> before t a = true /\ t < b.
Proof.
  destruct a as [x|]; simpl; intros H; apply bool_decide_eq_true in H.
  - split; [apply bool_decide_eq_true|]; lia.
  - split; [done | lia].
Qed.

Lemma no_revival_refl s : no_revival s s.
Proof. by intros p. Qed.

Lemma no_revival_trans s1 s2 s3 : no_revival s1 s2 -> no_revival s2 s3 -> no_revival s1 s3.
Proof. intros H1 H2 p H. by apply H1, H2. Qed.

Lemma logger_no_revival e : preserves no_revival (logger e).
Proof. by intros s p. Qed.

Lemma set_processes_no_revival f : preserves no_revival (modify (set_processes f)).
Proof. by intros s p. Qed.

Lemma sleep_no_revival n : preserves no_revival (sleep n).
Proof.
  intros s p. unfold alive. simpl. destruct (ptable (world s) !! p); [|done].
  apply before_mono. lia.
Qed.

Lemma terminate_no_revival process : preserves no_revival (terminate process).
Proof.
  intros s p. unfold alive. simpl. rewrite list_lookup_alter.
  destruct (decide (pid process = p)) as [->|]; [|done].
  destruct (ptable (world s) !! p) as [pr|]; simpl; [|done].
  unfold deliver_term. destruct (on_term pr); simpl; [|done].
  intros H. by apply before_earliest in H as [H _].
Qed.

Lemma kill_no_revival process : preserves no_revival (kill process).
Proof.
  intros s p. unfold alive. simpl. rewrite list_lookup_alter.
  destruct (decide (pid process = p)) as [->|]; [|done].
  destruct (ptable (world s) !! p) as [pr|]; simpl; [|done].
  intros H. by apply before_earliest in H as [H _].
Qed.

(** After SIGKILL the process is gone. *)
Lemma kill_kills process s : alive (world (kill process s).2) (pid process) = false.
Proof.
  unfold alive. simpl. rewrite list_lookup_alter_eq.
  destruct (ptable (world s) !! pid process) as [pr|]; simpl; [|done].
  apply not_true_is_false. intros H. apply before_earliest in H as [_ H]. lia.
Qed.

Lemma stop_service_no_revival service_name : preserves no_revival (stop_service service_name).
Proof.
  apply stop_service_preserves with (R := no_revival);
    first [ apply no_revival_refl | apply no_revival_trans | apply logger_no_revival
          | apply sleep_no_revival | apply set_processes_no_revival
          | apply terminate_no_revival | apply kill_no_revival ].
Qed.

(** After [stop_service] the process of the handle that was stored is not
    alive: it was gone already, it went within the grace period, or it was
    killed. *)
Lemma stop_service_kills service_name process s :
  processes s !! service_name = Some process ->
  alive (world (stop_service service_name s).2) (pid process) = false.
Proof.
  intros Hp.
  destruct (alive (world s) (pid process)) eqn:Hup.
  2:{ by rewrite (stop_service_gone _ _ _ Hp Hup). }
  unfold stop_service, try_except_Exception, bind, poll_is_None, get, ret, logger,
    terminate, sleep, kill, modify.
  simpl. rewrite Hp. simpl. rewrite Hup. simpl.
  match goal with |- context [if ?b then _ else _] => destruct b eqn:Hup1 end; simpl.
  - unfold alive. simpl. rewrite list_lookup_alter_eq.
    destruct (alter _ _ _ !! pid process) as [pr|]; simpl; [|done].
    apply not_true_is_false. intros H. apply before_earliest in H as [_ H]. lia.
  - exact Hup1.
Qed.

(** * Shutdown *)

(** Stopping every name of a list: afterwards none of them has a handle,
    the other handles are untouched, and the process of every handle that
    was stored under one of the names is gone. *)
Lemma stop_each_spec (names : list string) (s : System) :
  (stop_each names s).1 = Ok tt
  /\ (forall service_name,
        processes (stop_each names s).2 !! service_name
        = if decide (service_name ∈ names) then None else processes s !! service_name)
  /\ (forall service_name process,
        service_name ∈ names -> processes s !! service_name = Some process ->
        alive (world (stop_each names s).2) (pid process) = false)
  /\ no_revival s (stop_each names s).2.
Proof.
  revert s. induction names as [|x names IH]; intros s.
  - split; [done|]. split; [|split].
    + intros n. by rewrite decide_False by apply not_elem_of_nil.
    + intros ? ? H. by apply elem_of_nil in H.
    + apply no_revival_refl.
  - unfold stop_each. cbn [for_each]. fold (stop_each names).
    unfold bind at 1 3 5 7. unfold bind at 1 2 3 4.
    destruct (stop_service_returns x s) as [Hok Hdel].
    pose proof (stop_service_kills x) as Hkill.
    pose proof (stop_service_no_revival x s) as Hrev.
    specialize (Hkill) with (s := s).
    destruct (stop_service x s) as [r1 s1]. cbn [fst snd] in *. subst r1. unfold ret.
    destruct (IH s1) as (IH1 & IH2 & IH3 & IH4). clear IH.
    split; [|split; [|split]].
    + exact IH1.
    + intros n. rewrite IH2, Hdel.
      destruct (decide (n = x)) as [->|Hne].
      * rewrite lookup_delete_eq. rewrite (decide_True (P := x ∈ x :: names)) by left.
        by destruct (decide (x ∈ names)).
      * rewrite lookup_delete_ne by done.
        destruct (decide (n ∈ names)) as [Hin|Hnin].
        -- by rewrite decide_True by by right.
        -- rewrite decide_False; [done|]. intros Hc. apply elem_of_cons in Hc as [?|?]; done.
    + intros n process Hin Hp.
      destruct (decide (n = x)) as [->|Hne].
      * apply not_true_is_false. intros Hup. apply IH4 in Hup.
        by rewrite (Hkill _ Hp) in Hup.
      * apply (IH3 n); [|by rewrite Hdel, lookup_delete_ne].
        apply elem_of_cons in Hin as [?|?]; done.
    + eapply no_revival_trans; [exact Hrev | exact IH4].
Qed.

Lemma elem_of_process_names s service_name :
  service_name ∈ process_names s <-> is_Some (processes s !! service_name).
Proof.
  unfold process_names. rewrite list_elem_of_fmap. split.
  - intros [[n p] [-> Hin]]. apply elem_of_map_to_list in Hin. by exists p.
  - intros [p Hp]. exists (service_name, p). split; [done|]. by apply elem_of_map_to_list.
Qed.

(** The shutdown sequence, computed. *)
Lemma graceful_shutdown_spec (s : System) :
  (graceful_shutdown s).1 = Ok tt
  /\ processes (graceful_shutdown s).2 = ∅
  /\ (forall service_name process,
        processes s !! service_name = Some process ->
        alive (world (graceful_shutdown s).2) (pid process) = false).
Proof.
  assert (Heq : graceful_shutdown s
                = match stop_each (process_names (logger LogShuttingDown s).2)
                                  (logger LogShuttingDown s).2 with
                  | (Ok _, s1) => logger LogShutdownComplete s1
                  | (Raise e, s1) => (Raise e, s1)
                  end) by reflexivity.
  rewrite Heq. clear Heq.
  set (s0 := (logger LogShuttingDown s).2).
  destruct (stop_each_spec (process_names s0) s0) as (H1 & H2 & H3 & _).
  destruct (stop_each _ s0) as [r s1]. simpl in H1, H2, H3. subst r.
  unfold logger, modify. simpl.
  split; [done|]. split.
  - apply map_empty. intros n. rewrite H2.
    destruct (decide (n ∈ process_names s0)) as [|Hn]; [done|].
    rewrite elem_of_process_names in Hn.
    destruct (processes s0 !! n) eqn:E; [|done]. destruct Hn. by eexists.
  - intros n process Hp.
    assert (Hin : n ∈ process_names s0) by (apply elem_of_process_names; by eexists).
    exact (H3 n process Hin Hp).
Qed.



(** * Probes *)

(** The probe, computed: the process-table part and the HTTP part are
    independent. *)
Lemma _check_service_health_run env service_name config s :
  let seen :=
    match processes s !! service_name with
    | Some process => if alive (world s) (pid process) then Some (pid process) else None
    | None => None
    end in
  let verdict :=
    match first_answer env config s with
    | Response status_code => bool_decide (status_code = 200%Z)
    | _ => match second_answer env config s with
           | Response status_code =>
               bool_decide (status_code = 200%Z) || bool_decide (status_code = 404%Z)
           | _ => false
           end
    end in
  _check_service_health env service_name config s
  = (Ok (mkServiceHealth (name config) (port config) verdict
                         (bool_decide (is_Some seen)) verdict
                         (restart_count_of s service_name) seen),
     after_calls (if raised (first_answer env config s) then 2 else 1) s).
Proof.
  unfold first_answer, second_answer, _check_service_health, requests_get, next_call,
    poll_is_None, bind, get, ret, after_calls, set_world.
  simpl.
  destruct (processes s !! service_name) as [process|]; simpl;
    [destruct (alive (world s) (pid process)); simpl|];
    (destruct (http_get env (port config) HealthPath (calls (world s))) as [c| | | |];
     simpl;
     [ destruct (bool_decide (c = 200%Z))
     | destruct (http_get env (port config) RootPath (S (calls (world s)))) as [c2| | | |];
       simpl; [destruct (bool_decide (c2 = 200%Z) || bool_decide (c2 = 404%Z))| ..] .. ]);
    repeat f_equal; lia.
Qed.

(** * The restart decisions *)

(** The auto-heal step reads nothing of a probe but its [healthy] flag. *)
Lemma heal_reads_healthy cfg env service_name h h' :
  healthy h = healthy h' -> heal cfg env (service_name, h) = heal cfg env (service_name, h').
Proof. intros H. unfold heal. by rewrite H. Qed.

(** The counters after the auto-heal step for one service. *)
Lemma heal_counts cfg env service_name h s :
  restart_counts (heal cfg env (service_name, h) s).2
  = if negb (healthy h)
       && match dict_get service_name (services cfg) with
          | Some config => restart_on_failure config
          | None => false
          end
    then <[service_name := restart_count_of s service_name + 1]> (restart_counts s)
    else restart_counts s.
Proof.
  unfold heal. destruct (healthy h); simpl; [done|].
  destruct (dict_get service_name (services cfg)) as [config|]; [|done].
  destruct (restart_on_failure config); [|done].
  unfold bind at 1, logger at 1, modify at 1.
  set (s0 := set_world _ s).
  unfold bind at 1.
  pose proof (restart_service_counts env service_name config s0) as H.
  destruct (restart_service env service_name config s0) as [[b|e] s1]; simpl in *; exact H.
Qed.

(** The counters after the patch step for one service: the probe it makes
    decides. *)
Lemma patch_service_counts env n service_name config s h :
  probe env service_name config s = Ok h ->
  restart_counts (patch_service env n (service_name, config) s).2
  = if restart_on_failure config && negb (healthy h) && critical config
    then <[service_name := restart_count_of s service_name + 1]> (restart_counts s)
    else restart_counts s.
Proof.
  unfold probe, patch_service. intros Hprobe.
  destruct (restart_on_failure config); simpl; [|done].
  unfold bind at 1. rewrite _check_service_health_run in *. simpl in Hprobe.
  injection Hprobe as <-. cbn [healthy].
  match goal with |- context [negb ?v && _] => destruct v end; simpl; [done|].
  destruct (critical config); simpl; [|done].
  unfold bind at 1, logger at 1, modify at 1.
  set (s0 := set_world _ _).
  unfold bind at 1.
  pose proof (restart_service_counts env service_name config s0) as H.
  destruct (restart_service env service_name config s0) as [[b|e] s1]; simpl in *;
    (destruct b || idtac); exact H.
Qed.

Lemma patch_service_count env n service_name config s h :
  probe env service_name config s = Ok h ->
  restart_count_of (patch_service env n (service_name, config) s).2 service_name
  = restart_count_of s service_name
    + (if restart_on_failure config && negb (healthy h) && critical config then 1 else 0).
Proof.
  intros Hprobe. unfold restart_count_of at 1.
  rewrite (patch_service_counts env n service_name config s h Hprobe).
  destruct (restart_on_failure config && negb (healthy h) && critical config).
  - by rewrite lookup_insert_eq.
  - fold (restart_count_of s service_name). lia.
Qed.

(** The auto-heal loop over the recorded probes, when it runs to its end:
    each service's count goes up by one exactly when its probe was not
    healthy and its configuration asks for restarts. *)
Lemma heal_each_counts cfg env (hs : list (string * ServiceHealth)) s :
  NoDup hs.*1 ->
  (for_each hs (heal cfg env) s).1 = Ok tt ->
  (forall service_name, service_name ∉ hs.*1 ->
     restart_count_of (for_each hs (heal cfg env) s).2 service_name
     = restart_count_of s service_name)
  /\ (forall service_name h config,
        (service_name, h) ∈ hs ->
        dict_get service_name (services cfg) = Some config ->
        restart_count_of (for_each hs (heal cfg env) s).2 service_name
        = restart_count_of s service_name
          + (if negb (healthy h) && restart_on_failure config then 1 else 0)).
Proof.
  revert s. induction hs as [|[x hx] hs IH]; intros s Hnd Hok.
  - split; [done|]. intros ? ? ? H. by apply elem_of_nil in H.
  - cbn [for_each] in *. unfold bind at 1 in Hok. unfold bind at 1 2.
    pose proof (heal_counts cfg env x hx s) as Hx.
    destruct (heal cfg env (x, hx) s) as [[[]|e] s1]; simpl in Hok; [|done].
    simpl in Hx. apply NoDup_cons in Hnd as [Hx_fresh Hnd]. simpl in Hx_fresh.
    destruct (IH s1 Hnd Hok) as [IH1 IH2]. clear IH.
    assert (Hother : forall n, n <> x -> restart_count_of s1 n = restart_count_of s n).
    { intros n Hn. unfold restart_count_of. rewrite Hx.
      destruct (negb (healthy hx) && _); [|done]. by rewrite lookup_insert_ne. }
    split.
    + intros n Hn. simpl in Hn. apply not_elem_of_cons in Hn as [Hn1 Hn2].
      rewrite (IH1 n Hn2). by apply Hother.
    + intros n h config Hin Hcfg. apply elem_of_cons in Hin as [Heq|Hin].
      * injection Heq as -> ->. rewrite (IH1 x Hx_fresh).
        unfold restart_count_of at 1. rewrite Hx, Hcfg.
        destruct (negb (healthy hx) && restart_on_failure config).
        -- by rewrite lookup_insert_eq.
        -- fold (restart_count_of s x). lia.
      * assert (n <> x).
        { intros ->. apply Hx_fresh. apply list_elem_of_fmap. by exists (x, h). }
        rewrite (IH2 n h config Hin Hcfg). by rewrite Hother.
Qed.

(** ** The dictionary of probes *)

Lemma dict_set_keys {A : Type} key (v : A) d n :
  n ∈ (dict_set key v d).*1 -> n = key \/ n ∈ d.*1.
Proof.
  induction d as [|[k x] d IH]; simpl.
  - intros H. apply list_elem_of_singleton in H. by left.
  - destruct (decide (k = key)) as [->|Hne]; simpl.
    + intros H. by right.
    + intros H. apply elem_of_cons in H as [->|H]; [right; left|].
      destruct (IH H) as [?|?]; [by left | right; by right].
Qed.

Lemma dict_set_NoDup {A : Type} key (v : A) d : NoDup d.*1 -> NoDup (dict_set key v d).*1.
Proof.
  induction d as [|[k x] d IH]; simpl; intros Hnd.
  - apply NoDup_singleton.
  - apply NoDup_cons in Hnd as [Hk Hnd].
    destruct (decide (k = key)) as [->|Hne]; simpl.
    + by apply NoDup_cons.
    + apply NoDup_cons. split; [|by apply IH].
      intros Hin. apply dict_set_keys in Hin as [?|?]; done.
Qed.

(** An invariant of the accumulator of a [for] loop. *)
Lemma for_fold_invariant {A B : Type} (P : B -> Prop) (body : B -> A -> M B) :
  (forall b x s b' s', P b -> body b x s = (Ok b', s') -> P b') ->
  forall l acc s acc' s', P acc -> for_fold l acc body s = (Ok acc', s') -> P acc'.
Proof.
  intros Hbody l. induction l as [|x l IH]; intros acc s acc' s' Hacc Hrun; simpl in Hrun.
  - unfold ret in Hrun. by injection Hrun as <- <-.
  - unfold bind in Hrun. destruct (body acc x s) as [[b|e] s1] eqn:Hb; [|done].
    eapply IH; [|exact Hrun]. eapply Hbody; eauto.
Qed.

Lemma check_one_NoDup env health item s health' s' :
  NoDup (h_services health).*1 ->
  check_one env health item s = (Ok health', s') ->
  NoDup (h_services health').*1.
Proof.
  destruct item as [service_name config]. intros Hnd. unfold check_one, bind.
  rewrite _check_service_health_run. cbn [healthy]. unfold ret.
  match goal with |- context [if ?v then _ else _] => destruct v end;
    intros H; injection H as <- <-; simpl; by apply dict_set_NoDup.
Qed.

Lemma check_system_health_NoDup cfg env s health :
  (check_system_health cfg env s).1 = Ok health -> NoDup (h_services health).*1.
Proof.
  unfold check_system_health, bind at 1.
  destruct (for_fold (services cfg) _ (check_one env) s) as [[acc|e] s1] eqn:Hfold; [|done].
  assert (Hacc : NoDup (h_services acc).*1).
  { eapply (for_fold_invariant (fun a => NoDup (h_services a).*1)); [| |exact Hfold].
    - intros. eapply check_one_NoDup; eauto.
    - simpl. apply NoDup_nil_2. }
  unfold bind. destruct (psutil_resources env s1) as [[r|e] s2]; [|done].
  unfold ret. simpl. intros H. by injection H as <-.
Qed.

(** The health-check branch when it is due: probe everything, then heal,
    then reset the counter. *)
Lemma health_checks_due cfg env s :
  health_check_interval cfg <= health_check_counter s ->
  health_checks cfg env s
  = match check_system_health cfg env s with
    | (Ok health, s1) =>
        match for_each (h_services health) (heal cfg env) s1 with
        | (Ok _, s2) => (Ok tt, set_counters 0 (auto_patch_counter s2) (monitor_counter s2) s2)
        | (Raise e, s2) => (Raise e, s2)
        end
    | (Raise e, s1) => (Raise e, s1)
    end.
Proof.
  intros Hdue. unfold health_checks, bind at 1, get at 1.
  rewrite bool_decide_eq_true_2 by done. reflexivity.
Qed.

(** The health-check branch of the loop, when it is due and runs to its
    end: each recorded service's count goes up by one exactly when the probe
    found it not healthy and its configuration has [restart_on_failure]. *)
Lemma health_checks_count cfg env s health service_name h config :
  health_check_interval cfg <= health_check_counter s ->
  (check_system_health cfg env s).1 = Ok health ->
  (health_checks cfg env s).1 = Ok tt ->
  (service_name, h) ∈ h_services health ->
  dict_get service_name (services cfg) = Some config ->
  restart_count_of (health_checks cfg env s).2 service_name
  = restart_count_of s service_name
    + (if negb (healthy h) && restart_on_failure config then 1 else 0).
Proof.
  intros Hdue Hhealth Hok Hin Hcfg.
  pose proof (check_system_health_NoDup _ _ _ _ Hhealth) as Hnd.
  pose proof (check_system_health_counts env cfg s) as Hcounts.
  rewrite health_checks_due in Hok |- * by done.
  destruct (check_system_health cfg env s) as [[health'|e] s1]; simpl in Hhealth; [|done].
  injection Hhealth as ->. simpl in Hcounts.
  pose proof (heal_each_counts cfg env (h_services health) s1 Hnd) as Hloop.
  destruct (for_each (h_services health) (heal cfg env) s1) as [[[]|e] s2]; [|done].
  destruct (Hloop eq_refl) as [_ H]. simpl in *.
  unfold restart_count_of at 1. simpl. fold (restart_count_of s2 service_name).
  rewrite (H _ _ _ Hin Hcfg). unfold restart_count_of. by rewrite Hcounts.
Qed.

Lemma dict_get_elem {A : Type} key (v : A) d : dict_get key d = Some v -> (key, v) ∈ d.
Proof.
  induction d as [|[k x] d IH]; simpl; [done|].
  destruct (decide (k = key)) as [->|]; intros H.
  - injection H as ->. left.
  - right. by apply IH.
Qed.

(** The health-check branch never touches [running]. *)
Lemma health_checks_running cfg env : preserves running_unchanged (health_checks cfg env).
Proof.
  apply health_checks_preserves with (R := running_unchanged);
    try (intros; first [assumption | reflexivity | intros ?; reflexivity]).
  - unfold running_unchanged. congruence.
  - intros n s. unfold running_unchanged, subprocess_Popen, bind, next_call. simpl.
    by destruct (popen env _ _).
  - intros f s. unfold running_unchanged, modify. simpl. by destruct (f s) as [[? ?] ?].
Qed.

(** C1, as the loop has it.  In a health-check cycle that is due and runs
    to its end, a critical service is restarted if and only if its
    [restart_on_failure] is true and the probe of this cycle reported it not
    healthy; in the patch cycle a service is restarted if and only if
    [restart_on_failure] and [critical] are true and the probe reported it
    not healthy.  Neither cycle reads [max_restarts] or the restart count:
    the statement holds for every ceiling and every count.  A restart is
    observed as the restart count going up by one. *)
Theorem restart_rule (cfg : Config) (env : Env) :
  (forall s health service_name h config,
      health_check_interval cfg <= health_check_counter s ->
      (check_system_health cfg env s).1 = Ok health ->
      (health_checks cfg env s).1 = Ok tt ->
      dict_get service_name (h_services health) = Some h ->
      dict_get service_name (services cfg) = Some config ->
      critical config = true ->
      (restart_count_of (health_checks cfg env s).2 service_name
       = restart_count_of s service_name + 1
       <-> restart_on_failure config = true /\ critical config = true /\ healthy h = false)
      /\ (restart_count_of (health_checks cfg env s).2 service_name
          = restart_count_of s service_name
          <-> ~ (restart_on_failure config = true /\ critical config = true
                 /\ healthy h = false)))
  /\ (forall s n service_name config h,
        probe env service_name config s = Ok h ->
        (restart_count_of (patch_service env n (service_name, config) s).2 service_name
         = restart_count_of s service_name + 1
         <-> restart_on_failure config = true /\ critical config = true /\ healthy h = false)
        /\ (restart_count_of (patch_service env n (service_name, config) s).2 service_name
            = restart_count_of s service_name
            <-> ~ (restart_on_failure config = true /\ critical config = true
                   /\ healthy h = false))).
Proof.
  split.
  - intros s health service_name h config Hdue Hhealth Hok Hh Hcfg Hcrit.
    rewrite (health_checks_count cfg env s health service_name h config Hdue Hhealth Hok
               (dict_get_elem _ _ _ Hh) Hcfg).
    rewrite Hcrit. destruct (healthy h), (restart_on_failure config); simpl;
      (split; split; intros; try lia; naive_solver).
  - intros s n service_name config h Hprobe.
    rewrite (patch_service_count env n service_name config s h Hprobe).
    destruct (restart_on_failure config), (healthy h), (critical config); simpl;
      (split; split; intros; try lia; naive_solver).
Qed.

Lemma restart_rule_witness :
  health_check_interval alpha_cfg <= health_check_counter due
  /\ (restart_count_of (health_checks alpha_cfg quiet_env due).2 "alpha"
      = restart_count_of due "alpha" + 1
      <-> restart_on_failure alpha_config = true /\ critical alpha_config = true
          /\ healthy (down_report "Alpha" 8001 0) = false).
Proof.
  split; [vm_compute; lia|].
  apply (proj1 (restart_rule alpha_cfg quiet_env) due (quiet_health "alpha" "Alpha" 8001 0)
           "alpha" (down_report "Alpha" 8001 0) alpha_config);
    first [reflexivity | vm_compute; lia].
Defined.

(** On the configuration shipped with the program every service is
    critical, restarted on failure and without ceiling, so there the rule of
    the specification asks for a restart exactly when the service is not
    healthy. *)
Lemma kingdom_config_rule service_name config restartCount unhealthy :
  dict_get service_name (services KINGDOM_CONFIG) = Some config ->
  spec_shouldRestart config restartCount unhealthy = unhealthy.
Proof.
  simpl. repeat case_decide; intros Hcfg; try done; injection Hcfg as <-;
    unfold spec_shouldRestart; simpl; by rewrite andb_true_r.
Qed.

(** The rule of the specification forbids a third restart of "beta"
    (critical, restarted on failure, not healthy, count 2 of at most 2); the
    health-check cycle makes it: the equivalence of the specification fails
    at this input. *)
Lemma restart_rule_ignores_ceiling :
  ~ (restart_count_of (health_checks beta_cfg quiet_env beta_at_ceiling).2 "beta"
     = restart_count_of beta_at_ceiling "beta" + 1
     <-> spec_shouldRestart beta_config (restart_count_of beta_at_ceiling "beta")
                            (negb (healthy (down_report "Beta" 8002 2))) = true).
Proof. intros [H _]. vm_compute in H. by specialize (H eq_refl). Qed.

(** * The restart ceiling *)

(** C2, as the loop has it.  A service whose restart count has reached
    (or passed) a finite [max_restarts] is restarted again by every
    health-check cycle that is due, runs to its end and finds it not
    healthy with [restart_on_failure] set: the count goes up by one once
    more, beyond the ceiling, and [running] is left as it is. *)
Theorem ceiling_not_enforced (cfg : Config) (env : Env) (s : System) (health : SystemHealth)
    (service_name : string) (h : ServiceHealth) (config : ServiceConfig) (ceiling : nat) :
  max_restarts config = AtMost ceiling ->
  ceiling <= restart_count_of s service_name ->
  health_check_interval cfg <= health_check_counter s ->
  (check_system_health cfg env s).1 = Ok health ->
  (health_checks cfg env s).1 = Ok tt ->
  dict_get service_name (h_services health) = Some h ->
  dict_get service_name (services cfg) = Some config ->
  restart_on_failure config = true ->
  healthy h = false ->
  restart_count_of (health_checks cfg env s).2 service_name = restart_count_of s service_name + 1
  /\ ceiling < restart_count_of (health_checks cfg env s).2 service_name
  /\ running (health_checks cfg env s).2 = running s.
Proof.
  intros _ Hceil Hdue Hhealth Hok Hh Hcfg Hrof Hdown.
  rewrite (health_checks_count cfg env s health service_name h config Hdue Hhealth Hok
             (dict_get_elem _ _ _ Hh) Hcfg).
  rewrite Hrof, Hdown. simpl.
  split; [done|]. split; [lia|]. apply health_checks_running.
Qed.

Lemma ceiling_not_enforced_witness :
  restart_count_of (health_checks beta_cfg quiet_env beta_at_ceiling).2 "beta"
  = restart_count_of beta_at_ceiling "beta" + 1
  /\ 2 < restart_count_of (health_checks beta_cfg quiet_env beta_at_ceiling).2 "beta"
  /\ running (health_checks beta_cfg quiet_env beta_at_ceiling).2 = running beta_at_ceiling.
Proof.
  apply (ceiling_not_enforced beta_cfg quiet_env beta_at_ceiling
           (quiet_health "beta" "Beta" 8002 2) "beta" (down_report "Beta" 8002 2)
           beta_config 2);
    first [reflexivity | vm_compute; lia].
Defined.

(** Scenario B on the loop itself: "beta" never answers; after 30
    iterations it has been restarted twice, which is its ceiling, and after
    45 iterations its count is not at the ceiling any more. *)
Lemma beta_restarted_beyond_ceiling :
  max_restarts beta_config = AtMost 2
  /\ restart_count_of (while_running beta_cfg quiet_env 30 fresh).2 "beta" = 2
  /\ ~ (restart_count_of (while_running beta_cfg quiet_env 45 fresh).2 "beta"
        = restart_count_of (while_running beta_cfg quiet_env 30 fresh).2 "beta").
Proof. split; [reflexivity|]. split; [vm_compute; reflexivity|]. vm_compute. lia. Qed.

(** * What a probe tells *)

(** C10. The [healthy] flag of a probe is a function of the HTTP answers
    alone.  Replace the stored handles, the restart counts, the process
    table and the clock by anything: the probe returns in both states, with
    the same [healthy] flag, the one computed from the answers; the auto-heal
    step and the patch step take the same restart decision in both.  So a
    probe is healthy when [/health] answers 200 whatever the process table
    says, and not healthy when both requests fail even if the process is
    alive. *)
Theorem healthy_depends_on_http_only (cfg : Config) (env : Env) (service_name : string)
    (config : ServiceConfig) (s : System)
    (processes' : gmap string Popen) (restart_counts' : gmap string nat)
    (ptable' : list Proc) (clock' : nat) :
  let s' := mkSystem processes' restart_counts' (running s) (start_time s)
                     (health_check_counter s) (auto_patch_counter s) (monitor_counter s)
                     (mkWorld clock' (calls (world s)) ptable' (log (world s))) in
  exists h h',
    probe env service_name config s = Ok h
    /\ probe env service_name config s' = Ok h'
    /\ healthy h = healthy h'
    /\ healthy h
       = match first_answer env config s with
         | Response status_code => bool_decide (status_code = 200%Z)
         | _ => match second_answer env config s with
                | Response status_code =>
                    bool_decide (status_code = 200%Z) || bool_decide (status_code = 404%Z)
                | _ => false
                end
         end
    /\ heal cfg env (service_name, h) = heal cfg env (service_name, h')
    /\ (forall n,
          restart_count_of (patch_service env n (service_name, config) s).2 service_name
          = restart_count_of s service_name + 1
          <-> restart_count_of (patch_service env n (service_name, config) s').2 service_name
              = restart_count_of s' service_name + 1)
    /\ (first_answer env config s = Response 200%Z -> healthy h' = true)
    /\ (raised (first_answer env config s) = true ->
        raised (second_answer env config s) = true -> healthy h' = false).
Proof.
  intros s'. unfold probe.
  rewrite (_check_service_health_run env service_name config s).
  rewrite (_check_service_health_run env service_name config s').
  cbv zeta. cbn [fst].
  assert (H1 : first_answer env config s' = first_answer env config s) by reflexivity.
  assert (H2 : second_answer env config s' = second_answer env config s) by reflexivity.
  rewrite H1, H2.
  eexists _, _. split; [reflexivity|]. split; [reflexivity|]. cbn [healthy].
  split; [reflexivity|]. split; [reflexivity|]. split; [by apply heal_reads_healthy|].
  split; [|split].
  - intros n.
    pose proof (patch_service_count env n service_name config s) as Hs.
    pose proof (patch_service_count env n service_name config s') as Hs'.
    unfold probe in Hs, Hs'.
    rewrite (_check_service_health_run env service_name config s) in Hs.
    rewrite (_check_service_health_run env service_name config s') in Hs'.
    cbv zeta in Hs, Hs'. cbn [fst] in Hs, Hs'. rewrite H1, H2 in Hs'.
    rewrite (Hs _ eq_refl), (Hs' _ eq_refl). cbn [healthy].
    match goal with |- context [if ?b then _ else _] => destruct b end; lia.
  - intros ->. reflexivity.
  - destruct (first_answer env config s); [done|..];
      (destruct (second_answer env config s); done).
Qed.

Lemma healthy_depends_on_http_only_witness :
  exists h,
    probe (answering 200) "gamma" gamma_config due = Ok h /\ healthy h = true.
Proof.
  destruct (healthy_depends_on_http_only gamma_cfg (answering 200) "gamma" gamma_config
              due ∅ ∅ [] 0)
    as (h & h' & Hp & _ & Heq & _ & _ & _ & H200 & _).
  exists h. split; [exact Hp|]. rewrite Heq. apply H200. reflexivity.
Defined.

Lemma heal_healthy cfg env service_name h s :
  healthy h = true -> heal cfg env (service_name, h) s = (Ok tt, s).
Proof. intros H. unfold heal. by rewrite H. Qed.

(** C3, as the probe has it.  The result of a probe is a flag: [healthy]
    and [responding] are the same boolean and there is no further class.  A
    response on [/health] is healthy if and only if its status is 200: with
    any other status there, 404 included, the probe is not healthy and [/]
    is not requested.  When the request to [/health] raises, [/] is
    requested: status 200 or 404 there is healthy, any other status is not.
    When both requests raise the probe is not healthy, and the record is the
    same whatever the two failures were (refused, reset, timed out or
    other).  A healthy probe triggers no restart, neither in the auto-heal
    step nor in the patch step; for a critical service, a probe that is not
    healthy is followed by a restart in either step exactly when the service
    has [restart_on_failure]. *)
Theorem probe_classification (cfg : Config) (env env' : Env) (service_name : string)
    (config : ServiceConfig) (s : System) :
  exists h,
    probe env service_name config s = Ok h
    /\ responding h = healthy h
    /\ (forall status_code,
          first_answer env config s = Response status_code ->
          healthy h = bool_decide (status_code = 200%Z)
          /\ (_check_service_health env service_name config s).2 = after_calls 1 s)
    /\ (raised (first_answer env config s) = true ->
        forall status_code,
          second_answer env config s = Response status_code ->
          healthy h = bool_decide (status_code = 200%Z) || bool_decide (status_code = 404%Z))
    /\ (raised (first_answer env config s) = true ->
        raised (second_answer env config s) = true ->
        healthy h = false
        /\ (raised (first_answer env' config s) = true ->
            raised (second_answer env' config s) = true ->
            probe env' service_name config s = Ok h))
    /\ (healthy h = true ->
        (forall t, heal cfg env (service_name, h) t = (Ok tt, t))
        /\ (forall n,
              restart_count_of (patch_service env n (service_name, config) s).2 service_name
              = restart_count_of s service_name))
    /\ (healthy h = false ->
        critical config = true ->
        (forall t,
            dict_get service_name (services cfg) = Some config ->
            restart_count_of (heal cfg env (service_name, h) t).2 service_name
            = restart_count_of t service_name + (if restart_on_failure config then 1 else 0))
        /\ (forall n,
              restart_count_of (patch_service env n (service_name, config) s).2 service_name
              = restart_count_of s service_name
                + (if restart_on_failure config then 1 else 0))).
Proof.
  pose proof (patch_service_count env) as Hpatch.
  unfold probe in *.
  rewrite (_check_service_health_run env' service_name config s).
  specialize Hpatch with (service_name := service_name) (config := config) (s := s).
  rewrite (_check_service_health_run env service_name config s) in *.
  cbv zeta in *. cbn [fst snd] in *.
  eexists. split; [reflexivity|]. cbn [healthy responding].
  split; [reflexivity|]. split; [|split; [|split; [|split]]].
  - intros c Hc. rewrite Hc. by cbn [raised].
  - intros Hr c Hc. rewrite Hc. by destruct (first_answer env config s).
  - intros Hr1 Hr2. split.
    + destruct (first_answer env config s); [done|..];
        by destruct (second_answer env config s).
    + intros Hr1' Hr2'.
      destruct (first_answer env config s); [done|..];
        (destruct (second_answer env config s); [done|..]);
        (destruct (first_answer env' config s); [done|..]);
        by destruct (second_answer env' config s).
  - intros Hh. split; [intros t; by apply heal_healthy|].
    intros n. rewrite (Hpatch n _ eq_refl). cbn [healthy]. rewrite Hh.
    rewrite andb_false_r. simpl. lia.
  - intros Hh Hcrit. split.
    + intros t Hcfg. unfold restart_count_of at 1. rewrite heal_counts. cbn [healthy].
      rewrite Hh, Hcfg. cbn [negb andb].
      destruct (restart_on_failure config).
      * by rewrite lookup_insert_eq.
      * fold (restart_count_of t service_name). lia.
    + intros n. rewrite (Hpatch n _ eq_refl). cbn [healthy]. rewrite Hh, Hcrit.
      cbn [negb]. by rewrite !andb_true_r.
Qed.

Lemma probe_classification_witness :
  exists h,
    probe (answering_on_root 404) "gamma" gamma_config due = Ok h
    /\ healthy h = true
    /\ heal gamma_cfg (answering_on_root 404) ("gamma", h) due = (Ok tt, due).
Proof.
  destruct (probe_classification gamma_cfg (answering_on_root 404) quiet_env
              "gamma" gamma_config due) as (h & Hp & _ & _ & H404 & _ & Hheal & _).
  exists h. split; [exact Hp|].
  assert (Hh : healthy h = true).
  { rewrite (H404 eq_refl 404%Z eq_refl). reflexivity. }
  split; [exact Hh|]. apply (proj1 (Hheal Hh)).
Defined.

(** Scenario C of the specification.  A service without a health route
    answers 404 on [/health]: the probe is not healthy, and the health-check
    cycle and the patch cycle each restart the service, where the
    specification has Healthy and no restart.  And when [/health] times out
    while [/] answers 404, the probe returns the very record it returns for
    a 200 on [/health] and no restart follows, where the specification has
    TimedOut. *)
Lemma probe_misclassifies :
  (first_answer (answering 404) gamma_config due = Response 404%Z
   /\ ~ (exists h, probe (answering 404) "gamma" gamma_config due = Ok h
                   /\ healthy h = true)
   /\ restart_count_of (health_checks gamma_cfg (answering 404) due).2 "gamma" = 1
   /\ restart_count_of (auto_patch_system gamma_cfg (answering 404) due).2 "gamma" = 1)
  /\ (first_answer (answering_on_root 404) gamma_config due = RequestTimeout
      /\ probe (answering_on_root 404) "gamma" gamma_config due
         = probe (answering 200) "gamma" gamma_config due
      /\ (exists h, probe (answering_on_root 404) "gamma" gamma_config due = Ok h
                    /\ healthy h = true)
      /\ restart_count_of (health_checks gamma_cfg (answering_on_root 404) due).2 "gamma" = 0
      /\ restart_count_of (auto_patch_system gamma_cfg (answering_on_root 404) due).2 "gamma"
         = 0).
Proof.
  split.
  - split; [reflexivity|]. split; [|split; vm_compute; reflexivity].
    intros (h & Hp & Hh). vm_compute in Hp. injection Hp as <-. discriminate Hh.
  - split; [reflexivity|]. split; [vm_compute; reflexivity|]. split.
    + eexists. split; [vm_compute; reflexivity | reflexivity].
    + split; vm_compute; reflexivity.
Qed.

(** A response that is neither 200 nor 404 is not healthy: with [/health]
    timing out and [/] answering 500, the probe of "gamma" is not healthy and
    the health-check cycle restarts the service. *)
Lemma other_status_not_healthy :
  first_answer (answering_on_root 500) gamma_config due = RequestTimeout
  /\ second_answer (answering_on_root 500) gamma_config due = Response 500%Z
  /\ ~ (exists h, probe (answering_on_root 500) "gamma" gamma_config due = Ok h
                  /\ healthy h = true)
  /\ restart_count_of (health_checks gamma_cfg (answering_on_root 500) due).2 "gamma" = 1.
Proof.
  split; [reflexivity|]. split; [reflexivity|]. split; [|vm_compute; reflexivity].
  intros (h & Hp & Hh). vm_compute in Hp. injection Hp as <-. discriminate Hh.
Qed.

(** The alternate endpoint is only tried when the first request raises: a
    404 on [/health] itself is not healthy and is followed by a restart. *)
Lemma status_404_on_health_route :
  first_answer (answering 404) gamma_config due = Response 404%Z
  /\ probe (answering 404) "gamma" gamma_config due = Ok (down_report "Gamma" 8003 0)
  /\ restart_count_of (health_checks gamma_cfg (answering 404) due).2 "gamma" = 1.
Proof. repeat split; vm_compute; reflexivity. Qed.

(** * Starting *)

Lemma alive_spawned c n k pt lg b :
  alive (mkWorld (c + n) k (pt ++ [spawn c b]) lg) (length pt) = survives n b.
Proof.
  unfold alive. simpl. rewrite list_lookup_middle by done.
  unfold spawn, survives. simpl. destruct (lifetime b) as [d|]; simpl; [|done].
  apply bool_decide_ext. lia.
Qed.

(** [start_service], computed, by what [Popen] does. *)
Lemma start_service_run env service_name config s :
  let w := world s in
  let process := mkPopen (length (ptable w)) in
  match popen env service_name (calls w) with
  | Ok b =>
      (start_service env service_name config s).1 = Ok (survives 3 b)
      /\ processes (start_service env service_name config s).2
         = <[service_name := process]> (processes s)
      /\ clock (world (start_service env service_name config s).2) = clock w + 3
      /\ ptable (world (start_service env service_name config s).2)
         = ptable w ++ [spawn (clock w) b]
  | Raise (Exception msg) =>
      (start_service env service_name config s).1 = Ok false
      /\ processes (start_service env service_name config s).2 = processes s
      /\ clock (world (start_service env service_name config s).2) = clock w
      /\ ptable (world (start_service env service_name config s).2) = ptable w
  | Raise KeyboardInterrupt =>
      (start_service env service_name config s).1 = Raise KeyboardInterrupt
  end.
Proof.
  cbv zeta.
  unfold start_service, try_except_Exception, logger, subprocess_Popen, next_call,
    sleep, poll_is_None, modify, bind, get, ret, raise.
  simpl.
  destruct (popen env service_name (calls (world s))) as [b|[msg|]]; simpl; [|done|done].
  rewrite alive_spawned. by destruct (survives 3 b).
Qed.

(** C6, as [start_service] has it.  When the OS accepts the launch, the
    handle is stored, three time units pass, and the result is [True] if
    and only if the process is still running then; when the launch raises an
    [Exception], the result is [False], no time passes and nothing is
    stored.  No HTTP request is made: the outcome is the same whatever the
    service would answer. *)
Theorem start_service_waits (env : Env) (service_name : string) (config : ServiceConfig)
    (s : System) :
  (forall b,
     popen env service_name (calls (world s)) = Ok b ->
     (start_service env service_name config s).1 = Ok (survives 3 b)
     /\ processes (start_service env service_name config s).2 !! service_name
        = Some (mkPopen (length (ptable (world s))))
     /\ clock (world (start_service env service_name config s).2) = clock (world s) + 3)
  /\ (forall msg,
        popen env service_name (calls (world s)) = Raise (Exception msg) ->
        (start_service env service_name config s).1 = Ok false
        /\ processes (start_service env service_name config s).2 = processes s
        /\ clock (world (start_service env service_name config s).2) = clock (world s))
  /\ ((start_service env service_name config s).1 = Ok false ->
      (exists msg, popen env service_name (calls (world s)) = Raise (Exception msg))
      \/ (exists b, popen env service_name (calls (world s)) = Ok b /\ survives 3 b = false))
  /\ (forall http,
        start_service (with_http http env) service_name config s
        = start_service env service_name config s).
Proof.
  pose proof (start_service_run env service_name config s) as Hrun. cbv zeta in Hrun.
  split; [|split; [|split]].
  - intros b Hb. rewrite Hb in Hrun. destruct Hrun as (H1 & H2 & H3 & _).
    split; [done|]. split; [|done]. rewrite H2. apply lookup_insert_eq.
  - intros msg Hm. rewrite Hm in Hrun. by destruct Hrun as (H1 & H2 & H3 & _).
  - intros Hfalse.
    destruct (popen env service_name (calls (world s))) as [b|[msg|]].
    + right. exists b. split; [done|]. destruct Hrun as [H1 _]. congruence.
    + left. by exists msg.
    + congruence.
  - intros http. reflexivity.
Qed.

Lemma start_service_waits_witness :
  (start_service quiet_env "alpha" alpha_config fresh).1 = Ok true
  /\ processes (start_service quiet_env "alpha" alpha_config fresh).2 !! "alpha"
     = Some (mkPopen 0)
  /\ clock (world (start_service quiet_env "alpha" alpha_config fresh).2) = 3.
Proof.
  apply (proj1 (start_service_waits quiet_env "alpha" alpha_config fresh)
           (mkBehaviour None (Some 1))).
  reflexivity.
Defined.

(** The OS accepts the launch of "alpha" and creates the process, which
    exits one time unit later: [start_service] returns three time units
    after the launch, and returns [False]. *)
Lemma start_fails_after_launch :
  popen short_lived_env "alpha" (calls (world fresh)) = Ok (mkBehaviour (Some 1) (Some 1))
  /\ ptable (world (start_service short_lived_env "alpha" alpha_config fresh).2)
     = [mkProc (Some 1) (Some 1)]
  /\ clock (world (start_service short_lived_env "alpha" alpha_config fresh).2)
     = clock (world fresh) + 3
  /\ (start_service short_lived_env "alpha" alpha_config fresh).1 = Ok false.
Proof. repeat split; vm_compute; reflexivity. Qed.

(** * Handles and liveness *)

Lemma alive_os_unchanged s s' p : os_unchanged s s' -> alive (world s') p = alive (world s) p.
Proof. intros [Hc Hp]. unfold alive. by rewrite Hc, Hp. Qed.

Lemma os_unchanged_refl s : os_unchanged s s.
Proof. by split. Qed.

Lemma os_unchanged_trans s1 s2 s3 :
  os_unchanged s1 s2 -> os_unchanged s2 s3 -> os_unchanged s1 s3.
Proof. intros [? ?] [? ?]. split; congruence. Qed.

Lemma handles_unchanged_refl s : handles_unchanged s s.
Proof. split; [done | apply os_unchanged_refl]. Qed.

Lemma handles_unchanged_trans s1 s2 s3 :
  handles_unchanged s1 s2 -> handles_unchanged s2 s3 -> handles_unchanged s1 s3.
Proof.
  intros [? ?] [? ?]. split; [congruence | by eapply os_unchanged_trans].
Qed.

Lemma optimize_memory_handles env n : preserves handles_unchanged (optimize_memory env n).
Proof.
  apply optimize_memory_preserves with (R := handles_unchanged).
  - apply handles_unchanged_refl.
  - apply handles_unchanged_trans.
  - by intros e s.
  - by intros s.
Qed.

(** One step of the sweep, for a name that has a handle. *)
Lemma clean_up_run service_name process s :
  processes s !! service_name = Some process ->
  (clean_up service_name s).1 = Ok tt
  /\ os_unchanged s (clean_up service_name s).2
  /\ processes (clean_up service_name s).2
     = if alive (world s) (pid process) then processes s
       else delete service_name (processes s).
Proof.
  intros Hp. unfold clean_up, poll_is_None, logger, modify, bind, get, ret. simpl.
  rewrite Hp. simpl. by destruct (alive (world s) (pid process)).
Qed.

(** The sweep over a list of names that all have a handle: it does not
    raise, leaves the clock and the process table alone, and drops exactly
    the handles of these names whose process is gone. *)
Lemma clean_up_each_spec (names : list string) (s : System) :
  NoDup names ->
  (forall n, n ∈ names -> is_Some (processes s !! n)) ->
  (for_each names clean_up s).1 = Ok tt
  /\ os_unchanged s (for_each names clean_up s).2
  /\ (forall n, processes (for_each names clean_up s).2 !! n
                = if decide (n ∈ names) then if_alive (world s) (processes s !! n)
                  else processes s !! n).
Proof.
  revert s. induction names as [|x names IH]; intros s Hnd Hall.
  - split; [done|]. split; [apply os_unchanged_refl|].
    intros n. by rewrite decide_False by apply not_elem_of_nil.
  - apply NoDup_cons in Hnd as [Hx Hnd].
    destruct (Hall x) as [process Hp]; [left|].
    destruct (clean_up_run x process s Hp) as (H1 & H2 & H3).
    cbn [for_each]. unfold bind.
    destruct (clean_up x s) as [r s1]. simpl in H1, H2, H3. subst r.
    assert (Hrest : forall n, n ∈ names -> is_Some (processes s1 !! n)).
    { intros n Hn. assert (n <> x) by (intros ->; done).
      rewrite H3. destruct (alive (world s) (pid process));
        [|rewrite lookup_delete_ne by done]; apply Hall; by right. }
    destruct (IH s1 Hnd Hrest) as (IH1 & IH2 & IH3).
    split; [done|]. split; [by eapply os_unchanged_trans|].
    intros n. rewrite IH3.
    destruct (decide (n = x)) as [->|Hne].
    + rewrite decide_False by done. rewrite decide_True by left.
      rewrite H3, Hp. simpl.
      destruct (alive (world s) (pid process)); [done|]. apply lookup_delete_eq.
    + assert (Hn : processes s1 !! n = processes s !! n).
      { rewrite H3. destruct (alive (world s) (pid process)); [done|].
        by rewrite lookup_delete_ne. }
      destruct (decide (n ∈ names)) as [Hin|Hnin].
      * rewrite decide_True by by right. rewrite Hn. unfold if_alive.
        destruct (processes s !! n); [|done]. by rewrite (alive_os_unchanged s s1).
      * rewrite decide_False; [done|]. intros Hc. apply elem_of_cons in Hc as [?|?]; done.
Qed.

(** After the sweep every stored handle belongs to a process that is
    alive. *)
Lemma clean_up_zombies_spec s :
  (clean_up_zombies s).1 = Ok tt
  /\ os_unchanged s (clean_up_zombies s).2
  /\ (forall n, processes (clean_up_zombies s).2 !! n = if_alive (world s) (processes s !! n)).
Proof.
  unfold clean_up_zombies, bind at 1, get at 1.
  destruct (clean_up_each_spec (process_names s) s) as (H1 & H2 & H3).
  { apply NoDup_fst_map_to_list. }
  { intros n. by rewrite elem_of_process_names. }
  split; [done|]. split; [done|].
  intros n. rewrite H3. destruct (decide (n ∈ process_names s)) as [|Hn]; [done|].
  rewrite elem_of_process_names in Hn. destruct (processes s !! n); [|done].
  destruct Hn. by eexists.
Qed.

Lemma auto_patch_system_sweeps cfg env s :
  (auto_patch_system cfg env s).1 = Ok tt ->
  forall service_name process,
    processes (auto_patch_system cfg env s).2 !! service_name = Some process ->
    alive (world (auto_patch_system cfg env s).2) (pid process) = true.
Proof.
  assert (Heq : auto_patch_system cfg env s
                = match for_fold (services cfg) 0 (patch_service env) s with
                  | (Ok n, s1) =>
                      match clean_up_zombies s1 with
                      | (Ok _, s2) =>
                          match optimize_memory env n s2 with
                          | (Ok n', s3) => logger (LogPatchCycle n') s3
                          | (Raise e, s3) => (Raise e, s3)
                          end
                      | (Raise e, s2) => (Raise e, s2)
                      end
                  | (Raise e, s1) => (Raise e, s1)
                  end) by reflexivity.
  rewrite Heq. clear Heq.
  destruct (for_fold (services cfg) 0 (patch_service env) s) as [[n|e] s1]; [|done].
  destruct (clean_up_zombies_spec s1) as (H1 & H2 & H3).
  destruct (clean_up_zombies s1) as [r s2]. simpl in H1, H2, H3. subst r.
  pose proof (optimize_memory_handles env n s2) as [Hm1 Hm2].
  destruct (optimize_memory env n s2) as [[n'|e] s3]; [|done]. simpl in Hm1, Hm2.
  unfold logger, modify. cbn [fst snd]. intros _ service_name process.
  change (processes s3 !! service_name = Some process ->
          alive (mkWorld (clock (world s3)) (calls (world s3)) (ptable (world s3))
                         (log (world s3) ++ [LogPatchCycle n'])) (pid process) = true).
  rewrite Hm1, H3. intros Hp.
  assert (H : alive (world s3) (pid process) = alive (world s1) (pid process)).
  { rewrite (alive_os_unchanged s2 s3) by done. by apply alive_os_unchanged. }
  change (alive (world s3) (pid process) = true). rewrite H. clear H.
  unfold if_alive in Hp. destruct (processes s1 !! service_name) as [q|]; [|done].
  destruct (alive (world s1) (pid q)) eqn:Hq; [|done]. by injection Hp as <-.
Qed.

Lemma alive_fields w w' p :
  clock w = clock w' -> ptable w = ptable w' -> alive w p = alive w' p.
Proof. intros Hc Hp. unfold alive. by rewrite Hc, Hp. Qed.

(** C7, as the supervisor has it.  A probe reports a pid exactly when it
    reports [running], and exactly when a handle is stored whose process is
    alive at that moment.  A stored handle is known to belong to a live
    process at three points: when [start_service] has returned [True], and
    after the sweep of a patch cycle that ran to its end; and
    [stop_service] leaves no handle under the name.  Between these points
    nothing is promised about the process of a stored handle. *)
Theorem handles_and_liveness (cfg : Config) (env : Env) :
  (forall service_name config s,
      exists h,
        probe env service_name config s = Ok h
        /\ (h_running h = true <-> is_Some (h_pid h))
        /\ (forall p,
              h_pid h = Some p
              <-> exists process,
                    processes s !! service_name = Some process
                    /\ pid process = p /\ alive (world s) p = true))
  /\ (forall service_name config s,
        (start_service env service_name config s).1 = Ok true ->
        exists process,
          processes (start_service env service_name config s).2 !! service_name = Some process
          /\ alive (world (start_service env service_name config s).2) (pid process) = true)
  /\ (forall service_name s, processes (stop_service service_name s).2 !! service_name = None)
  /\ (forall s,
        (auto_patch_system cfg env s).1 = Ok tt ->
        forall service_name process,
          processes (auto_patch_system cfg env s).2 !! service_name = Some process ->
          alive (world (auto_patch_system cfg env s).2) (pid process) = true).
Proof.
  split; [|split; [|split]].
  - intros service_name config s. unfold probe.
    rewrite _check_service_health_run. cbv zeta. cbn [fst].
    eexists. split; [reflexivity|]. cbn [h_running h_pid]. split.
    + by rewrite bool_decide_eq_true.
    + intros p. destruct (processes s !! service_name) as [process|]; simpl.
      * destruct (alive (world s) (pid process)) eqn:Hup; split.
        -- intros H. injection H as <-. by exists process.
        -- intros (q & Hq & <- & _). by injection Hq as <-.
        -- done.
        -- intros (q & Hq & <- & Hup'). injection Hq as <-. congruence.
      * split; [done|]. by intros (q & Hq & _).
  - intros service_name config s Hok.
    pose proof (start_service_run env service_name config s) as Hrun. cbv zeta in Hrun.
    destruct (popen env service_name (calls (world s))) as [b|[msg|]].
    + destruct Hrun as (H1 & H2 & H3 & H4). eexists. split.
      * rewrite H2. apply lookup_insert_eq.
      * simpl. rewrite H1 in Hok. injection Hok as Hb.
        rewrite (alive_fields _ (mkWorld (clock (world s) + 3) 0
                   (ptable (world s) ++ [spawn (clock (world s)) b]) [])) by done.
        by rewrite alive_spawned.
    + destruct Hrun as [H1 _]. congruence.
    + congruence.
  - intros service_name s. destruct (stop_service_returns service_name s) as [_ ->].
    apply lookup_delete_eq.
  - apply auto_patch_system_sweeps.
Qed.

Lemma handles_and_liveness_witness :
  (auto_patch_system alpha_cfg quiet_env fresh).1 = Ok tt
  /\ processes (auto_patch_system alpha_cfg quiet_env fresh).2 !! "alpha" = Some (mkPopen 0)
  /\ alive (world (auto_patch_system alpha_cfg quiet_env fresh).2) (pid (mkPopen 0)) = true.
Proof.
  split; [reflexivity|]. split; [reflexivity|].
  apply (proj2 (proj2 (proj2 (handles_and_liveness alpha_cfg quiet_env))) fresh eq_refl
           "alpha" (mkPopen 0)).
  reflexivity.
Defined.

(** The process of "alpha" exits one time unit after its launch.
    [start_service] sees it gone and returns [False]; the handle stays in
    [processes] although the process is not alive, and the next probe
    reports no pid for it. *)
Lemma dead_handle_stays_stored :
  (start_service short_lived_env "alpha" alpha_config fresh).1 = Ok false
  /\ processes (start_service short_lived_env "alpha" alpha_config fresh).2 !! "alpha"
     = Some (mkPopen 0)
  /\ probe short_lived_env "alpha" alpha_config
           (start_service short_lived_env "alpha" alpha_config fresh).2
     = Ok (down_report "Alpha" 8001 0)
  /\ ~ (is_Some (processes (start_service short_lived_env "alpha" alpha_config fresh).2
                 !! "alpha")
        <-> alive (world (start_service short_lived_env "alpha" alpha_config fresh).2) 0
            = true).
Proof.
  split; [reflexivity|]. split; [reflexivity|]. split; [reflexivity|].
  intros [H _]. assert (Hs : is_Some (Some (mkPopen 0))) by by eexists.
  specialize (H Hs). vm_compute in H. discriminate H.
Qed.

(** * The loop *)

Lemma signalled_refl s : signalled s s.
Proof. exists []. split; [by rewrite app_nil_r | by left]. Qed.

Lemma signalled_trans s1 s2 s3 : signalled s1 s2 -> signalled s2 s3 -> signalled s1 s3.
Proof.
  intros (l1 & Hl1 & H1) (l2 & Hl2 & H2). exists (l1 ++ l2). split.
  - by rewrite Hl2, Hl1, app_assoc.
  - rewrite !elem_of_app. destruct H1 as [H1|[H1|H1]], H2 as [H2|[H2|H2]];
      first [left; congruence | tauto].
Qed.

Lemma signalled_quiet s s' :
  log (world s') = log (world s) -> running s' = running s -> signalled s s'.
Proof. intros Hl Hr. exists []. split; [by rewrite app_nil_r | by left]. Qed.

Lemma logger_signalled e : preserves signalled (logger e).
Proof. intros s. exists [e]. split; [done | by left]. Qed.

(** The body of the [try] logs, and leaves [running] alone. *)
Lemma loop_body_signalled cfg env : preserves signalled (loop_body cfg env).
Proof.
  apply loop_body_preserves with (R := signalled).
  - apply signalled_refl.
  - apply signalled_trans.
  - apply logger_signalled.
  - intros n s. by apply signalled_quiet.
  - intros f s. by apply signalled_quiet.
  - intros p s. by apply signalled_quiet.
  - intros p s. by apply signalled_quiet.
  - intros s. by apply signalled_quiet.
  - intros n s. apply signalled_quiet;
      unfold subprocess_Popen, bind, next_call; simpl; by destruct (popen env _ _).
  - intros n s. by apply signalled_quiet.
  - intros f s. apply signalled_quiet; unfold modify; simpl; by destruct (f s) as [[? ?] ?].
Qed.

Lemma loop_body_running cfg env : preserves running_unchanged (loop_body cfg env).
Proof.
  apply loop_body_preserves with (R := running_unchanged);
    try (intros; first [assumption | reflexivity | intros ?; reflexivity]).
  - unfold running_unchanged. congruence.
  - intros n s. unfold running_unchanged, subprocess_Popen, bind, next_call. simpl.
    by destruct (popen env _ _).
  - intros f s. unfold running_unchanged, modify. simpl. by destruct (f s) as [[? ?] ?].
Qed.

(** One pass through the loop never raises. *)
Lemma loop_iteration_returns cfg env s :
  (loop_iteration cfg env s).1 = Ok tt /\ signalled s (loop_iteration cfg env s).2.
Proof.
  unfold loop_iteration. pose proof (loop_body_signalled cfg env s) as Hb.
  destruct (loop_body cfg env s) as [[[]|[msg|]] s1]; simpl in Hb.
  - done.
  - split; [done|]. eapply signalled_trans; [exact Hb|].
    exists [LogLoopError (Exception msg)]. split; [done | by left].
  - split; [done|]. eapply signalled_trans; [exact Hb|].
    exists [LogKeyboardInterrupt]. split; [done|]. right. right. left.
Qed.

Lemma deliver_signal_returns env s :
  (deliver_signal env s).1 = Ok tt /\ signalled s (deliver_signal env s).2.
Proof.
  unfold deliver_signal, bind, get. simpl.
  destruct (shutdown_at env) as [t|]; [|split; [done | apply signalled_refl]].
  destruct (running s && bool_decide (t <= clock (world s)));
    [|split; [done | apply signalled_refl]].
  split; [done|]. exists [LogShutdownSignal]. split; [done|]. right. left. left.
Qed.

(** One turn of the [while]: signals are seen, then the condition is
    read. *)
Lemma while_running_S cfg env fuel s :
  while_running cfg env (S fuel) s
  = if running (deliver_signal env s).2
    then while_running cfg env fuel (loop_iteration cfg env (deliver_signal env s).2).2
    else (Ok Exited, (deliver_signal env s).2).
Proof.
  cbn [while_running]. unfold bind, get.
  destruct (deliver_signal_returns env s) as [Hd1 _].
  destruct (deliver_signal env s) as [r s0]. simpl in Hd1. subst r. cbn [fst snd].
  destruct (running s0); [|done].
  destruct (loop_iteration_returns cfg env s0) as [Hi1 _].
  destruct (loop_iteration cfg env s0) as [r s1]. simpl in Hi1. by subst r.
Qed.

(** The loop returns, and when it has ended, [running] is false: it was
    false from the start, or the log tells of a signal or a keyboard
    interrupt. *)
Lemma while_running_ends cfg env fuel s :
  ((while_running cfg env fuel s).1 = Ok StillLooping
   \/ (while_running cfg env fuel s).1 = Ok Exited)
  /\ ((while_running cfg env fuel s).1 = Ok Exited ->
      running (while_running cfg env fuel s).2 = false
      /\ signalled s (while_running cfg env fuel s).2).
Proof.
  revert s. induction fuel as [|fuel IH]; intros s.
  - split; [by left | done].
  - rewrite while_running_S.
    destruct (deliver_signal_returns env s) as [_ Hd2].
    set (s0 := (deliver_signal env s).2) in *.
    destruct (running s0) eqn:Hrun.
    + destruct (loop_iteration_returns cfg env s0) as [_ Hi2].
      set (s1 := (loop_iteration cfg env s0).2) in *.
      destruct (IH s1) as [IH1 IH2]. split; [exact IH1|].
      intros Hex. destruct (IH2 Hex) as [Hf Hs]. split; [exact Hf|].
      eapply signalled_trans; [exact Hd2|]. eapply signalled_trans; [exact Hi2 | exact Hs].
    + split; [by right|]. intros _. by split.
Qed.

Lemma signalled_cause s s' :
  signalled s s' -> running s' = false ->
  running s = false
  \/ exists l, log (world s') = log (world s) ++ l
               /\ (LogShutdownSignal ∈ l \/ LogKeyboardInterrupt ∈ l).
Proof.
  intros (l & Hl & [H|H]) Hf; [left; congruence|]. right. by exists l.
Qed.

(** ** What can leave [run_persistent_loop] *)

Lemma no_Exception_ret {A : Type} (a : A) : no_Exception (ret a).
Proof. by intros s msg. Qed.

Lemma no_Exception_modify f : no_Exception (modify f).
Proof. by intros s msg. Qed.

Lemma no_Exception_bind {A B : Type} (m : M A) (k : A -> M B) :
  no_Exception m -> (forall a, no_Exception (k a)) -> no_Exception (bind m k).
Proof.
  intros Hm Hk s msg. unfold bind. specialize (Hm s).
  destruct (m s) as [[a|e] s1]; simpl in *; [apply Hk|].
  intros H. injection H as ->. by apply (Hm msg).
Qed.

Lemma no_Exception_try {A : Type} (body : M A) (handler : exn -> M A) :
  (forall e, no_Exception (handler e)) -> no_Exception (try_except_Exception body handler).
Proof.
  intros Hh s msg. unfold try_except_Exception.
  destruct (body s) as [[a|[m|]] s1]; simpl; [done | apply Hh | done].
Qed.

Lemma no_Exception_for_each {A : Type} (l : list A) (body : A -> M unit) :
  (forall x, no_Exception (body x)) -> no_Exception (for_each l body).
Proof.
  intros Hb. induction l as [|x l IH]; simpl.
  - apply no_Exception_ret.
  - apply no_Exception_bind; [apply Hb | intros _; exact IH].
Qed.

Lemma no_Exception_for_each_in {A : Type} (l : list A) (body : A -> M unit) :
  (forall x, x ∈ l -> no_Exception (body x)) -> no_Exception (for_each l body).
Proof.
  intros Hb. induction l as [|x l IH]; simpl.
  - apply no_Exception_ret.
  - apply no_Exception_bind; [apply Hb; left | intros _; apply IH].
    intros y Hy. apply Hb. by right.
Qed.

Lemma start_service_no_Exception env service_name config :
  no_Exception (start_service env service_name config).
Proof.
  apply no_Exception_try. intros e.
  apply no_Exception_bind; [apply no_Exception_modify | intros _; apply no_Exception_ret].
Qed.

Lemma run_persistent_loop_no_Exception cfg env fuel :
  no_Exception (run_persistent_loop cfg env fuel).
Proof.
  unfold run_persistent_loop.
  apply no_Exception_bind; [|intros _].
  { apply no_Exception_try. intros e.
    apply no_Exception_bind; [apply no_Exception_modify | intros _; apply no_Exception_ret]. }
  apply no_Exception_bind; [|intros _].
  { apply no_Exception_for_each. intros n.
    destruct (dict_get n (services cfg)); [|apply no_Exception_ret].
    apply no_Exception_bind; [apply start_service_no_Exception|].
    intros _. apply no_Exception_modify. }
  apply no_Exception_bind; [apply no_Exception_modify | intros _].
  apply no_Exception_bind; [apply no_Exception_modify | intros _].
  apply no_Exception_bind.
  { intros s msg. destruct (while_running_ends cfg env fuel s) as [[H|H] _]; by rewrite H. }
  intros [|]; [|apply no_Exception_ret].
  apply no_Exception_bind; [|intros _; apply no_Exception_ret].
  intros s msg. destruct (graceful_shutdown_spec s) as [H _]. by rewrite H.
Qed.

(** [main] exits with status 1 exactly when the construction of the
    supervisor raises an [Exception]. *)
Lemma main_exit_status cfg env fuel s :
  (main cfg env fuel s).1 = SysExit 1 <-> exists msg, makedirs env = Raise (Exception msg).
Proof.
  unfold main, bind at 1, __init__, bind at 1, modify at 1.
  set (s0 := constructed s).
  destruct (makedirs env) as [[]|[msg|]]; unfold ret, raise.
  - pose proof (run_persistent_loop_no_Exception cfg env fuel s0) as Hno.
    destruct (run_persistent_loop cfg env fuel s0) as [[[|]|[msg|]] s1]; simpl in *.
    + split; [done | by intros [? ?]].
    + split; [done | by intros [? ?]].
    + by destruct (Hno msg).
    + split; [done | by intros [? ?]].
  - simpl. split; [by eexists | done].
  - simpl. split; [done | by intros [? ?]].
Qed.

(** C8. An [Exception] raised by the work of one pass through the loop is
    caught there: it is logged, the supervisor sleeps and [running] is as it
    was, so the loop goes on with the next pass.  Nothing ever propagates out
    of the loop; it ends only when [running] is found false, which the log
    then attributes to a shutdown signal or a keyboard interrupt (unless
    [running] was false from the start).  [main] exits with status 1 exactly
    when the construction of the supervisor, before the loop, fails. *)
Theorem loop_survives_errors (cfg : Config) (env : Env) :
  (forall s msg s1,
      loop_body cfg env s = (Raise (Exception msg), s1) ->
      loop_iteration cfg env s
      = (Ok tt, (sleep 5 (logger (LogLoopError (Exception msg)) s1).2).2)
      /\ running (loop_iteration cfg env s).2 = running s)
  /\ (forall s, (loop_iteration cfg env s).1 = Ok tt)
  /\ (forall fuel s,
        running (deliver_signal env s).2 = true ->
        while_running cfg env (S fuel) s
        = while_running cfg env fuel (loop_iteration cfg env (deliver_signal env s).2).2)
  /\ (forall fuel s,
        (while_running cfg env fuel s).1 = Ok StillLooping
        \/ (while_running cfg env fuel s).1 = Ok Exited)
  /\ (forall fuel s,
        (while_running cfg env fuel s).1 = Ok Exited ->
        running (while_running cfg env fuel s).2 = false
        /\ (running s = false
            \/ exists l,
                 log (world (while_running cfg env fuel s).2) = log (world s) ++ l
                 /\ (LogShutdownSignal ∈ l \/ LogKeyboardInterrupt ∈ l)))
  /\ (forall fuel s,
        (main cfg env fuel s).1 = SysExit 1
        <-> exists msg, makedirs env = Raise (Exception msg)).
Proof.
  split; [|split; [|split; [|split; [|split]]]].
  - intros s msg s1 Hbody.
    pose proof (loop_body_running cfg env s) as Hrun.
    unfold loop_iteration. rewrite Hbody in *. simpl in Hrun. split; [done|]. exact Hrun.
  - intros s. apply loop_iteration_returns.
  - intros fuel s Hrun. by rewrite while_running_S, Hrun.
  - intros fuel s. apply while_running_ends.
  - intros fuel s Hex. destruct (while_running_ends cfg env fuel s) as [_ H].
    destruct (H Hex) as [Hf Hs]. split; [exact Hf|]. by apply signalled_cause.
  - apply main_exit_status.
Qed.

Lemma loop_survives_errors_witness :
  loop_iteration alpha_cfg failing_psutil_env due
  = (Ok tt,
     (sleep 5 (logger (LogLoopError (Exception "psutil"))
                      (loop_body alpha_cfg failing_psutil_env due).2).2).2)
  /\ running (loop_iteration alpha_cfg failing_psutil_env due).2 = running due.
Proof.
  apply (proj1 (loop_survives_errors alpha_cfg failing_psutil_env) due "psutil"
           (loop_body alpha_cfg failing_psutil_env due).2).
  vm_compute. reflexivity.
Defined.

(** * No launched process is lost *)

Lemma keeps_tracked_refl s : keeps_tracked s s.
Proof. by intros H. Qed.

Lemma keeps_tracked_trans s1 s2 s3 :
  keeps_tracked s1 s2 -> keeps_tracked s2 s3 -> keeps_tracked s1 s3.
Proof. intros H1 H2 H. by apply H2, H1. Qed.

Lemma handles_kept_refl s : handles_kept s s.
Proof. split; [done | apply no_revival_refl]. Qed.

Lemma handles_kept_trans s1 s2 s3 : handles_kept s1 s2 -> handles_kept s2 s3 -> handles_kept s1 s3.
Proof. intros [? ?] [? ?]. split; [congruence | by eapply no_revival_trans]. Qed.

Lemma handles_kept_tracked s s' : handles_kept s s' -> keeps_tracked s s'.
Proof.
  intros [Hp Hrev] Htr p Hup. destruct (Htr p (Hrev p Hup)) as [n Hn]. exists n. by rewrite Hp.
Qed.

Lemma tracked_fields s s' :
  processes s' = processes s -> clock (world s') = clock (world s) ->
  ptable (world s') = ptable (world s) -> keeps_tracked s s'.
Proof.
  intros Hp Hc Ht. apply handles_kept_tracked. split; [done|].
  intros p. by rewrite (alive_fields (world s') (world s)).
Qed.

(** Discharge the premises of a lemma of [Methods] for [handles_kept]:
    logging, sleeping and external calls. *)
Ltac kept_premises :=
  first [ apply handles_kept_refl
        | apply handles_kept_trans
        | intros ? ?; split; [reflexivity | apply logger_no_revival]
        | intros ? ?; split; [reflexivity | apply sleep_no_revival]
        | intros ?; split; [reflexivity | intros ?; exact id] ].

Lemma _check_service_health_tracked env service_name config :
  preserves keeps_tracked (_check_service_health env service_name config).
Proof.
  intros s. apply handles_kept_tracked.
  apply _check_service_health_preserves with (R := handles_kept); kept_premises.
Qed.

Lemma check_system_health_tracked cfg env : preserves keeps_tracked (check_system_health cfg env).
Proof.
  intros s. apply handles_kept_tracked.
  apply check_system_health_preserves with (R := handles_kept); kept_premises.
Qed.

Lemma optimize_memory_tracked env n : preserves keeps_tracked (optimize_memory env n).
Proof.
  intros s. apply handles_kept_tracked.
  apply optimize_memory_preserves with (R := handles_kept); kept_premises.
Qed.

Lemma train_agents_tracked env : preserves keeps_tracked (train_agents env).
Proof.
  intros s. apply handles_kept_tracked.
  apply train_agents_preserves with (R := handles_kept); kept_premises.
Qed.

Lemma monitor_and_report_tracked cfg env : preserves keeps_tracked (monitor_and_report cfg env).
Proof.
  intros s. apply handles_kept_tracked.
  apply monitor_and_report_preserves with (R := handles_kept); kept_premises.
Qed.

Lemma logger_tracked e : preserves keeps_tracked (logger e).
Proof. intros s. by apply tracked_fields. Qed.

Lemma sleep_tracked n : preserves keeps_tracked (sleep n).
Proof. intros s. apply handles_kept_tracked. split; [done | apply sleep_no_revival]. Qed.

(** [stop_service] drops only the handle of a process that is gone. *)
Lemma stop_service_tracked service_name : preserves keeps_tracked (stop_service service_name).
Proof.
  intros s Htr p Hup.
  destruct (stop_service_returns service_name s) as [_ Hdel].
  destruct (Htr p (stop_service_no_revival service_name s p Hup)) as [n Hn].
  exists n. rewrite Hdel. rewrite lookup_delete_ne; [done|].
  intros <-. pose proof (stop_service_kills _ _ _ Hn) as Hdead. simpl in Hdead. congruence.
Qed.

(** The sweep drops only handles of processes that are gone. *)
Lemma clean_up_zombies_tracked : preserves keeps_tracked clean_up_zombies.
Proof.
  intros s Htr p Hup. destruct (clean_up_zombies_spec s) as (_ & Hos & Hp).
  rewrite (alive_os_unchanged _ _ _ Hos) in Hup.
  destruct (Htr p Hup) as [n Hn]. exists n. rewrite Hp, Hn. simpl. by rewrite Hup.
Qed.

(** The state [start_service] leaves, by what [Popen] does. *)
Lemma start_service_state env service_name config s :
  let s' := (start_service env service_name config s).2 in
  match popen env service_name (calls (world s)) with
  | Ok b =>
      processes s' = <[service_name := mkPopen (length (ptable (world s)))]> (processes s)
      /\ clock (world s') = clock (world s) + 3
      /\ ptable (world s') = ptable (world s) ++ [spawn (clock (world s)) b]
  | Raise _ =>
      processes s' = processes s
      /\ clock (world s') = clock (world s)
      /\ ptable (world s') = ptable (world s)
  end.
Proof.
  cbv zeta.
  unfold start_service, try_except_Exception, logger, subprocess_Popen, next_call,
    sleep, poll_is_None, modify, bind, get, ret, raise.
  simpl.
  destruct (popen env service_name (calls (world s))) as [b|[msg|]]; simpl; [|done|done].
  rewrite alive_spawned. by destruct (survives 3 b).
Qed.

(** Starting a service under a name that has no handle loses no process. *)
Lemma start_service_tracked env service_name config s :
  processes s !! service_name = None ->
  keeps_tracked s (start_service env service_name config s).2.
Proof.
  intros Hnone Htr.
  pose proof (start_service_state env service_name config s) as Hst. cbv zeta in Hst.
  destruct (popen env service_name (calls (world s))) as [b|e].
  - destruct Hst as (Hp & Hc & Ht). intros p Hup. unfold alive in Hup. rewrite Ht, Hc in Hup.
    destruct (decide (p < length (ptable (world s)))) as [Hlt|Hge].
    + rewrite lookup_app_l in Hup by done.
      assert (Halive : alive (world s) p = true).
      { unfold alive. destruct (ptable (world s) !! p); [|done].
        eapply before_mono; [|exact Hup]. lia. }
      destruct (Htr p Halive) as [n Hn]. exists n. rewrite Hp.
      rewrite lookup_insert_ne; [done|]. intros <-. congruence.
    + destruct (decide (p = length (ptable (world s)))) as [->|Hne].
      * exists service_name. rewrite Hp. apply lookup_insert_eq.
      * rewrite lookup_ge_None_2 in Hup; [done|]. rewrite length_app. simpl. lia.
  - destruct Hst as (Hp & Hc & Ht). by apply (tracked_fields s).
Qed.

Lemma start_service_other env service_name config s other :
  other <> service_name ->
  processes (start_service env service_name config s).2 !! other = processes s !! other.
Proof.
  intros Hne. pose proof (start_service_state env service_name config s) as Hst.
  cbv zeta in Hst. destruct (popen env service_name (calls (world s))) as [b|e];
    destruct Hst as (-> & _); [by rewrite lookup_insert_ne | done].
Qed.

(** [restart_service], step by step. *)
Lemma restart_service_run env service_name config s :
  restart_service env service_name config s
  = let s0 := (logger (LogRestarting service_name) s).2 in
    let s1 := (stop_service service_name s0).2 in
    let s2 := (sleep 2 (set_restart_counts
                          (insert service_name (restart_count_of s1 service_name + 1)) s1)).2 in
    match start_service env service_name config s2 with
    | (Ok success, s3) =>
        (Ok success,
         (logger (if success then LogRestarted service_name (restart_count_of s3 service_name)
                  else LogRestartFailed service_name) s3).2)
    | (Raise e, s3) => (Raise e, s3)
    end.
Proof.
  cbv beta iota zeta delta [restart_service bind get modify logger sleep ret fst snd].
  destruct (stop_service_returns service_name
              (set_world (fun w => mkWorld (clock w) (calls w) (ptable w)
                                           (log w ++ [LogRestarting service_name])) s))
    as [Hok _].
  destruct (stop_service service_name _) as [r s1]. simpl in Hok. subst r.
  destruct (start_service env service_name config _) as [[[|]|e] s3]; reflexivity.
Qed.

Lemma restart_service_tracked env service_name config :
  preserves keeps_tracked (restart_service env service_name config).
Proof.
  intros s Htr. rewrite restart_service_run. cbv zeta.
  set (s0 := (logger (LogRestarting service_name) s).2).
  set (s1 := (stop_service service_name s0).2).
  set (s2 := (sleep 2 _).2).
  assert (Htr1 : tracked s1) by by apply stop_service_tracked, logger_tracked.
  assert (Hnone : processes s2 !! service_name = None).
  { subst s2 s1. simpl. destruct (stop_service_returns service_name s0) as [_ ->].
    apply lookup_delete_eq. }
  assert (Htr2 : tracked s2).
  { subst s2. apply sleep_tracked. revert Htr1. by apply tracked_fields. }
  pose proof (start_service_tracked env service_name config s2 Hnone Htr2) as Htr3.
  destruct (start_service env service_name config s2) as [[success|e] s3]; simpl in *.
  - revert Htr3. by apply tracked_fields.
  - exact Htr3.
Qed.

Lemma patch_service_tracked env n item : preserves keeps_tracked (patch_service env n item).
Proof.
  destruct item as [service_name config]. unfold patch_service.
  repeat first
    [ apply _check_service_health_tracked
    | apply restart_service_tracked
    | apply logger_tracked
    | apply preserves_ret; apply keeps_tracked_refl
    | match goal with |- preserves _ (if ?b then _ else _) => destruct b end
    | apply preserves_bind; [apply keeps_tracked_trans | | intros ?] ].
Qed.

Lemma heal_tracked cfg env item : preserves keeps_tracked (heal cfg env item).
Proof.
  destruct item as [service_name h]. unfold heal.
  repeat first
    [ apply restart_service_tracked
    | apply logger_tracked
    | apply preserves_ret; apply keeps_tracked_refl
    | apply preserves_raise; apply keeps_tracked_refl
    | match goal with |- preserves _ (match ?b with _ => _ end) => destruct b end
    | apply preserves_bind; [apply keeps_tracked_trans | | intros ?] ].
Qed.

Lemma counters_tracked (h a m : System -> nat) :
  preserves keeps_tracked (modify (fun s => set_counters (h s) (a s) (m s) s)).
Proof. intros s. by apply tracked_fields. Qed.

Lemma auto_patch_system_tracked cfg env : preserves keeps_tracked (auto_patch_system cfg env).
Proof.
  unfold auto_patch_system.
  apply preserves_bind; [apply keeps_tracked_trans | | intros n].
  { apply preserves_for_fold; [apply keeps_tracked_refl | apply keeps_tracked_trans|].
    intros. apply patch_service_tracked. }
  apply preserves_bind; [apply keeps_tracked_trans | apply clean_up_zombies_tracked | intros _].
  apply preserves_bind; [apply keeps_tracked_trans | apply optimize_memory_tracked | intros ?].
  apply logger_tracked.
Qed.

Lemma health_checks_tracked cfg env : preserves keeps_tracked (health_checks cfg env).
Proof.
  unfold health_checks.
  apply preserves_bind; [apply keeps_tracked_trans | apply preserves_get, keeps_tracked_refl|].
  intros s0. destruct (bool_decide _); [|apply preserves_ret, keeps_tracked_refl].
  apply preserves_bind; [apply keeps_tracked_trans | apply check_system_health_tracked|].
  intros health.
  apply preserves_bind; [apply keeps_tracked_trans | | intros _].
  { apply preserves_for_each; [apply keeps_tracked_refl | apply keeps_tracked_trans|].
    intros. apply heal_tracked. }
  apply (counters_tracked (fun _ => 0) auto_patch_counter monitor_counter).
Qed.

Lemma loop_body_tracked cfg env : preserves keeps_tracked (loop_body cfg env).
Proof.
  unfold loop_body.
  apply preserves_bind; [apply keeps_tracked_trans | apply health_checks_tracked | intros _].
  apply preserves_bind; [apply keeps_tracked_trans | | intros _].
  { apply preserves_bind; [apply keeps_tracked_trans | apply preserves_get, keeps_tracked_refl|].
    intros s0. destruct (bool_decide _); [|apply preserves_ret, keeps_tracked_refl].
    apply preserves_bind; [apply keeps_tracked_trans | apply auto_patch_system_tracked|].
    intros _. apply (counters_tracked health_check_counter (fun _ => 0) monitor_counter). }
  apply preserves_bind; [apply keeps_tracked_trans | | intros _].
  { apply preserves_bind; [apply keeps_tracked_trans | apply preserves_get, keeps_tracked_refl|].
    intros s0. destruct (bool_decide _); [|apply preserves_ret, keeps_tracked_refl].
    apply preserves_bind; [apply keeps_tracked_trans | apply monitor_and_report_tracked|].
    intros _. apply (counters_tracked health_check_counter auto_patch_counter (fun _ => 0)). }
  apply preserves_bind; [apply keeps_tracked_trans | apply sleep_tracked | intros _].
  apply (counters_tracked (fun s => health_check_counter s + 1)
           (fun s => auto_patch_counter s + 1) (fun s => monitor_counter s + 1)).
Qed.

Lemma loop_iteration_tracked cfg env : preserves keeps_tracked (loop_iteration cfg env).
Proof.
  intros s Htr. unfold loop_iteration.
  pose proof (loop_body_tracked cfg env s Htr) as Hb.
  destruct (loop_body cfg env s) as [[[]|[msg|]] s1]; simpl in Hb; [done| |].
  - apply sleep_tracked. by apply logger_tracked.
  - revert Hb. by apply tracked_fields.
Qed.

Lemma deliver_signal_tracked env : preserves keeps_tracked (deliver_signal env).
Proof.
  intros s. unfold deliver_signal, bind, get. simpl.
  destruct (shutdown_at env) as [t|]; [|apply keeps_tracked_refl].
  destruct (running s && bool_decide (t <= clock (world s))); [|apply keeps_tracked_refl].
  by apply tracked_fields.
Qed.

Lemma while_running_tracked cfg env fuel : preserves keeps_tracked (while_running cfg env fuel).
Proof.
  induction fuel as [|fuel IH]; intros s Htr; [done|].
  rewrite while_running_S.
  pose proof (deliver_signal_tracked env s Htr) as Hd.
  destruct (running (deliver_signal env s).2); [|done].
  by apply IH, loop_iteration_tracked.
Qed.

Lemma graceful_shutdown_tracked : preserves keeps_tracked graceful_shutdown.
Proof.
  unfold graceful_shutdown, stop_each.
  apply preserves_bind; [apply keeps_tracked_trans | apply logger_tracked | intros _].
  apply preserves_bind; [apply keeps_tracked_trans | apply preserves_get, keeps_tracked_refl|].
  intros s0.
  apply preserves_bind; [apply keeps_tracked_trans | | intros _; apply logger_tracked].
  apply preserves_for_each; [apply keeps_tracked_refl | apply keeps_tracked_trans|].
  intros n.
  apply preserves_bind; [apply keeps_tracked_trans | apply stop_service_tracked | intros _].
  apply preserves_ret, keeps_tracked_refl.
Qed.

(** The start-up sequence: every name is started once, under a name that
    has no handle yet. *)
Lemma start_each_tracked cfg env (names : list string) (s : System) :
  NoDup names ->
  (forall n, n ∈ names -> processes s !! n = None) ->
  keeps_tracked s
    (for_each names (fun service_name =>
       match dict_get service_name (services cfg) with
       | Some config => start_service env service_name config ;;; sleep 3
       | None => ret tt
       end) s).2.
Proof.
  revert s. induction names as [|x names IH]; intros s Hnd Hnone Htr; [done|].
  apply NoDup_cons in Hnd as [Hx Hnd].
  cbn [for_each]. unfold bind at 1.
  destruct (dict_get x (services cfg)) as [config|].
  - unfold bind at 1.
    pose proof (start_service_tracked env x config s (Hnone x ltac:(left)) Htr) as Htr1.
    assert (Hother : forall n, n ∈ names ->
              processes (start_service env x config s).2 !! n = None).
    { intros n Hn. rewrite start_service_other; [apply Hnone; by right|]. by intros ->. }
    destruct (start_service env x config s) as [[b|e] s1]; simpl in *; [|done].
    apply IH; [done | exact Hother | by apply sleep_tracked].
  - simpl. apply IH; [done | | done]. intros n Hn. apply Hnone. by right.
Qed.

Lemma service_order_NoDup : NoDup service_order.
Proof. apply (bool_decide_unpack (NoDup service_order)). reflexivity. Qed.

Lemma run_persistent_loop_run cfg env fuel s :
  run_persistent_loop cfg env fuel s
  = match train_agents env s with
    | (Ok _, s1) =>
        match start_all_services cfg env s1 with
        | (Ok _, s2) =>
            match while_running cfg env fuel (set_counters 0 0 0 (sleep 10 s2).2) with
            | (Ok Exited, s4) =>
                match graceful_shutdown s4 with
                | (Ok _, s5) => (Ok Exited, s5)
                | (Raise e, s5) => (Raise e, s5)
                end
            | (Ok StillLooping, s4) => (Ok StillLooping, s4)
            | (Raise e, s4) => (Raise e, s4)
            end
        | (Raise e, s2) => (Raise e, s2)
        end
    | (Raise e, s1) => (Raise e, s1)
    end.
Proof.
  unfold run_persistent_loop, bind.
  destruct (train_agents env s) as [[b|e] s1]; [|done].
  destruct (start_all_services cfg env s1) as [[[]|e] s2]; [|done]. simpl.
  destruct (while_running cfg env fuel _) as [[[|]|e] s4]; [|done|done].
  by destruct (graceful_shutdown s4) as [[[]|e] s5].
Qed.

(** When [run_persistent_loop] returns, started from a supervisor without
    handles that has lost no process, no process is alive. *)
Lemma run_persistent_loop_leaves_nothing cfg env fuel s :
  processes s = ∅ -> tracked s ->
  (run_persistent_loop cfg env fuel s).1 = Ok Exited ->
  forall p, alive (world (run_persistent_loop cfg env fuel s).2) p = false.
Proof.
  intros Hempty Htr. rewrite run_persistent_loop_run.
  pose proof (train_agents_tracked env s Htr) as Htr1.
  assert (Hempty1 : processes (train_agents env s).2 = ∅).
  { rewrite <- Hempty.
    apply (train_agents_preserves env (fun a b => processes b = processes a)); try done.
    intros; congruence. }
  destruct (train_agents env s) as [[b|e] s1]; [|done]. simpl in Htr1, Hempty1.
  assert (Htr2 : tracked (start_all_services cfg env s1).2).
  { apply start_each_tracked; [apply service_order_NoDup | | done].
    intros n _. by rewrite Hempty1. }
  destruct (start_all_services cfg env s1) as [[[]|e] s2]; [|done]. simpl in Htr2.
  set (s3 := set_counters 0 0 0 (sleep 10 s2).2).
  assert (Htr3 : tracked s3).
  { subst s3. apply (tracked_fields (sleep 10 s2).2); [done..|]. by apply sleep_tracked. }
  pose proof (while_running_tracked cfg env fuel s3 Htr3) as Htr4.
  destruct (while_running cfg env fuel s3) as [[[|]|e] s4]; [|done|done]. simpl in Htr4.
  pose proof (graceful_shutdown_tracked s4 Htr4) as Htr5.
  destruct (graceful_shutdown_spec s4) as (Hok & Hnone & _).
  destruct (graceful_shutdown s4) as [r s5]. simpl in *. subst r.
  intros _ p. apply not_true_is_false. intros Hup.
  destruct (Htr5 p Hup) as [n Hn]. by rewrite Hnone in Hn.
Qed.

Lemma main_run cfg env fuel s :
  main cfg env fuel s
  = match makedirs env with
    | Ok _ =>
        match run_persistent_loop cfg env fuel (constructed s) with
        | (Ok Exited, s') => (Returned, s')
        | (Ok StillLooping, s') => (Looping, s')
        | (Raise (Exception msg), s') =>
            (SysExit 1, (logger (LogFatal (Exception msg)) s').2)
        | (Raise KeyboardInterrupt, s') => (Uncaught KeyboardInterrupt, s')
        end
    | Raise (Exception msg) =>
        (SysExit 1, (logger (LogFatal (Exception msg)) (constructed s)).2)
    | Raise KeyboardInterrupt => (Uncaught KeyboardInterrupt, constructed s)
    end.
Proof.
  unfold main, __init__, bind, modify, ret, raise.
  destruct (makedirs env) as [[]|[msg|]]; [|done|done].
  by destruct (run_persistent_loop cfg env fuel (constructed s)) as [[[|]|[msg|]] s1].
Qed.

(** When [main] returns, in a world in which nothing was running when it
    started, no process is alive. *)
Lemma main_leaves_nothing cfg env fuel s :
  (forall p, alive (world s) p = false) ->
  (main cfg env fuel s).1 = Returned ->
  forall p, alive (world (main cfg env fuel s).2) p = false.
Proof.
  intros Hquiet. rewrite main_run.
  assert (Htr0 : tracked (constructed s)).
  { intros p Hup. simpl in Hup. by rewrite Hquiet in Hup. }
  pose proof (run_persistent_loop_leaves_nothing cfg env fuel (constructed s) eq_refl Htr0)
    as Hrun.
  destruct (makedirs env) as [[]|[msg|]]; [|done|done].
  destruct (run_persistent_loop cfg env fuel (constructed s)) as [[[|]|[msg|]] s1];
    simpl in *; try done.
  intros _. by apply Hrun.
Qed.

(** C9. The shutdown sequence runs to its end without raising; after it
    no handle is stored (every managed service has been stopped), and the
    process of every handle that was stored is not alive.  Over a whole run:
    when [main] returns, in a world in which nothing was running when it
    started, no process the supervisor has launched is alive. *)
Theorem shutdown_is_total (cfg : Config) (env : Env) (s : System) :
  (graceful_shutdown s).1 = Ok tt
  /\ processes (graceful_shutdown s).2 = ∅
  /\ (forall service_name process,
        processes s !! service_name = Some process ->
        alive (world (graceful_shutdown s).2) (pid process) = false)
  /\ (forall fuel,
        (forall p, alive (world s) p = false) ->
        (main cfg env fuel s).1 = Returned ->
        forall p, alive (world (main cfg env fuel s).2) p = false).
Proof.
  destruct (graceful_shutdown_spec s) as (H1 & H2 & H3).
  split; [exact H1|]. split; [exact H2|]. split; [exact H3|].
  intros fuel. apply main_leaves_nothing.
Qed.

Lemma shutdown_is_total_witness :
  (main KINGDOM_CONFIG (signal_at 60) 100 fresh).1 = Returned
  /\ length (ptable (world (main KINGDOM_CONFIG (signal_at 60) 100 fresh).2)) = 8
  /\ alive (world (main KINGDOM_CONFIG (signal_at 60) 100 fresh).2) 7 = false.
Proof.
  split; [vm_compute; reflexivity|]. split; [vm_compute; reflexivity|].
  apply (proj2 (proj2 (proj2 (shutdown_is_total KINGDOM_CONFIG (signal_at 60) fresh))) 100).
  - intros p. reflexivity.
  - vm_compute. reflexivity.
Defined.

(** With [psutil] failing at every reading, every health check and every
    report raises; the loop is still running after 100 passes, with the
    health check still due, and has logged the errors. *)
Lemma loop_outlives_failing_psutil :
  (while_running alpha_cfg failing_psutil_env 100 fresh).1 = Ok StillLooping
  /\ running (while_running alpha_cfg failing_psutil_env 100 fresh).2 = true
  /\ health_check_counter (while_running alpha_cfg failing_psutil_env 100 fresh).2 = 10
  /\ LogLoopError (Exception "psutil")
     ∈ log (world (while_running alpha_cfg failing_psutil_env 100 fresh).2).
Proof.
  split; [vm_compute; reflexivity|]. split; [vm_compute; reflexivity|].
  split; [vm_compute; reflexivity|].
  apply list_elem_of_In. vm_compute. tauto.
Qed.

(** * Further properties of the supervisor *)

(** ** Graceful, then forced *)

(** X1. Stopping a service whose stored process is alive: SIGTERM is
    sent and two time units pass.  A process that is gone by then is not
    sent SIGKILL (its entry is what SIGTERM made of it) and the stop has
    taken two time units; a process that is still there is killed at that
    moment and the stop takes three.  In both cases the result is [True],
    the handle is dropped and the process is not alive afterwards. *)
Theorem stop_service_grace (service_name : string) (process : Popen) (pr : Proc) (s : System) :
  processes s !! service_name = Some process ->
  ptable (world s) !! pid process = Some pr ->
  before (clock (world s)) (exit_at pr) = true ->
  let now := clock (world s) in
  let still := before (now + 2) (exit_at (deliver_term now pr)) in
  (stop_service service_name s).1 = Ok true
  /\ clock (world (stop_service service_name s).2) = now + (if still then 3 else 2)
  /\ ptable (world (stop_service service_name s).2) !! pid process
     = Some (if still then deliver_kill (now + 2) (deliver_term now pr)
             else deliver_term now pr)
  /\ processes (stop_service service_name s).2 = delete service_name (processes s)
  /\ alive (world (stop_service service_name s).2) (pid process) = false.
Proof.
  intros Hp Hpr Hup. cbv zeta.
  assert (Halive : alive (world s) (pid process) = true) by (unfold alive; by rewrite Hpr).
  split; [apply stop_service_returns|].
  split; [|split; [|split; [apply stop_service_returns | by apply stop_service_kills]]].
  - unfold stop_service, try_except_Exception, poll_is_None, logger, terminate, sleep, kill,
      modify, bind, get, ret.
    simpl. rewrite Hp. simpl. rewrite Halive. simpl.
    unfold alive. simpl. rewrite list_lookup_alter_eq, Hpr. simpl.
    destruct (before (clock (world s) + 2) (exit_at (deliver_term (clock (world s)) pr)));
      simpl; lia.
  - unfold stop_service, try_except_Exception, poll_is_None, logger, terminate, sleep, kill,
      modify, bind, get, ret.
    simpl. rewrite Hp. simpl. rewrite Halive. simpl.
    unfold alive. simpl. rewrite list_lookup_alter_eq, Hpr. simpl.
    destruct (before (clock (world s) + 2) (exit_at (deliver_term (clock (world s)) pr)));
      simpl; rewrite ?list_lookup_alter_eq, ?Hpr; simpl; rewrite ?Hpr; reflexivity.
Qed.

Lemma stop_service_grace_witness :
  clock (world (stop_service "alpha" started).2) = 5
  /\ alive (world (stop_service "alpha" started).2) 0 = false.
Proof.
  destruct (stop_service_grace "alpha" (mkPopen 0) (mkProc None (Some 1)) started
              eq_refl eq_refl eq_refl) as (_ & Hc & _ & _ & Ha).
  split; [exact Hc | exact Ha].
Defined.

(** ** Restarting replaces the process *)

Lemma no_launch_refl s : no_launch s s.
Proof. by repeat split. Qed.

Lemma no_launch_trans s1 s2 s3 : no_launch s1 s2 -> no_launch s2 s3 -> no_launch s1 s3.
Proof. intros (? & ? & ?) (? & ? & ?). repeat split; [congruence | congruence | lia]. Qed.

Lemma stop_service_no_launch service_name : preserves no_launch (stop_service service_name).
Proof.
  apply stop_service_preserves with (R := no_launch);
    first [ apply no_launch_refl | apply no_launch_trans
          | intros ? ?; repeat split; simpl; rewrite ?length_alter; (reflexivity || lia) ].
Qed.

Lemma stop_service_duration service_name s :
  clock (world (stop_service service_name s).2) <= clock (world s) + 3.
Proof.
  unfold stop_service, try_except_Exception, poll_is_None, logger, terminate, sleep, kill,
    modify, bind, get, ret.
  simpl. destruct (processes s !! service_name) as [process|]; simpl; [|lia].
  destruct (alive (world s) (pid process)); simpl; [|lia].
  match goal with |- context [if ?b then _ else _] => destruct b end; simpl; lia.
Qed.

(** [start_service] revives nothing: a process that was in the table and
    is alive afterwards was alive before. *)
Lemma start_service_old_processes env service_name config s p :
  p < length (ptable (world s)) ->
  alive (world (start_service env service_name config s).2) p = true ->
  alive (world s) p = true.
Proof.
  intros Hlt. pose proof (start_service_state env service_name config s) as Hst.
  cbv zeta in Hst. unfold alive at 1.
  destruct (popen env service_name (calls (world s))) as [b|e];
    destruct Hst as (_ & -> & ->).
  - rewrite lookup_app_l by done. unfold alive.
    destruct (ptable (world s) !! p); [|done]. apply before_mono. lia.
  - done.
Qed.

(** What [restart_service] leaves is what its [start_service] leaves, up
    to the log. *)
Lemma restart_service_ends env service_name config s :
  let s3 := (start_service env service_name config (ready_to_start service_name s)).2 in
  processes (restart_service env service_name config s).2 = processes s3
  /\ clock (world (restart_service env service_name config s).2) = clock (world s3)
  /\ ptable (world (restart_service env service_name config s).2) = ptable (world s3).
Proof.
  cbv zeta. rewrite restart_service_run. cbv zeta. fold (ready_to_start service_name s).
  by destruct (start_service env service_name config _) as [[b|e] s3].
Qed.

Lemma ready_to_start_spec service_name s :
  processes (ready_to_start service_name s) = delete service_name (processes s)
  /\ calls (world (ready_to_start service_name s)) = calls (world s)
  /\ length (ptable (world (ready_to_start service_name s))) = length (ptable (world s))
  /\ clock (world s) + 2 <= clock (world (ready_to_start service_name s))
     <= clock (world s) + 5
  /\ (forall old,
        processes s !! service_name = Some old ->
        alive (world (ready_to_start service_name s)) (pid old) = false).
Proof.
  unfold ready_to_start. cbv zeta.
  set (s0 := (logger (LogRestarting service_name) s).2).
  destruct (stop_service_returns service_name s0) as [_ Hdel].
  destruct (stop_service_no_launch service_name s0) as (Hcalls & Hlen & Hclk).
  pose proof (stop_service_duration service_name s0) as Hdur.
  pose proof (stop_service_kills service_name) as Hkill.
  specialize Hkill with (s := s0).
  set (s1 := (stop_service service_name s0).2) in *.
  split; [exact Hdel|]. split; [exact Hcalls|]. split; [exact Hlen|].
  split; [simpl in *; lia|].
  intros old Hold. apply not_true_is_false. intros Hup.
  assert (Hs : no_revival s1 (sleep 2 s1).2) by apply sleep_no_revival.
  apply Hs in Hup. by rewrite (Hkill old Hold) in Hup.
Qed.

(** X2. [restart_service], whatever it returns or raises: the process of
    the handle that was stored under the name is not alive afterwards; under
    the name there is the handle of the newly launched process if the
    launch was accepted and no handle if it was not; the handles of the
    other services are untouched; and between 2 and 8 time units have
    passed. *)
Theorem restart_service_replaces (env : Env) (service_name : string) (config : ServiceConfig)
    (s : System) :
  let s' := (restart_service env service_name config s).2 in
  (forall old,
      processes s !! service_name = Some old ->
      pid old < length (ptable (world s)) ->
      alive (world s') (pid old) = false)
  /\ processes s' !! service_name
     = match popen env service_name (calls (world s)) with
       | Ok _ => Some (mkPopen (length (ptable (world s))))
       | Raise _ => None
       end
  /\ (forall other, other <> service_name -> processes s' !! other = processes s !! other)
  /\ clock (world s) + 2 <= clock (world s') <= clock (world s) + 8.
Proof.
  cbv zeta.
  destruct (restart_service_ends env service_name config s) as (Hfp & Hfc & Hft).
  destruct (ready_to_start_spec service_name s) as (Hp2 & Hc2 & Hl2 & Hk2 & Hdead).
  cbv zeta in Hfp, Hfc, Hft.
  set (s2 := ready_to_start service_name s) in *.
  pose proof (start_service_state env service_name config s2) as Hst. cbv zeta in Hst.
  rewrite Hc2, Hl2 in Hst.
  split; [|split; [|split]].
  - intros old Hold Hlt. apply not_true_is_false. intros Hup.
    rewrite (alive_fields _ (world (start_service env service_name config s2).2)) in Hup
      by done.
    apply start_service_old_processes in Hup; [|by rewrite Hl2].
    by rewrite (Hdead old Hold) in Hup.
  - rewrite Hfp. destruct (popen env service_name (calls (world s))) as [b|e];
      destruct Hst as (-> & _).
    + apply lookup_insert_eq.
    + rewrite Hp2. apply lookup_delete_eq.
  - intros other Hne. rewrite Hfp, start_service_other by done.
    rewrite Hp2. by apply lookup_delete_ne.
  - rewrite Hfc. destruct (popen env service_name (calls (world s))) as [b|e];
      destruct Hst as (_ & -> & _); lia.
Qed.

Lemma restart_service_replaces_witness :
  alive (world (restart_service quiet_env "alpha" alpha_config started).2) 0 = false
  /\ processes (restart_service quiet_env "alpha" alpha_config started).2 !! "alpha"
     = Some (mkPopen 1).
Proof.
  destruct (restart_service_replaces quiet_env "alpha" alpha_config started)
    as (Hold & Hnew & _).
  split; [|exact Hnew].
  apply (Hold (mkPopen 0)); [reflexivity | vm_compute; lia].
Defined.

(** ** Start-up *)

Lemma for_each_cons_run {A : Type} (x : A) (l : list A) (body : A -> M unit) s :
  for_each (x :: l) body s
  = match body x s with
    | (Ok _, s1) => for_each l body s1
    | (Raise e, s1) => (Raise e, s1)
    end.
Proof. reflexivity. Qed.

Lemma start_configured_scope cfg env x s :
  (forall n, n <> x \/ dict_get n (services cfg) = None ->
             processes (start_configured cfg env x s).2 !! n = processes s !! n)
  /\ length (ptable (world (start_configured cfg env x s).2))
     <= length (ptable (world s)) + 1.
Proof.
  unfold start_configured.
  destruct (dict_get x (services cfg)) as [config|] eqn:Hx; [|split; [done | simpl; lia]].
  pose proof (start_service_state env x config s) as Hst. cbv zeta in Hst.
  pose proof (start_service_other env x config s) as Hother.
  assert (Hlen : length (ptable (world (start_service env x config s).2))
                 <= length (ptable (world s)) + 1).
  { destruct (popen env x (calls (world s))); destruct Hst as (_ & _ & ->);
      rewrite ?length_app; simpl; lia. }
  unfold bind. destruct (start_service env x config s) as [[b|e] s1]; cbn [fst snd] in *.
  - split; [|exact Hlen]. intros n Hn. simpl. apply Hother. intros ->.
    destruct Hn as [Hn|Hn]; [done | congruence].
  - split; [|exact Hlen]. intros n Hn. apply Hother. intros ->.
    destruct Hn as [Hn|Hn]; [done | congruence].
Qed.

Lemma start_each_scope cfg env (names : list string) (s : System) :
  (forall n, n ∉ names \/ dict_get n (services cfg) = None ->
             processes (for_each names (start_configured cfg env) s).2 !! n
             = processes s !! n)
  /\ length (ptable (world (for_each names (start_configured cfg env) s).2))
     <= length (ptable (world s)) + length names.
Proof.
  revert s. induction names as [|x names IH]; intros s.
  - split; [done | simpl; lia].
  - rewrite for_each_cons_run.
    destruct (start_configured_scope cfg env x s) as [Hx1 Hx2].
    destruct (start_configured cfg env x s) as [[[]|e] s1]; cbn [fst snd length] in *.
    + destruct (IH s1) as [IH1 IH2]. split; [|lia].
      intros n Hn. rewrite IH1.
      * apply Hx1. destruct Hn as [Hn|Hn]; [left|by right]. intros ->. apply Hn. left.
      * destruct Hn as [Hn|Hn]; [left|by right]. intros Hc. apply Hn. by right.
    + split; [|lia]. intros n Hn. apply Hx1.
      destruct Hn as [Hn|Hn]; [left|by right]. intros ->. apply Hn. left.
Qed.

(** X3. [start_all_services] launches along its fixed list of four names:
    a name outside that list, or a name of the list that the configuration
    does not have, keeps the handle it had (a configured service whose key
    is not in the list is not started at boot); at most four processes are
    launched; and no restart count changes. *)
Theorem start_all_services_scope (cfg : Config) (env : Env) (s : System) :
  (forall service_name,
      service_name ∉ service_order \/ dict_get service_name (services cfg) = None ->
      processes (start_all_services cfg env s).2 !! service_name
      = processes s !! service_name)
  /\ length (ptable (world (start_all_services cfg env s).2))
     <= length (ptable (world s)) + 4
  /\ restart_counts (start_all_services cfg env s).2 = restart_counts s.
Proof.
  destruct (start_each_scope cfg env service_order s) as [H1 H2].
  split; [exact H1|]. split; [exact H2|].
  change (counts_unchanged s (start_all_services cfg env s).2).
  apply (start_all_services_preserves cfg env counts_unchanged);
    first [ apply counts_unchanged_refl | apply counts_unchanged_trans
          | apply logger_counts | apply sleep_counts | apply set_processes_counts
          | apply subprocess_Popen_counts ]; done.
Qed.

Lemma start_all_services_scope_witness :
  dict_get "alpha" (services alpha_cfg) = Some alpha_config
  /\ processes (start_all_services alpha_cfg quiet_env fresh).2 !! "alpha" = None.
Proof.
  split; [reflexivity|].
  rewrite (proj1 (start_all_services_scope alpha_cfg quiet_env fresh) "alpha");
    [reflexivity|].
  left. vm_compute. intros H. repeat (apply elem_of_cons in H as [H|H]; [discriminate H|]).
  by apply elem_of_nil in H.
Defined.

(** ** The system report *)

Lemma dict_set_fresh {A : Type} key (v : A) d : key ∉ d.*1 -> dict_set key v d = d ++ [(key, v)].
Proof.
  induction d as [|[k x] d IH]; simpl; [done|].
  intros Hk. apply not_elem_of_cons in Hk as [Hne Hk].
  rewrite decide_False by done. by rewrite IH.
Qed.

Lemma check_one_run env health service_name config s :
  exists h,
    probe env service_name config s = Ok h
    /\ check_one env health (service_name, config) s
       = (Ok (if healthy h
              then mkSystemHealth (dict_set service_name h (h_services health))
                                  (h_resources health) (issues health)
                                  (overall_status health)
              else mkSystemHealth (dict_set service_name h (h_services health))
                                  (h_resources health)
                                  (issues health ++ [name config +:+ " unhealthy"])
                                  StatusDegraded),
          (_check_service_health env service_name config s).2).
Proof.
  unfold probe, check_one, bind. rewrite _check_service_health_run. cbv zeta.
  eexists. split; reflexivity.
Qed.

Lemma healthy_split (hs : list (string * ServiceHealth)) :
  length (filter (fun kv => healthy kv.2 = true) hs)
  + length (filter (fun kv => healthy kv.2 = false) hs) = length hs.
Proof.
  induction hs as [|[k h] hs IH]; [done|].
  rewrite !filter_cons. cbn [snd].
  destruct (healthy h); repeat case_decide; try done; simpl; lia.
Qed.

Lemma all_healthy_count (hs : list (string * ServiceHealth)) :
  (forall kv, kv ∈ hs -> healthy kv.2 = true)
  <-> length (filter (fun kv => healthy kv.2 = false) hs) = 0.
Proof.
  induction hs as [|[k h] hs IH].
  - split; [done|]. intros _ kv Hkv. by apply elem_of_nil in Hkv.
  - rewrite filter_cons. cbn [snd]. destruct (healthy h) eqn:Hh; case_decide; try done.
    + rewrite <- IH. split.
      * intros Hall kv Hkv. apply Hall. by right.
      * intros Hall kv Hkv. apply elem_of_cons in Hkv as [->|Hkv]; [done | by apply Hall].
    + simpl. split; [|done].
      intros Hall. specialize (Hall (k, h) ltac:(left)). simpl in Hall. congruence.
Qed.

Lemma check_each_report env (l : list (string * ServiceConfig)) :
  forall acc s acc' s',
    NoDup ((h_services acc).*1 ++ l.*1) ->
    report_consistent acc ->
    for_fold l acc (check_one env) s = (Ok acc', s') ->
    (h_services acc').*1 = (h_services acc).*1 ++ l.*1
    /\ report_consistent acc'
    /\ h_resources acc' = h_resources acc.
Proof.
  induction l as [|[k c] l IH]; intros acc s acc' s' Hnd Hacc Hrun.
  - simpl in Hrun. unfold ret in Hrun. injection Hrun as <- <-.
    by rewrite app_nil_r.
  - cbn [for_fold] in Hrun. unfold bind in Hrun.
    destruct (check_one_run env acc k c s) as (h & _ & Hone). rewrite Hone in Hrun.
    assert (Hk : k ∉ (h_services acc).*1).
    { apply NoDup_app in Hnd as (_ & Hdisj & _). intros Hin.
      apply (Hdisj k Hin). left. }
    rewrite (dict_set_fresh k h _ Hk) in Hrun.
    destruct Hacc as [Hstatus Hissues].
    apply IH in Hrun.
    + destruct Hrun as (Hkeys & Hcons & Hres). split; [|split; [exact Hcons|]].
      * rewrite Hkeys. destruct (healthy h); simpl; rewrite fmap_app; simpl;
          by rewrite <- app_assoc.
      * rewrite Hres. by destruct (healthy h).
    + destruct (healthy h); simpl; rewrite fmap_app; simpl; by rewrite <- app_assoc.
    + destruct (healthy h) eqn:Hh; unfold report_consistent;
        cbn [h_services issues overall_status]; split.
      * rewrite Hstatus. split.
        -- intros H kv Hkv. apply elem_of_app in Hkv as [Hkv|Hkv]; [by apply H|].
           apply list_elem_of_singleton in Hkv. by subst kv.
        -- intros H kv Hkv. apply H. apply elem_of_app. by left.
      * rewrite filter_app, length_app, Hissues. rewrite filter_cons. cbn [snd].
        rewrite Hh. case_decide; [done|]. simpl. lia.
      * split; [done|]. intros H.
        specialize (H (k, h)). simpl in H. rewrite Hh in H.
        assert (false = true); [|done]. apply H. apply elem_of_app. right. left.
      * rewrite filter_app, !length_app, Hissues. rewrite filter_cons. cbn [snd].
        rewrite Hh. case_decide; [|done]. reflexivity.
Qed.

Lemma log_kept_refl s : log_kept s s.
Proof. done. Qed.

Lemma log_kept_trans s1 s2 s3 : log_kept s1 s2 -> log_kept s2 s3 -> log_kept s1 s3.
Proof. unfold log_kept. congruence. Qed.

(** [check_system_health] writes nothing to the log. *)
Lemma check_system_health_log cfg env : preserves log_kept (check_system_health cfg env).
Proof.
  apply check_system_health_preserves with (R := log_kept);
    first [ apply log_kept_refl | apply log_kept_trans | by intros ? ? | by intros ? ].
Qed.

(** A loop that only logs. *)
Lemma for_each_logger {A : Type} (f : A -> LogEvent) (l : list A) (s : System) :
  (for_each l (fun x => logger (f x)) s).1 = Ok tt
  /\ log (world (for_each l (fun x => logger (f x)) s).2) = log (world s) ++ (f <$> l).
Proof.
  revert s. induction l as [|x l IH]; intros s.
  - simpl. by rewrite app_nil_r.
  - rewrite for_each_cons_run. unfold logger at 1 3, modify. cbn [fst snd].
    destruct (IH (set_world (fun w => mkWorld (clock w) (calls w) (ptable w) (log w ++ [f x])) s))
      as [IH1 IH2].
    split; [exact IH1|]. rewrite IH2. simpl. by rewrite <- app_assoc.
Qed.

(** What [monitor_and_report] logs, from the report it has obtained. *)
Lemma monitor_and_report_run cfg env s health :
  (check_system_health cfg env s).1 = Ok health ->
  (monitor_and_report cfg env s).1 = Ok tt
  /\ log (world (monitor_and_report cfg env s).2)
     = log (world s)
       ++ LogStatus (match overall_status health with StatusDegraded => true | _ => false end)
                    (length (filter (fun kv => healthy kv.2 = true) (h_services health)))
                    (length (h_services health))
          :: (LogIssue <$> issues health).
Proof.
  intros Hh.
  assert (Heq : monitor_and_report cfg env s
                = match check_system_health cfg env s with
                  | (Ok health, s1) =>
                      for_each (issues health) (fun issue => logger (LogIssue issue))
                        (logger
                           (LogStatus
                              (match overall_status health with
                               | StatusDegraded => true
                               | _ => false
                               end)
                              (length (filter (fun kv => healthy kv.2 = true)
                                              (h_services health)))
                              (length (h_services health))) s1).2
                  | (Raise e, s1) => (Raise e, s1)
                  end).
  { unfold monitor_and_report, bind.
    by destruct (check_system_health cfg env s) as [[health'|e] s1]. }
  rewrite Heq. clear Heq.
  pose proof (check_system_health_log cfg env s) as Hlog. unfold log_kept in Hlog.
  destruct (check_system_health cfg env s) as [[health'|e] s1]; simpl in Hh; [|done].
  injection Hh as ->. cbn [snd] in Hlog.
  match goal with |- context [for_each ?l ?b ?st] =>
    destruct (for_each_logger LogIssue l st) as [H1 H2] end.
  split; [exact H1|]. rewrite H2. simpl. rewrite Hlog. by rewrite <- app_assoc.
Qed.

(** X4. When the keys of the configured services are distinct (they are
    the keys of a dict) and [check_system_health] returns, its report has one
    entry per configured service, in the order of the configuration; its
    status is healthy exactly when every entry is healthy; it lists one issue
    per entry that is not; the resources are filled in.  [monitor_and_report]
    then returns and adds to the log its summary, with the status, the
    number of healthy entries and the number of entries (the lines on CPU,
    memory and uptime are not modelled), followed by one warning per issue;
    the number of healthy entries it logs equals the total exactly when the
    status it logs is healthy. *)
Theorem check_system_health_report (cfg : Config) (env : Env) (s : System)
    (health : SystemHealth) :
  NoDup (services cfg).*1 ->
  (check_system_health cfg env s).1 = Ok health ->
  (h_services health).*1 = (services cfg).*1
  /\ (overall_status health = StatusHealthy
      <-> forall kv, kv ∈ h_services health -> healthy kv.2 = true)
  /\ length (issues health)
     = length (filter (fun kv => healthy kv.2 = false) (h_services health))
  /\ is_Some (h_resources health)
  /\ (length (filter (fun kv => healthy kv.2 = true) (h_services health))
      = length (h_services health)
      <-> overall_status health = StatusHealthy)
  /\ (monitor_and_report cfg env s).1 = Ok tt
  /\ (exists degraded healthy_count,
         log (world (monitor_and_report cfg env s).2)
         = log (world s)
           ++ LogStatus degraded healthy_count (length (services cfg))
              :: (LogIssue <$> issues health)
         /\ (degraded = false <-> overall_status health = StatusHealthy)
         /\ healthy_count
            = length (filter (fun kv => healthy kv.2 = true) (h_services health))
         /\ (healthy_count = length (services cfg) <-> degraded = false)).
Proof.
  intros Hnd Hhealth.
  destruct (monitor_and_report_run cfg env s health Hhealth) as [Hmok Hmlog].
  revert Hhealth. unfold check_system_health, bind at 1.
  destruct (for_fold (services cfg) _ (check_one env) s) as [[acc|e] s1] eqn:Hfold; [|done].
  apply check_each_report in Hfold; [| done |].
  2:{ split; [|done]. split; [|done]. intros _ kv Hkv. by apply elem_of_nil in Hkv. }
  destruct Hfold as (Hkeys & [Hstatus Hissues] & _).
  unfold bind. destruct (psutil_resources env s1) as [[r|e] s2]; [|done].
  unfold ret. simpl. intros H. injection H as <-. simpl in *.
  assert (Hcount : length (filter (fun kv => healthy kv.2 = true) (h_services acc))
                   = length (h_services acc)
                   <-> overall_status acc = StatusHealthy).
  { rewrite Hstatus, all_healthy_count.
    pose proof (healthy_split (h_services acc)). lia. }
  assert (Hlen : length (h_services acc) = length (services cfg)).
  { by rewrite <- (length_fmap fst (h_services acc)), Hkeys, length_fmap. }
  split; [exact Hkeys|]. split; [exact Hstatus|]. split; [exact Hissues|].
  split; [by eexists|]. split; [exact Hcount|]. split; [exact Hmok|].
  eexists. eexists. split; [rewrite Hmlog, Hlen; reflexivity|].
  split; [by destruct (overall_status acc)|]. split; [reflexivity|].
  rewrite <- Hlen, Hcount. by destruct (overall_status acc).
Qed.

Lemma check_system_health_report_witness :
  log (world (monitor_and_report alpha_cfg quiet_env due).2)
  = [LogStatus true 0 1; LogIssue "Alpha unhealthy"].
Proof.
  destruct (check_system_health_report alpha_cfg quiet_env due
              (quiet_health "alpha" "Alpha" 8001 0))
    as (_ & _ & _ & _ & _ & _ & degraded & healthy_count & Hlog & Hdeg & Hcount & _).
  - apply (bool_decide_unpack _). reflexivity.
  - reflexivity.
  - rewrite Hlog. subst healthy_count.
    assert (Hd : degraded = true).
    { destruct degraded; [done|]. by destruct (proj1 Hdeg eq_refl). }
    by rewrite Hd.
Defined.

(** ** Errors in the health-check branch *)

Lemma fields_kept_refl s : fields_kept s s.
Proof. by repeat split. Qed.

Lemma fields_kept_trans s1 s2 s3 : fields_kept s1 s2 -> fields_kept s2 s3 -> fields_kept s1 s3.
Proof.
  intros (? & ? & ? & ? & ? & ?) (? & ? & ? & ? & ? & ?). repeat split; congruence.
Qed.

Lemma check_system_health_fields cfg env : preserves fields_kept (check_system_health cfg env).
Proof.
  apply check_system_health_preserves with (R := fields_kept);
    first [ apply fields_kept_refl | apply fields_kept_trans
          | intros ? ?; by repeat split | intros ?; by repeat split ].
Qed.

Lemma check_each_keys env (l : list (string * ServiceConfig)) :
  forall acc s acc' s',
    for_fold l acc (check_one env) s = (Ok acc', s') ->
    forall n, n ∈ (h_services acc').*1 -> n ∈ (h_services acc).*1 \/ n ∈ l.*1.
Proof.
  induction l as [|[k c] l IH]; intros acc s acc' s' Hrun n Hn.
  - simpl in Hrun. unfold ret in Hrun. injection Hrun as <- <-. by left.
  - cbn [for_fold] in Hrun. unfold bind in Hrun.
    destruct (check_one_run env acc k c s) as (h & _ & Hone). rewrite Hone in Hrun.
    destruct (IH _ _ _ _ Hrun n Hn) as [Hin|Hin].
    + assert (Hin' : n ∈ (dict_set k h (h_services acc)).*1) by by destruct (healthy h).
      apply dict_set_keys in Hin' as [->|Hin']; [right; left | by left].
    + right. by right.
Qed.

Lemma dict_get_is_Some {A : Type} n (d : list (string * A)) :
  n ∈ d.*1 -> is_Some (dict_get n d).
Proof.
  induction d as [|[k x] d IH]; simpl; intros Hn; [by apply elem_of_nil in Hn|].
  destruct (decide (k = n)) as [->|Hne]; [by eexists|].
  apply IH. apply elem_of_cons in Hn as [->|Hn]; done.
Qed.

Lemma restart_service_no_Exception env service_name config :
  no_Exception (restart_service env service_name config).
Proof.
  intros s msg. rewrite restart_service_run. cbv zeta.
  pose proof (start_service_no_Exception env service_name config
                (ready_to_start service_name s) msg) as Hno.
  fold (ready_to_start service_name s).
  destruct (start_service env service_name config _) as [[b|e] s3]; simpl in *; [done|].
  intros H. by injection H as ->.
Qed.

Lemma heal_each_no_Exception cfg env (hs : list (string * ServiceHealth)) :
  (forall n, n ∈ hs.*1 -> n ∈ (services cfg).*1) ->
  no_Exception (for_each hs (heal cfg env)).
Proof.
  intros Hkeys. apply no_Exception_for_each_in. intros [n h] Hin. unfold heal.
  destruct (negb (healthy h)); [|apply no_Exception_ret].
  destruct (dict_get_is_Some n (services cfg)) as [config ->].
  { apply Hkeys. apply list_elem_of_fmap. by exists (n, h). }
  destruct (restart_on_failure config); [|apply no_Exception_ret].
  apply no_Exception_bind; [apply no_Exception_modify | intros _].
  apply no_Exception_bind; [apply restart_service_no_Exception | intros _].
  apply no_Exception_ret.
Qed.

Lemma check_system_health_keys cfg env s health s1 :
  check_system_health cfg env s = (Ok health, s1) ->
  forall n, n ∈ (h_services health).*1 -> n ∈ (services cfg).*1.
Proof.
  unfold check_system_health, bind at 1.
  destruct (for_fold (services cfg) _ (check_one env) s) as [[acc|e] s0] eqn:Hfold; [|done].
  unfold bind. destruct (psutil_resources env s0) as [[r|e] s2]; [|done].
  unfold ret. intros H. injection H as <- <-. simpl. intros n Hn.
  destruct (check_each_keys env _ _ _ _ _ Hfold n Hn) as [Hin|Hin]; [|done].
  by apply elem_of_nil in Hin.
Qed.

(** The loop body starts with the health-check branch: what that branch
    raises, the body raises, in the same state. *)
Lemma loop_body_health_checks_raise cfg env s e :
  (health_checks cfg env s).1 = Raise e ->
  loop_body cfg env s = (Raise e, (health_checks cfg env s).2).
Proof.
  unfold loop_body, bind at 1.
  destruct (health_checks cfg env s) as [[[]|e'] s1]; simpl; [done|]. by intros [= ->].
Qed.

(** X5. The health-check branch raises an [Exception] only if
    [check_system_health] raised it: the dictionary lookups of the auto-heal
    loop cannot fail and a failing restart raises nothing.  When the branch is
    due and [check_system_health] raises (the resource readings failed), no
    service is healed in this pass: the handles, the restart counts and the
    counters are as they were.  The loop then logs the error and sleeps 5
    time units, and the health check is still due at the next pass. *)
Theorem health_checks_errors (cfg : Config) (env : Env) (s : System) :
  (forall msg,
      (health_checks cfg env s).1 = Raise (Exception msg) ->
      (check_system_health cfg env s).1 = Raise (Exception msg))
  /\ (forall e,
        health_check_interval cfg <= health_check_counter s ->
        (check_system_health cfg env s).1 = Raise e ->
        (health_checks cfg env s).1 = Raise e
        /\ fields_kept s (health_checks cfg env s).2)
  /\ (forall msg,
        health_check_interval cfg <= health_check_counter s ->
        (check_system_health cfg env s).1 = Raise (Exception msg) ->
        (loop_iteration cfg env s).1 = Ok tt
        /\ fields_kept s (loop_iteration cfg env s).2
        /\ health_check_interval cfg <= health_check_counter (loop_iteration cfg env s).2
        /\ clock (world (loop_iteration cfg env s).2)
           = clock (world (check_system_health cfg env s).2) + 5).
Proof.
  assert (Hdue : forall e,
            health_check_interval cfg <= health_check_counter s ->
            (check_system_health cfg env s).1 = Raise e ->
            health_checks cfg env s = (Raise e, (check_system_health cfg env s).2)).
  { intros e Hd Hraise. rewrite health_checks_due by done.
    destruct (check_system_health cfg env s) as [[h|e'] s1]; simpl in *; [done|].
    by injection Hraise as ->. }
  split; [|split].
  - intros msg. unfold health_checks, bind at 1, get at 1.
    destruct (bool_decide _); [|done].
    unfold bind at 1.
    destruct (check_system_health cfg env s) as [[health|e] s1] eqn:Hcheck;
      [|simpl; by intros [= ->]].
    unfold bind.
    pose proof (heal_each_no_Exception cfg env (h_services health)
                  (check_system_health_keys cfg env s health s1 Hcheck) s1 msg) as Hno.
    by destruct (for_each (h_services health) (heal cfg env) s1) as [[[]|e] s2].
  - intros e Hd Hraise. rewrite (Hdue e Hd Hraise). split; [done|].
    apply check_system_health_fields.
  - intros msg Hd Hraise.
    pose proof (Hdue _ Hd Hraise) as Hhc.
    pose proof (check_system_health_fields cfg env s) as Hf.
    unfold loop_iteration.
    rewrite (loop_body_health_checks_raise cfg env s (Exception msg)) by by rewrite Hhc.
    rewrite Hhc. simpl. split; [done|]. split; [exact Hf|]. split; [|done].
    destruct Hf as (_ & _ & _ & -> & _). exact Hd.
Qed.

Lemma health_checks_errors_witness :
  (loop_iteration alpha_cfg failing_psutil_env due).1 = Ok tt
  /\ restart_counts (loop_iteration alpha_cfg failing_psutil_env due).2 = restart_counts due
  /\ health_check_interval alpha_cfg
     <= health_check_counter (loop_iteration alpha_cfg failing_psutil_env due).2.
Proof.
  destruct (proj2 (proj2 (health_checks_errors alpha_cfg failing_psutil_env due)) "psutil")
    as (H1 & H2 & H3 & _).
  - vm_compute. lia.
  - reflexivity.
  - split; [exact H1|]. split; [apply H2 | exact H3].
Defined.

(** ** The patch cycle after its restarts *)

Lemma auto_patch_system_run cfg env s :
  auto_patch_system cfg env s
  = match for_fold (services cfg) 0 (patch_service env) s with
    | (Ok n, s1) =>
        match clean_up_zombies s1 with
        | (Ok _, s2) =>
            match optimize_memory env n s2 with
            | (Ok n', s3) => logger (LogPatchCycle n') s3
            | (Raise e, s3) => (Raise e, s3)
            end
        | (Raise e, s2) => (Raise e, s2)
        end
    | (Raise e, s1) => (Raise e, s1)
    end.
Proof. reflexivity. Qed.

(** The memory rule, computed. *)
Lemma optimize_memory_run env n s :
  optimize_memory env n s
  = match virtual_memory env (calls (world s)) with
    | Ok mem_percent =>
        if Qlt_le_dec 90 mem_percent
        then (Ok (n + 1), (logger (LogHighMemory mem_percent) (next_call s).2).2)
        else (Ok n, (next_call s).2)
    | Raise _ => (Ok n, (next_call s).2)
    end.
Proof.
  unfold optimize_memory, try_except, psutil_virtual_memory_percent, bind, next_call,
    ret, raise.
  simpl. destruct (virtual_memory env (calls (world s))) as [q|e]; [|done].
  by destruct (Qlt_le_dec 90 q).
Qed.

Lemma clean_up_zombies_quiet :
  preserves (fun s s' => calls (world s') = calls (world s)
                         /\ restart_counts s' = restart_counts s) clean_up_zombies.
Proof.
  set (R := fun s s' : System => calls (world s') = calls (world s)
                                 /\ restart_counts s' = restart_counts s).
  assert (Hrefl : forall s, R s s) by done.
  assert (Htrans : forall s1 s2 s3, R s1 s2 -> R s2 s3 -> R s1 s3).
  { intros s1 s2 s3 [? ?] [? ?]. split; congruence. }
  unfold clean_up_zombies.
  apply preserves_bind; [exact Htrans | by apply preserves_get | intros s0].
  apply preserves_for_each; [exact Hrefl | exact Htrans | intros n].
  apply clean_up_preserves; try done.
Qed.

(** X6. Once the restart loop of the patch cycle has returned, the rest
    of the cycle (the sweep of stopped processes and the memory rule) never
    raises, takes no time, sends no signal, launches nothing and changes no
    restart count: high memory alone restarts nothing.  It keeps exactly the
    handles whose process is alive, and it reports one patch more than the
    restart loop counted exactly when the memory reading succeeded and was
    above 90; a failed reading is swallowed. *)
Theorem patch_cycle_tail (cfg : Config) (env : Env) (s : System) (n : nat) (s1 : System) :
  for_fold (services cfg) 0 (patch_service env) s = (Ok n, s1) ->
  let s' := (auto_patch_system cfg env s).2 in
  let high := exists q, virtual_memory env (calls (world s1)) = Ok q /\ (90 < q)%Q in
  (auto_patch_system cfg env s).1 = Ok tt
  /\ restart_counts s' = restart_counts s1
  /\ clock (world s') = clock (world s1)
  /\ ptable (world s') = ptable (world s1)
  /\ (forall service_name,
        processes s' !! service_name = if_alive (world s1) (processes s1 !! service_name))
  /\ exists n',
       last (log (world s')) = Some (LogPatchCycle n')
       /\ (n' = n + 1 <-> high) /\ (n' = n <-> ~ high).
Proof.
  intros Hloop. cbv zeta. rewrite auto_patch_system_run, Hloop.
  destruct (clean_up_zombies_spec s1) as (Hok & [Hclk Hpt] & Hproc).
  destruct (clean_up_zombies_quiet s1) as [Hcalls Hcounts].
  destruct (clean_up_zombies s1) as [r s2]. simpl in Hok, Hclk, Hpt, Hproc, Hcalls, Hcounts.
  subst r. rewrite optimize_memory_run, Hcalls.
  destruct (virtual_memory env (calls (world s1))) as [q|e].
  - destruct (Qlt_le_dec 90 q) as [Hhigh|Hlow]; simpl.
    + repeat split; try done. exists (n + 1). rewrite last_snoc.
      split; [done|]. split.
      * split; [intros _; by exists q | done].
      * split; [lia|]. intros Hno. exfalso. apply Hno. by exists q.
    + repeat split; try done. exists n. rewrite last_snoc.
      split; [done|]. split.
      * split; [lia|]. intros (q' & Hq & Hlt). injection Hq as <-.
        exfalso. by apply (Qlt_not_le _ _ Hlt).
      * split; [|done]. intros _ (q' & Hq & Hlt). injection Hq as <-.
        by apply (Qlt_not_le _ _ Hlt).
  - simpl. repeat split; try done. exists n. rewrite last_snoc.
    split; [done|]. split.
    + split; [lia|]. by intros (q' & Hq & _).
    + split; [|done]. by intros _ (q' & Hq & _).
Qed.

Lemma patch_cycle_tail_witness :
  (auto_patch_system alpha_cfg hot_env fresh).1 = Ok tt
  /\ restart_counts (auto_patch_system alpha_cfg hot_env fresh).2 !! "alpha" = Some 1.
Proof.
  destruct (patch_cycle_tail alpha_cfg hot_env fresh 1
              (for_fold (services alpha_cfg) 0 (patch_service hot_env) fresh).2)
    as (Hok & Hcounts & _).
  - vm_compute. reflexivity.
  - split; [exact Hok|]. rewrite Hcounts. vm_compute. reflexivity.
Defined.

(** ** The loop counters *)

Lemma bind_Ok {A B : Type} (m : M A) (k : A -> M B) (s : System) (b : B) :
  (bind m k s).1 = Ok b -> exists a, (m s).1 = Ok a /\ bind m k s = k a (m s).2.
Proof. unfold bind. destruct (m s) as [[a|e] s1]; simpl; [by exists a | done]. Qed.

(** One of the three conditional branches of the loop body. *)
Lemma branch_run (c : System -> bool) (m : M unit) (f : System -> System) (s : System) :
  (let* s0 := get in if c s0 then m ;;; modify f else ret tt) s
  = if c s
    then match m s with
         | (Ok _, s1) => (Ok tt, f s1)
         | (Raise e, s1) => (Raise e, s1)
         end
    else (Ok tt, s).
Proof.
  unfold bind, get, modify, ret. destruct (c s); [|done].
  by destruct (m s) as [[[]|e] s1].
Qed.

Lemma counters_kept_refl s : counters_kept s s.
Proof. by repeat split. Qed.

Lemma counters_kept_trans s1 s2 s3 :
  counters_kept s1 s2 -> counters_kept s2 s3 -> counters_kept s1 s3.
Proof. intros (? & ? & ?) (? & ? & ?). repeat split; congruence. Qed.

(** Discharge the premises of a lemma of [Methods] for a relation that
    only reads the loop counters. *)
Ltac counters_premises env :=
  first [ apply counters_kept_refl
        | apply counters_kept_trans
        | intros ? ?; by repeat split
        | intros ?; by repeat split
        | assumption
        | intros ? ?; unfold bind, get; simpl; by repeat split
        | intros ? ?; unfold subprocess_Popen, bind, next_call; simpl;
          destruct (popen env _ _); by repeat split ].

Lemma check_system_health_counters cfg env :
  preserves counters_kept (check_system_health cfg env).
Proof.
  apply check_system_health_preserves with (R := counters_kept); counters_premises env.
Qed.

Lemma heal_counters cfg env item : preserves counters_kept (heal cfg env item).
Proof. apply heal_preserves with (R := counters_kept); counters_premises env. Qed.

Lemma auto_patch_system_counters cfg env : preserves counters_kept (auto_patch_system cfg env).
Proof.
  unfold auto_patch_system, clean_up_zombies.
  apply preserves_bind; [apply counters_kept_trans | | intros n].
  { apply preserves_for_fold; [apply counters_kept_refl | apply counters_kept_trans|].
    intros. apply patch_service_preserves with (R := counters_kept); counters_premises env. }
  apply preserves_bind; [apply counters_kept_trans | | intros _].
  { apply preserves_bind; [apply counters_kept_trans | by apply preserves_get | intros s0].
    apply preserves_for_each; [apply counters_kept_refl | apply counters_kept_trans|].
    intros. apply clean_up_preserves with (R := counters_kept); counters_premises env. }
  apply preserves_bind; [apply counters_kept_trans | | intros n'; by intros s].
  apply optimize_memory_preserves with (R := counters_kept); counters_premises env.
Qed.

Lemma monitor_and_report_counters cfg env :
  preserves counters_kept (monitor_and_report cfg env).
Proof.
  apply monitor_and_report_preserves with (R := counters_kept); counters_premises env.
Qed.

Lemma health_checks_counters_inner cfg env s :
  counters_kept s (bind (check_system_health cfg env)
                        (fun health => for_each (h_services health) (heal cfg env)) s).2.
Proof.
  apply preserves_bind;
    [apply counters_kept_trans | apply check_system_health_counters | intros health].
  apply preserves_for_each; [apply counters_kept_refl | apply counters_kept_trans|].
  intros. apply heal_counters.
Qed.

(** Time does not go back. *)
Lemma later_refl s : later s s.
Proof. unfold later. lia. Qed.

Lemma later_trans s1 s2 s3 : later s1 s2 -> later s2 s3 -> later s1 s3.
Proof. unfold later. lia. Qed.

Ltac later_premises env :=
  first [ apply later_refl
        | apply later_trans
        | intros ? ?; unfold later; simpl; lia
        | intros ?; unfold later; simpl; lia
        | assumption
        | intros ? ?; unfold later, bind, get; simpl; lia
        | intros ? ?; unfold later, subprocess_Popen, bind, next_call; simpl;
          destruct (popen env _ _); simpl; lia
        | intros f s0; unfold later, modify; simpl; destruct (f s0) as [[? ?] ?]; simpl; lia ].

Lemma loop_body_later cfg env : preserves later (loop_body cfg env).
Proof. apply loop_body_preserves with (R := later); later_premises env. Qed.

Lemma loop_iteration_later cfg env : preserves later (loop_iteration cfg env).
Proof. apply loop_iteration_preserves with (R := later); later_premises env. Qed.

Lemma health_checks_later cfg env : preserves later (health_checks cfg env).
Proof. apply health_checks_preserves with (R := later); later_premises env. Qed.

Lemma auto_patch_system_later cfg env : preserves later (auto_patch_system cfg env).
Proof. apply auto_patch_system_preserves with (R := later); later_premises env. Qed.

Lemma monitor_and_report_later cfg env : preserves later (monitor_and_report cfg env).
Proof. apply monitor_and_report_preserves with (R := later); later_premises env. Qed.

(** The health-check branch on the counters. *)
Lemma health_checks_stage cfg env s :
  match health_checks cfg env s with
  | (Ok _, s1) =>
      health_check_counter s1
      = (if bool_decide (health_check_interval cfg <= health_check_counter s)
         then 0 else health_check_counter s)
      /\ auto_patch_counter s1 = auto_patch_counter s
      /\ monitor_counter s1 = monitor_counter s
  | (Raise e, s1) => counters_kept s s1
  end.
Proof.
  destruct (decide (health_check_interval cfg <= health_check_counter s)) as [Hdue|Hnot].
  - rewrite health_checks_due by done. rewrite bool_decide_eq_true_2 by done.
    pose proof (health_checks_counters_inner cfg env s) as Hin. unfold bind in Hin.
    destruct (check_system_health cfg env s) as [[health|e] s1]; [|exact Hin].
    destruct (for_each (h_services health) (heal cfg env) s1) as [[[]|e] s2]; [|exact Hin].
    destruct Hin as (_ & ? & ?). by repeat split.
  - unfold health_checks, bind, get. rewrite !bool_decide_eq_false_2 by done. done.
Qed.

(** The end of the loop body: the monitoring branch, the sleep and the
    increments. *)
Lemma monitor_stage cfg env s :
  match ((let* s0 := get in
          if bool_decide (resource_monitor_interval cfg <= monitor_counter s0) then
            monitor_and_report cfg env ;;;
            modify (fun s => set_counters (health_check_counter s) (auto_patch_counter s) 0 s)
          else ret tt) ;;;
         sleep 1 ;;;
         modify (fun s => set_counters (health_check_counter s + 1) (auto_patch_counter s + 1)
                                       (monitor_counter s + 1) s))%py s with
  | (Ok _, s') =>
      health_check_counter s' = health_check_counter s + 1
      /\ auto_patch_counter s' = auto_patch_counter s + 1
      /\ monitor_counter s'
         = (if bool_decide (resource_monitor_interval cfg <= monitor_counter s)
            then 1 else monitor_counter s + 1)
      /\ clock (world s) + 1 <= clock (world s')
  | (Raise e, s') => counters_kept s s'
  end.
Proof.
  unfold bind at 1. rewrite branch_run.
  pose proof (monitor_and_report_counters cfg env s) as (Hh & Ha & Hm).
  pose proof (monitor_and_report_later cfg env s) as Hl. unfold later in Hl.
  destruct (bool_decide (resource_monitor_interval cfg <= monitor_counter s)).
  - destruct (monitor_and_report cfg env s) as [[[]|e] s1]; cbn [fst snd] in *.
    + unfold bind, sleep, modify. simpl. repeat split; try congruence. lia.
    + by repeat split.
  - unfold bind, sleep, modify. simpl. repeat split. lia.
Qed.

(** The loop body on the counters: a pass that returns resets the counter
    of each activity that was due and adds one to all three; a pass that
    raises adds nothing. *)
Lemma loop_body_stages cfg env s :
  match loop_body cfg env s with
  | (Ok _, s') =>
      health_check_counter s' = tick (health_check_interval cfg) (health_check_counter s)
      /\ auto_patch_counter s' = tick (auto_patch_interval cfg) (auto_patch_counter s)
      /\ monitor_counter s' = tick (resource_monitor_interval cfg) (monitor_counter s)
      /\ clock (world s) + 1 <= clock (world s')
  | (Raise e, s') =>
      (health_check_counter s' = health_check_counter s \/ health_check_counter s' = 0)
      /\ (auto_patch_counter s' = auto_patch_counter s \/ auto_patch_counter s' = 0)
      /\ (monitor_counter s' = monitor_counter s \/ monitor_counter s' = 0)
  end.
Proof.
  unfold loop_body, tick.
  unfold bind at 1.
  pose proof (health_checks_stage cfg env s) as H1.
  pose proof (health_checks_later cfg env s) as L1. unfold later in L1.
  destruct (health_checks cfg env s) as [[[]|e1] s1]; cbn [fst snd] in *.
  2: { destruct H1 as (-> & -> & ->). by repeat split; left. }
  destruct H1 as (Hh1 & Ha1 & Hm1).
  unfold bind at 1. rewrite branch_run. rewrite Ha1.
  pose proof (auto_patch_system_counters cfg env s1) as (Hh2 & Ha2 & Hm2).
  pose proof (auto_patch_system_later cfg env s1) as L2. unfold later in L2.
  destruct (bool_decide (auto_patch_interval cfg <= auto_patch_counter s)).
  - destruct (auto_patch_system cfg env s1) as [[[]|e2] s2]; cbn [fst snd] in *.
    + pose proof (monitor_stage cfg env
                    (set_counters (health_check_counter s2) 0 (monitor_counter s2) s2)) as H3.
      lazymatch type of H3 with
      | match ?t with _ => _ end => destruct t as [[[]|e3] s3]
      end; simpl in H3.
      * destruct H3 as (-> & -> & -> & Hc). rewrite Hh2, Hh1, Hm2, Hm1.
        repeat split; try done.
        -- by destruct (bool_decide (health_check_interval cfg <= health_check_counter s)).
        -- lia.
      * destruct H3 as (-> & -> & ->). rewrite Hh2, Hh1, Hm2, Hm1.
        repeat split; try (by right); try (by left).
        destruct (bool_decide (health_check_interval cfg <= health_check_counter s));
          [by right | by left].
    + rewrite Hh2, Hh1, Hm2, Hm1, Ha2, Ha1. repeat split; try (by left).
      destruct (bool_decide (health_check_interval cfg <= health_check_counter s));
        [by right | by left].
  - pose proof (monitor_stage cfg env s1) as H3.
    lazymatch type of H3 with
    | match ?t with _ => _ end => destruct t as [[[]|e3] s3]
    end.
    + destruct H3 as (-> & -> & -> & Hc). rewrite Hh1, Hm1, Ha1.
      repeat split; try done.
      * by destruct (bool_decide (health_check_interval cfg <= health_check_counter s)).
      * lia.
    + destruct H3 as (-> & -> & ->). rewrite Hh1, Hm1, Ha1.
      repeat split; try (by left).
      destruct (bool_decide (health_check_interval cfg <= health_check_counter s));
        [by right | by left].
Qed.

(** X7. One pass through the loop body and the counters.  When the body
    returns, each counter is 1 if its activity was due in this pass and one
    more than before otherwise, and at least one time unit has passed.  When
    the body raises, no counter has been incremented: each one is as it was or
    was reset to 0 by an activity that had finished before the failure; after
    an [Exception] at least 5 time units have passed. *)
Theorem loop_pass_counters (cfg : Config) (env : Env) (s : System) :
  let s' := (loop_iteration cfg env s).2 in
  ((loop_body cfg env s).1 = Ok tt ->
   health_check_counter s' = tick (health_check_interval cfg) (health_check_counter s)
   /\ auto_patch_counter s' = tick (auto_patch_interval cfg) (auto_patch_counter s)
   /\ monitor_counter s' = tick (resource_monitor_interval cfg) (monitor_counter s)
   /\ clock (world s) + 1 <= clock (world s'))
  /\ (forall e, (loop_body cfg env s).1 = Raise e ->
      (health_check_counter s' = health_check_counter s \/ health_check_counter s' = 0)
      /\ (auto_patch_counter s' = auto_patch_counter s \/ auto_patch_counter s' = 0)
      /\ (monitor_counter s' = monitor_counter s \/ monitor_counter s' = 0)
      /\ (forall msg, e = Exception msg -> clock (world s) + 5 <= clock (world s'))).
Proof.
  cbv zeta. unfold loop_iteration.
  pose proof (loop_body_stages cfg env s) as Hst.
  pose proof (loop_body_later cfg env s) as Hl. unfold later in Hl.
  destruct (loop_body cfg env s) as [[[]|[msg|]] s1]; cbn [fst snd] in *.
  - split; [by intros _ | by intros e].
  - split; [done|]. intros e _. unfold bind, logger, sleep, modify. simpl.
    destruct Hst as (? & ? & ?). repeat split; try done. intros _ _. lia.
  - split; [done|]. intros e [= <-]. unfold bind, logger, modify. simpl.
    destruct Hst as (? & ? & ?). by repeat split.
Qed.

Lemma loop_pass_counters_witness :
  health_check_counter (loop_iteration alpha_cfg quiet_env fresh).2
  = tick (health_check_interval alpha_cfg) 0.
Proof.
  destruct (loop_pass_counters alpha_cfg quiet_env fresh) as [Hok _].
  destruct Hok as (Hh & _).
  - vm_compute. reflexivity.
  - exact Hh.
Defined.

(** ** The schedule of the periodic activities *)

(** A counter that starts at 0 and is moved by [tick] runs through
    1, 2, ..., [i], 1, 2, ... *)
Lemma iter_tick i k :
  1 <= i ->
  (k = 0 /\ Nat.iter k (tick i) 0 = 0)
  \/ exists q r, k = q * i + r /\ 1 <= r <= i /\ Nat.iter k (tick i) 0 = r.
Proof.
  intros Hi. induction k as [|k IH]; [by left|]. right. rewrite Nat.iter_succ.
  destruct IH as [[-> _]|(q & r & -> & Hr & ->)].
  - exists 0, 1. simpl. unfold tick. rewrite bool_decide_eq_false_2 by lia. lia.
  - unfold tick. case_bool_decide.
    + exists (S q), 1. lia.
    + exists q, (r + 1). lia.
Qed.

Lemma iter_tick_due i k :
  1 <= i -> (i <= Nat.iter k (tick i) 0 <-> exists q, 1 <= q /\ k = q * i).
Proof.
  intros Hi. destruct (iter_tick i k Hi) as [[-> _]|(q & r & -> & Hr & ->)].
  - simpl. split; [lia|]. intros (q & Hq & Hk). nia.
  - split.
    + intros Hdue. exists (S q). split; [lia|]. assert (r = i) by lia. subst r. lia.
    + intros (q' & Hq' & Hk).
      destruct (decide (r = i)) as [|Hne]; [lia|]. exfalso.
      assert (Hlt : r < i) by lia.
      destruct (Nat.lt_trichotomy q q') as [Hlt'|[->|Hgt]]; nia.
Qed.

Lemma passes_S cfg env k s :
  passes cfg env (S k) s = (loop_iteration cfg env (passes cfg env k s)).2.
Proof. done. Qed.

(** After [k] passes that returned, each counter has made [k] steps. *)
Lemma passes_counters cfg env s k :
  (forall j, j < k -> (loop_body cfg env (passes cfg env j s)).1 = Ok tt) ->
  health_check_counter (passes cfg env k s)
  = Nat.iter k (tick (health_check_interval cfg)) (health_check_counter s)
  /\ auto_patch_counter (passes cfg env k s)
     = Nat.iter k (tick (auto_patch_interval cfg)) (auto_patch_counter s)
  /\ monitor_counter (passes cfg env k s)
     = Nat.iter k (tick (resource_monitor_interval cfg)) (monitor_counter s)
  /\ clock (world s) + k <= clock (world (passes cfg env k s)).
Proof.
  induction k as [|k IH]; intros Hok.
  - simpl. repeat split. lia.
  - destruct IH as (Hh & Ha & Hm & Hc); [intros j Hj; apply Hok; lia|].
    rewrite passes_S, !Nat.iter_succ. rewrite <- Hh, <- Ha, <- Hm.
    specialize (Hok k (Nat.lt_succ_diag_r k)).
    pose proof (loop_body_stages cfg env (passes cfg env k s)) as Hst.
    unfold loop_iteration.
    destruct (loop_body cfg env (passes cfg env k s)) as [[[]|e] s1]; [|done].
    cbn [snd]. destruct Hst as (? & ? & ? & ?). repeat split; try done. lia.
Qed.

(** X8. The schedule of the periodic activities.  Starting with the three
    counters at 0, as the constructor leaves them, after [k] passes that
    all returned an activity with interval [i >= 1] is due at the next pass
    if and only if [k] is a positive multiple of [i]: it runs in passes
    [i + 1], [2 i + 1], ... and in no other; [k] passes take at least [k]
    time units. *)
Theorem activity_schedule (cfg : Config) (env : Env) (s : System) (k : nat) :
  health_check_counter s = 0 -> auto_patch_counter s = 0 -> monitor_counter s = 0 ->
  (forall j, j < k -> (loop_body cfg env (passes cfg env j s)).1 = Ok tt) ->
  let s' := passes cfg env k s in
  (1 <= health_check_interval cfg ->
   (health_check_interval cfg <= health_check_counter s'
    <-> exists q, 1 <= q /\ k = q * health_check_interval cfg))
  /\ (1 <= auto_patch_interval cfg ->
      (auto_patch_interval cfg <= auto_patch_counter s'
       <-> exists q, 1 <= q /\ k = q * auto_patch_interval cfg))
  /\ (1 <= resource_monitor_interval cfg ->
      (resource_monitor_interval cfg <= monitor_counter s'
       <-> exists q, 1 <= q /\ k = q * resource_monitor_interval cfg))
  /\ clock (world s) + k <= clock (world s').
Proof.
  intros Hh0 Ha0 Hm0 Hok. cbv zeta.
  destruct (passes_counters cfg env s k Hok) as (-> & -> & -> & Hc).
  rewrite Hh0, Ha0, Hm0.
  split; [apply iter_tick_due|]. split; [apply iter_tick_due|].
  split; [apply iter_tick_due | exact Hc].
Qed.

Lemma activity_schedule_witness :
  health_check_interval alpha_cfg
  <= health_check_counter (passes alpha_cfg quiet_env 10 fresh).
Proof.
  destruct (activity_schedule alpha_cfg quiet_env fresh 10) as (Hh & _);
    [reflexivity | reflexivity | reflexivity | |].
  - intros j Hj. do 10 (destruct j as [|j]; [vm_compute; reflexivity|]). lia.
  - apply Hh; [simpl; lia|]. exists 1. split; [lia | reflexivity].
Defined.

(** ** The shutdown signal ends the loop *)

(** A pass through the loop takes time, unless it ends the loop. *)
Lemma loop_iteration_progress cfg env s :
  clock (world s) + 1 <= clock (world (loop_iteration cfg env s).2)
  \/ running (loop_iteration cfg env s).2 = false.
Proof.
  unfold loop_iteration.
  pose proof (loop_body_stages cfg env s) as Hst.
  pose proof (loop_body_later cfg env s) as Hl. unfold later in Hl.
  destruct (loop_body cfg env s) as [[[]|[msg|]] s1]; cbn [fst snd] in *.
  - left. by destruct Hst as (_ & _ & _ & ?).
  - left. unfold bind, logger, sleep, modify. simpl. lia.
  - by right.
Qed.

(** What the loop head does with a pending signal. *)
Lemma deliver_signal_run env s :
  deliver_signal env s
  = match shutdown_at env with
    | Some t =>
        if running s && bool_decide (t <= clock (world s))
        then (Ok tt, set_running false (logger LogShutdownSignal s).2)
        else (Ok tt, s)
    | None => (Ok tt, s)
    end.
Proof.
  unfold deliver_signal, bind, get. destruct (shutdown_at env) as [t|]; [|done].
  by destruct (running s && bool_decide (t <= clock (world s))).
Qed.

(** Once [running] is false the loop is left at its next head. *)
Lemma while_running_stopped cfg env fuel s :
  running s = false -> while_running cfg env (S fuel) s = (Ok Exited, s).
Proof.
  intros Hrun. rewrite while_running_S, deliver_signal_run, Hrun. simpl.
  destruct (shutdown_at env); simpl; by rewrite Hrun.
Qed.

Lemma while_running_signal cfg env t fuel s :
  shutdown_at env = Some t ->
  t <= clock (world s) + fuel ->
  (while_running cfg env (S fuel) s).1 = Ok Exited.
Proof.
  intros Hsig. revert s. induction fuel as [|fuel IH]; intros s Hfuel.
  - destruct (running s) eqn:Hrun; [|by rewrite while_running_stopped].
    rewrite while_running_S, deliver_signal_run, Hsig, Hrun.
    rewrite bool_decide_eq_true_2 by lia. done.
  - destruct (running s) eqn:Hrun; [|by rewrite while_running_stopped].
    rewrite while_running_S, deliver_signal_run, Hsig, Hrun.
    case_bool_decide as Ht; [done|]. cbn [andb snd]. rewrite Hrun.
    destruct (loop_iteration_progress cfg env s) as [Hc|Hstop].
    + apply IH. lia.
    + by rewrite while_running_stopped.
Qed.

(** X9. A shutdown signal ends the program.  If SIGINT or SIGTERM arrives
    at time [t], the loop started at time [now] is left after at most
    [t - now + 1] passes, whatever the passes do (every pass takes at least
    one time unit or ends the loop itself); the flag [running] is then false.
    Hence [main] does not stay in the loop: it returns, or ends with the
    exception that the start-up or the shutdown sequence raised. *)
Theorem signal_ends_loop (cfg : Config) (env : Env) (t : nat) :
  shutdown_at env = Some t ->
  (forall fuel s,
      t <= clock (world s) + fuel ->
      (while_running cfg env (S fuel) s).1 = Ok Exited
      /\ running (while_running cfg env (S fuel) s).2 = false)
  /\ (forall fuel s, t < fuel -> (main cfg env fuel s).1 <> Looping).
Proof.
  intros Hsig. split.
  - intros fuel s Hfuel.
    pose proof (while_running_signal cfg env t fuel s Hsig Hfuel) as Hend.
    split; [exact Hend|]. by apply while_running_ends.
  - intros fuel s Hfuel. rewrite main_run.
    destruct (makedirs env) as [[]|[msg|]]; [|done|done].
    rewrite run_persistent_loop_run.
    destruct (train_agents env (constructed s)) as [[b|[msg|]] s1]; [|done|done].
    destruct (start_all_services cfg env s1) as [[[]|[msg|]] s2]; [|done|done].
    destruct fuel as [|fuel]; [lia|].
    pose proof (while_running_signal cfg env t fuel
                  (set_counters 0 0 0 (sleep 10 s2).2) Hsig) as Hend.
    destruct (while_running cfg env (S fuel) _) as [[[|]|[msg|]] s4]; simpl in *.
    + by destruct (graceful_shutdown s4) as [[[]|[msg|]] s5].
    + assert (Ok StillLooping = Ok Exited) by (apply Hend; lia). done.
    + done.
    + done.
Qed.

Lemma signal_ends_loop_witness :
  (main alpha_cfg (signal_at 20) 21 fresh).1 <> Looping.
Proof.
  destruct (signal_ends_loop alpha_cfg (signal_at 20) 20) as [_ Hmain]; [reflexivity|].
  apply Hmain. lia.
Defined.

(** ** Processes without a handle *)

Lemma leaves_alone_refl p s : leaves_alone p s s.
Proof. by intros H. Qed.

Lemma leaves_alone_trans p s1 s2 s3 :
  leaves_alone p s1 s2 -> leaves_alone p s2 s3 -> leaves_alone p s1 s3.
Proof.
  intros H12 H23 H1. destruct (H12 H1) as [H2 E12]. destruct (H23 H2) as [H3 E23].
  split; [done | congruence].
Qed.

Lemma reach_kept_alone p s s' : reach_kept s s' -> leaves_alone p s s'.
Proof. intros [Hp Ht] [Hlt Hno]. unfold unhandled. by rewrite Hp, Ht. Qed.

Lemma reach_kept_refl s : reach_kept s s.
Proof. by split. Qed.

Lemma reach_kept_trans s1 s2 s3 : reach_kept s1 s2 -> reach_kept s2 s3 -> reach_kept s1 s3.
Proof. intros [? ?] [? ?]. split; congruence. Qed.

(** Discharge the premises of a lemma of [Methods] for [reach_kept]:
    logging, sleeping and external calls. *)
Ltac reach_premises :=
  first [ apply reach_kept_refl | apply reach_kept_trans
        | intros ? ?; by split | intros ?; by split ].

Lemma _check_service_health_alone p env service_name config :
  preserves (leaves_alone p) (_check_service_health env service_name config).
Proof.
  intros s. apply reach_kept_alone.
  apply _check_service_health_preserves with (R := reach_kept); reach_premises.
Qed.

Lemma check_system_health_alone p cfg env :
  preserves (leaves_alone p) (check_system_health cfg env).
Proof.
  intros s. apply reach_kept_alone.
  apply check_system_health_preserves with (R := reach_kept); reach_premises.
Qed.

Lemma optimize_memory_alone p env n : preserves (leaves_alone p) (optimize_memory env n).
Proof.
  intros s. apply reach_kept_alone.
  apply optimize_memory_preserves with (R := reach_kept); reach_premises.
Qed.

Lemma train_agents_alone p env : preserves (leaves_alone p) (train_agents env).
Proof.
  intros s. apply reach_kept_alone.
  apply train_agents_preserves with (R := reach_kept); reach_premises.
Qed.

Lemma monitor_and_report_alone p cfg env :
  preserves (leaves_alone p) (monitor_and_report cfg env).
Proof.
  intros s. apply reach_kept_alone.
  apply monitor_and_report_preserves with (R := reach_kept); reach_premises.
Qed.

Lemma logger_alone p e : preserves (leaves_alone p) (logger e).
Proof. intros s. by apply reach_kept_alone. Qed.

Lemma sleep_alone p n : preserves (leaves_alone p) (sleep n).
Proof. intros s. by apply reach_kept_alone. Qed.

(** [stop_service] signals the process of the handle it finds under the
    name, and no other. *)
Lemma stop_service_ptable service_name s p :
  processes s !! service_name <> Some (mkPopen p) ->
  ptable (world (stop_service service_name s).2) !! p = ptable (world s) !! p.
Proof.
  intros Hne.
  unfold stop_service, try_except_Exception, poll_is_None, logger, terminate, sleep, kill,
    modify, bind, get, ret.
  simpl. destruct (processes s !! service_name) as [[q]|]; simpl; [|done].
  assert (Hq : q <> p) by (intros ->; by apply Hne).
  destruct (alive (world s) q); simpl; [|done].
  match goal with |- context [if ?b then _ else _] => destruct b end; simpl;
    by rewrite ?list_lookup_alter_ne.
Qed.

Lemma stop_service_alone p service_name : preserves (leaves_alone p) (stop_service service_name).
Proof.
  intros s [Hlt Hno]. split; [split|].
  - destruct (stop_service_no_launch service_name s) as (_ & Hlen & _). lia.
  - intros n. destruct (stop_service_returns service_name s) as [_ ->].
    destruct (decide (n = service_name)) as [->|Hn].
    + by rewrite lookup_delete_eq.
    + rewrite lookup_delete_ne by done. apply Hno.
  - apply stop_service_ptable, Hno.
Qed.

Lemma clean_up_zombies_alone p : preserves (leaves_alone p) clean_up_zombies.
Proof.
  intros s [Hlt Hno]. destruct (clean_up_zombies_spec s) as (_ & [_ Ht] & Hp).
  unfold unhandled. rewrite Ht. split; [split; [done|] | done].
  intros n. rewrite Hp. specialize (Hno n). destruct (processes s !! n) as [h|]; [|done].
  simpl. by destruct (alive (world s) (pid h)).
Qed.

(** A launch gives the new process a pid that was not in the table. *)
Lemma start_service_alone p env service_name config :
  preserves (leaves_alone p) (start_service env service_name config).
Proof.
  intros s [Hlt Hno].
  pose proof (start_service_state env service_name config s) as Hst. cbv zeta in Hst.
  destruct (popen env service_name (calls (world s))) as [b|e];
    destruct Hst as (Hp & _ & Ht); unfold unhandled; rewrite Ht.
  - split; [split|].
    + rewrite length_app. lia.
    + intros n. rewrite Hp. destruct (decide (n = service_name)) as [->|Hn].
      * rewrite lookup_insert_eq. intros [= Heq]. lia.
      * rewrite lookup_insert_ne by done. apply Hno.
    + by rewrite lookup_app_l.
  - split; [split; [done|] | done]. intros n. rewrite Hp. apply Hno.
Qed.

Lemma restart_service_alone p env service_name config :
  preserves (leaves_alone p) (restart_service env service_name config).
Proof.
  intros s. rewrite restart_service_run. cbv zeta.
  set (s0 := (logger (LogRestarting service_name) s).2).
  set (s1 := (stop_service service_name s0).2).
  set (s1' := set_restart_counts _ s1).
  set (s2 := (sleep 2 s1').2).
  assert (H2 : leaves_alone p s s2).
  { eapply leaves_alone_trans; [apply (logger_alone p)|]. fold s0.
    eapply leaves_alone_trans; [apply (stop_service_alone p)|]. fold s1.
    by apply reach_kept_alone. }
  pose proof (start_service_alone p env service_name config s2) as H3.
  destruct (start_service env service_name config s2) as [[success|e] s3]; cbn [snd] in *.
  - eapply leaves_alone_trans; [exact H2|]. eapply leaves_alone_trans; [exact H3|].
    by apply reach_kept_alone.
  - by eapply leaves_alone_trans.
Qed.

(** Break a method into the operations that are known to leave the
    process alone. *)
Ltac alone_step :=
  first
    [ apply logger_alone | apply sleep_alone | apply stop_service_alone
    | apply start_service_alone | apply restart_service_alone | apply clean_up_zombies_alone
    | apply _check_service_health_alone | apply check_system_health_alone
    | apply optimize_memory_alone | apply train_agents_alone | apply monitor_and_report_alone
    | apply preserves_ret; apply leaves_alone_refl
    | apply preserves_raise; apply leaves_alone_refl
    | apply preserves_get; apply leaves_alone_refl
    | apply preserves_modify; intros ?; by apply reach_kept_alone
    | apply preserves_for_each; [apply leaves_alone_refl | apply leaves_alone_trans | intros ?]
    | apply preserves_for_fold; [apply leaves_alone_refl | apply leaves_alone_trans | intros ? ?]
    | apply preserves_bind; [apply leaves_alone_trans | | intros ?]
    | match goal with |- preserves _ (let '(_, _) := ?x in _) => destruct x end
    | match goal with |- preserves _ (match ?b with _ => _ end) => destruct b end ].

Ltac alone := repeat alone_step.

Lemma patch_service_alone p env n item : preserves (leaves_alone p) (patch_service env n item).
Proof. unfold patch_service. alone. Qed.

Lemma heal_alone p cfg env item : preserves (leaves_alone p) (heal cfg env item).
Proof. unfold heal. alone. Qed.

Lemma auto_patch_system_alone p cfg env : preserves (leaves_alone p) (auto_patch_system cfg env).
Proof.
  unfold auto_patch_system. repeat first [ apply patch_service_alone | alone_step ].
Qed.

Lemma health_checks_alone p cfg env : preserves (leaves_alone p) (health_checks cfg env).
Proof. unfold health_checks. repeat first [ apply heal_alone | alone_step ]. Qed.

Lemma start_all_services_alone p cfg env :
  preserves (leaves_alone p) (start_all_services cfg env).
Proof. unfold start_all_services. alone. Qed.

Lemma graceful_shutdown_alone p : preserves (leaves_alone p) graceful_shutdown.
Proof. unfold graceful_shutdown, stop_each. alone. Qed.

Lemma loop_body_alone p cfg env : preserves (leaves_alone p) (loop_body cfg env).
Proof.
  unfold loop_body.
  repeat first [ apply health_checks_alone | apply auto_patch_system_alone | alone_step ].
Qed.

Lemma loop_iteration_alone p cfg env : preserves (leaves_alone p) (loop_iteration cfg env).
Proof.
  intros s. unfold loop_iteration.
  pose proof (loop_body_alone p cfg env s) as Hb.
  destruct (loop_body cfg env s) as [[[]|[msg|]] s1]; cbn [snd] in *; [done| |].
  - eapply leaves_alone_trans; [exact Hb|].
    assert (H : preserves (leaves_alone p)
                  (logger (LogLoopError (Exception msg)) ;;; sleep 5)) by alone.
    apply (H s1).
  - eapply leaves_alone_trans; [exact Hb|].
    assert (H : preserves (leaves_alone p)
                  (logger LogKeyboardInterrupt ;;; modify (set_running false))) by alone.
    apply (H s1).
Qed.

Lemma _signal_handler_alone p : preserves (leaves_alone p) _signal_handler.
Proof. unfold _signal_handler. alone. Qed.

Lemma deliver_signal_alone p env : preserves (leaves_alone p) (deliver_signal env).
Proof. unfold deliver_signal. repeat first [ apply _signal_handler_alone | alone_step ]. Qed.

Lemma while_running_alone p cfg env fuel : preserves (leaves_alone p) (while_running cfg env fuel).
Proof.
  induction fuel as [|fuel IH]; intros s; [apply leaves_alone_refl|].
  rewrite while_running_S.
  pose proof (deliver_signal_alone p env s) as Hd.
  destruct (running (deliver_signal env s).2); [|done].
  eapply leaves_alone_trans; [exact Hd|].
  eapply leaves_alone_trans; [apply loop_iteration_alone | apply IH].
Qed.

Lemma run_persistent_loop_alone p cfg env fuel :
  preserves (leaves_alone p) (run_persistent_loop cfg env fuel).
Proof.
  unfold run_persistent_loop.
  repeat first [ apply while_running_alone | apply start_all_services_alone
               | apply graceful_shutdown_alone | alone_step ].
Qed.

(** X10. The supervisor reaches a process only through a stored handle.
    Whatever method runs, a process of the table to which no handle refers
    gets no handle and no signal: its entry in the process table is as it
    was, so it ends only by itself.  This holds for every method and for the
    shutdown sequence; and since the constructor starts with no handle, no
    process that exists when [main] is called is ever signalled by it. *)
Theorem unhandled_left_alone (cfg : Config) (env : Env) (p : nat) (s : System) :
  (unhandled p s ->
   (forall op,
       unhandled p (perform cfg env op s)
       /\ ptable (world (perform cfg env op s)) !! p = ptable (world s) !! p)
   /\ unhandled p (graceful_shutdown s).2
   /\ ptable (world (graceful_shutdown s).2) !! p = ptable (world s) !! p)
  /\ (p < length (ptable (world s)) ->
      forall fuel, ptable (world (main cfg env fuel s).2) !! p = ptable (world s) !! p).
Proof.
  split.
  - intros Hun. split; [|by apply graceful_shutdown_alone].
    intros op. destruct op; simpl.
    + by apply _signal_handler_alone.
    + by apply check_system_health_alone.
    + by apply _check_service_health_alone.
    + by apply start_service_alone.
    + by apply stop_service_alone.
    + by apply restart_service_alone.
    + by apply auto_patch_system_alone.
    + by apply train_agents_alone.
    + by apply start_all_services_alone.
    + by apply monitor_and_report_alone.
    + by apply loop_iteration_alone.
    + by apply run_persistent_loop_alone.
  - intros Hlt fuel. rewrite main_run.
    assert (Hc : unhandled p (constructed s)).
    { split; [exact Hlt|]. intros n. simpl. by rewrite lookup_empty. }
    pose proof (run_persistent_loop_alone p cfg env fuel (constructed s) Hc) as [_ Hrun].
    destruct (makedirs env) as [[]|[msg|]]; [|done|done].
    by destruct (run_persistent_loop cfg env fuel (constructed s)) as [[[|]|[msg|]] s1].
Qed.

Lemma unhandled_left_alone_witness :
  ptable (world (perform alpha_cfg quiet_env (OpRestartService "alpha" alpha_config) orphaned)) !! 0
  = ptable (world orphaned) !! 0
  /\ ptable (world (main alpha_cfg (signal_at 20) 21 started).2) !! 0
     = ptable (world started) !! 0.
Proof.
  destruct (unhandled_left_alone alpha_cfg quiet_env 0 orphaned) as [Hop _].
  destruct (unhandled_left_alone alpha_cfg (signal_at 20) 0 started) as [_ Hmain].
  split.
  - apply Hop. split; [vm_compute; lia|]. intros n. simpl. by rewrite lookup_empty.
  - apply Hmain. vm_compute. lia.
Defined.

(** X11. [start_service] has no guard against a second start.  Called
    for a name whose handle belongs to a live process that does not end by
    itself, it launches a new process and overwrites the handle: the first
    process keeps running with no handle left, and the shutdown sequence,
    which empties [processes], leaves it running.  ([restart_service] stops
    the service first, and [start_all_services] starts each name once.) *)
Theorem start_service_overwrites (env : Env) (service_name : string)
    (config : ServiceConfig) (old : Popen) (pr : Proc) (b : Behaviour) (s : System) :
  processes s !! service_name = Some old ->
  (forall other, other <> service_name -> processes s !! other <> Some old) ->
  ptable (world s) !! pid old = Some pr ->
  exit_at pr = None ->
  popen env service_name (calls (world s)) = Ok b ->
  let s1 := (start_service env service_name config s).2 in
  let s2 := (graceful_shutdown s1).2 in
  processes s1 !! service_name = Some (mkPopen (length (ptable (world s))))
  /\ unhandled (pid old) s1
  /\ alive (world s1) (pid old) = true
  /\ processes s2 = ∅
  /\ alive (world s2) (pid old) = true.
Proof.
  intros Hold Huniq Hpr Hnone Hpopen. cbv zeta.
  pose proof (start_service_state env service_name config s) as Hst. cbv zeta in Hst.
  rewrite Hpopen in Hst. destruct Hst as (Hp & _ & Ht).
  set (s1 := (start_service env service_name config s).2) in *.
  assert (Hlt : pid old < length (ptable (world s))) by by eapply lookup_lt_Some.
  assert (Hentry : ptable (world s1) !! pid old = Some pr).
  { by rewrite Ht, lookup_app_l. }
  assert (Hun : unhandled (pid old) s1).
  { split; [rewrite Ht, length_app; lia|]. intros n. rewrite Hp.
    destruct (decide (n = service_name)) as [->|Hn].
    - rewrite lookup_insert_eq. intros [= Heq]. lia.
    - rewrite lookup_insert_ne by done. destruct old as [q]. by apply Huniq. }
  destruct (graceful_shutdown_alone (pid old) s1 Hun) as [_ Hsame].
  destruct (graceful_shutdown_spec s1) as (_ & Hempty & _).
  split; [by rewrite Hp, lookup_insert_eq|]. split; [exact Hun|].
  split; [by unfold alive; rewrite Hentry, Hnone|].
  split; [exact Hempty|]. by unfold alive; rewrite Hsame, Hentry, Hnone.
Qed.

Lemma start_service_overwrites_witness :
  alive (world (graceful_shutdown (start_service quiet_env "alpha" alpha_config started).2).2) 0
  = true.
Proof.
  apply (start_service_overwrites quiet_env "alpha" alpha_config (mkPopen 0)
           (mkProc None (Some 1)) (mkBehaviour None (Some 1)) started).
  - vm_compute. reflexivity.
  - intros other Hne. unfold started. rewrite start_service_other by done.
    simpl. by rewrite lookup_empty.
  - vm_compute. reflexivity.
  - reflexivity.
  - reflexivity.
Defined.

(** ** How long the shutdown sequence takes *)

Lemma stop_each_cons x names s :
  stop_each (x :: names) s = stop_each names (stop_service x s).2.
Proof.
  unfold stop_each. cbn [for_each]. unfold bind at 1 2, ret.
  destruct (stop_service_returns x s) as [Hok _].
  destruct (stop_service x s) as [r s1]. simpl in Hok. by subst r.
Qed.

Lemma graceful_shutdown_state s :
  let s0 := (logger LogShuttingDown s).2 in
  (graceful_shutdown s).2
  = (logger LogShutdownComplete (stop_each (process_names s0) s0).2).2.
Proof.
  cbv zeta.
  assert (Heq : graceful_shutdown s
                = match stop_each (process_names (logger LogShuttingDown s).2)
                                  (logger LogShuttingDown s).2 with
                  | (Ok _, s1) => logger LogShutdownComplete s1
                  | (Raise e, s1) => (Raise e, s1)
                  end) by reflexivity.
  rewrite Heq.
  destruct (stop_each_spec (process_names (logger LogShuttingDown s).2)
              (logger LogShuttingDown s).2) as (Hok & _).
  destruct (stop_each _ _) as [r s1]. simpl in Hok. by subst r.
Qed.

Lemma stop_service_later service_name : preserves later (stop_service service_name).
Proof. intros s. by destruct (stop_service_no_launch service_name s) as (_ & _ & ?). Qed.

(** Stopping a live process takes the two time units of the grace
    period at least. *)
Lemma stop_service_alive_duration service_name process s :
  processes s !! service_name = Some process ->
  alive (world s) (pid process) = true ->
  clock (world s) + 2 <= clock (world (stop_service service_name s).2).
Proof.
  intros Hp Hup.
  unfold stop_service, try_except_Exception, poll_is_None, logger, terminate, sleep, kill,
    modify, bind, get, ret.
  simpl. rewrite Hp. simpl. rewrite Hup. simpl.
  match goal with |- context [if ?b then _ else _] => destruct b end; simpl; lia.
Qed.

Lemma stop_each_duration names s :
  clock (world s) <= clock (world (stop_each names s).2)
  /\ clock (world (stop_each names s).2) <= clock (world s) + 3 * length names.
Proof.
  revert s. induction names as [|x names IH]; intros s; [simpl; lia|].
  rewrite stop_each_cons. destruct (IH (stop_service x s).2) as [IH1 IH2].
  pose proof (stop_service_duration x s). pose proof (stop_service_later x s) as Hl.
  unfold later in Hl. simpl length. lia.
Qed.

Lemma stop_each_all_gone names s :
  (forall service_name process,
      processes s !! service_name = Some process -> alive (world s) (pid process) = false) ->
  clock (world (stop_each names s).2) = clock (world s).
Proof.
  revert s. induction names as [|x names IH]; intros s Hgone; [done|].
  rewrite stop_each_cons.
  destruct (processes s !! x) as [h|] eqn:Hx.
  - rewrite (stop_service_gone x h s Hx (Hgone x h Hx)). cbn [snd].
    rewrite IH; [done|]. intros n process. simpl.
    destruct (decide (n = x)) as [->|Hn]; [by rewrite lookup_delete_eq|].
    rewrite lookup_delete_ne by done. intros Hn'. by apply (Hgone n).
  - assert (Hs : stop_service x s = (Ok true, s)).
    { unfold stop_service, bind, get. simpl. by rewrite Hx. }
    rewrite Hs. by apply IH.
Qed.

Lemma stop_each_some_alive names s service_name process pr :
  service_name ∈ names ->
  processes s !! service_name = Some process ->
  ptable (world s) !! pid process = Some pr ->
  exit_at pr = None ->
  clock (world s) + 2 <= clock (world (stop_each names s).2).
Proof.
  revert s. induction names as [|x names IH]; intros s Hin Hp Hpr Hnone.
  { by apply elem_of_nil in Hin. }
  rewrite stop_each_cons.
  destruct (stop_each_duration names (stop_service x s).2) as [Hmono _].
  pose proof (stop_service_later x s) as Hl. unfold later in Hl.
  assert (Hcases : processes s !! x = Some process \/ processes s !! x <> Some process).
  { destruct process as [q]. destruct (processes s !! x) as [[q']|]; [|by right].
    destruct (decide (q' = q)) as [->|Hq]; [by left | right; congruence]. }
  destruct Hcases as [Hx|Hx].
  - pose proof (stop_service_alive_duration x process s Hx) as Hd.
    rewrite Hd; [lia|]. unfold alive. by rewrite Hpr, Hnone.
  - assert (Hne : service_name <> x) by (intros ->; done).
    apply elem_of_cons in Hin as [?|Hin]; [done|].
    transitivity (clock (world (stop_service x s).2) + 2); [lia|].
    apply (IH _ Hin).
    + destruct (stop_service_returns x s) as [_ ->]. by rewrite lookup_delete_ne.
    + rewrite stop_service_ptable; [done|]. by destruct process.
    + done.
Qed.

(** X12. How long the shutdown sequence takes: never more than 3 time
    units for each stored handle; no time at all when every stored process is
    gone already; and at least the 2 time units of a grace period as soon as a
    stored handle belongs to a process that does not end by itself. *)
Theorem graceful_shutdown_duration (s : System) :
  let s' := (graceful_shutdown s).2 in
  clock (world s) <= clock (world s')
  /\ clock (world s') <= clock (world s) + 3 * size (processes s)
  /\ ((forall service_name process,
          processes s !! service_name = Some process ->
          alive (world s) (pid process) = false) ->
      clock (world s') = clock (world s))
  /\ (forall service_name process pr,
         processes s !! service_name = Some process ->
         ptable (world s) !! pid process = Some pr ->
         exit_at pr = None ->
         clock (world s) + 2 <= clock (world s')).
Proof.
  cbv zeta. rewrite graceful_shutdown_state. cbv zeta.
  set (s0 := (logger LogShuttingDown s).2).
  destruct (stop_each_duration (process_names s0) s0) as [Hlo Hhi].
  assert (Hlen : length (process_names s0) = size (processes s)).
  { unfold process_names. rewrite length_fmap. apply length_map_to_list. }
  rewrite Hlen in Hhi. simpl in *.
  split; [done|]. split; [done|]. split.
  - intros Hgone. by rewrite (stop_each_all_gone (process_names s0) s0).
  - intros n process pr Hp Hpr Hnone.
    apply (stop_each_some_alive (process_names s0) s0 n process pr); try done.
    apply elem_of_process_names. by exists process.
Qed.

Lemma graceful_shutdown_duration_witness :
  clock (world started) + 2 <= clock (world (graceful_shutdown started).2).
Proof.
  destruct (graceful_shutdown_duration started) as (_ & _ & _ & Hlow).
  apply (Hlow "alpha" (mkPopen 0) (mkProc None (Some 1))).
  - vm_compute. reflexivity.
  - vm_compute. reflexivity.
  - reflexivity.
Defined.

(** * The orchestrator *)

Lemma never_later_refl s : never_later s s.
Proof. by intros t p. Qed.

Lemma never_later_trans s1 s2 s3 :
  never_later s1 s2 -> never_later s2 s3 -> never_later s1 s3.
Proof. intros H12 H23 t p H. by apply H12, H23. Qed.

Lemma alive_at_mono t t' w p : t <= t' -> alive_at t' w p = true -> alive_at t w p = true.
Proof.
  unfold alive_at. intros Hle. destruct (ptable w !! p); [|done]. by apply before_mono.
Qed.

Lemma terminate_never_later process : preserves never_later (terminate process).
Proof.
  intros s t p. unfold alive_at. simpl. rewrite list_lookup_alter.
  destruct (decide (pid process = p)) as [->|]; [|done].
  destruct (ptable (world s) !! p) as [pr|]; simpl; [|done].
  unfold deliver_term. destruct (on_term pr); simpl; [|done].
  intros H. by apply before_earliest in H as [H _].
Qed.

Lemma kill_after_never_later latency process :
  preserves never_later (MultiSystemOrchestrator.kill_after latency process).
Proof.
  intros s t p. unfold alive_at. simpl. rewrite list_lookup_alter.
  destruct (decide (pid process = p)) as [->|]; [|done].
  destruct (ptable (world s) !! p) as [pr|]; simpl; [|done].
  intros H. by apply before_earliest in H as [H _].
Qed.

(** A killed process is gone when the latency has passed. *)
Lemma kill_after_gone latency process s :
  alive_at (clock (world s) + latency)
           (world (MultiSystemOrchestrator.kill_after latency process s).2) (pid process)
  = false.
Proof.
  unfold alive_at. simpl. rewrite list_lookup_alter_eq.
  destruct (ptable (world s) !! pid process) as [pr|]; simpl; [|done].
  apply not_true_is_false. intros H. apply before_earliest in H as [_ H]. lia.
Qed.

Lemma before_earliest_2 t a b : before t a = true -> t < b -> before t (earliest a b) = true.
Proof.
  destruct a as [x|]; simpl; intros H Hlt; apply bool_decide_eq_true; [|lia].
  apply bool_decide_eq_true in H. lia.
Qed.

(** One turn of the loop of [shutdown], computed. *)
Lemma shutdown_one_run latency system_name process s :
  let s3 := (sleep 2 (terminate process (logger (LogStopping system_name) s).2).2).2 in
  MultiSystemOrchestrator.shutdown_one latency (system_name, process) s
  = (Ok tt,
     if alive (world s3) (pid process)
     then (MultiSystemOrchestrator.kill_after latency process s3).2
     else s3).
Proof.
  cbv zeta.
  unfold MultiSystemOrchestrator.shutdown_one, try_except, bind, poll_is_None, get, ret.
  simpl. by match goal with |- context [if ?b then _ else _] => destruct b end.
Qed.

Lemma shutdown_one_spec latency system_name process s :
  let s' := (MultiSystemOrchestrator.shutdown_one latency (system_name, process) s).2 in
  processes s' = processes s
  /\ clock (world s') = clock (world s) + 2
  /\ alive_at (clock (world s') + latency) (world s') (pid process) = false
  /\ never_later s s'
  /\ (forall p, p <> pid process -> ptable (world s') !! p = ptable (world s) !! p).
Proof.
  cbv zeta. rewrite shutdown_one_run. cbv zeta.
  set (s1 := (logger (LogStopping system_name) s).2).
  set (s2 := (terminate process s1).2).
  set (s3 := (sleep 2 s2).2).
  assert (Hlater3 : never_later s s3).
  { eapply never_later_trans; [|apply (terminate_never_later process s1)]. by intros t p. }
  assert (Hother : forall p, p <> pid process -> ptable (world s3) !! p = ptable (world s) !! p).
  { intros p Hp. simpl. by rewrite list_lookup_alter_ne. }
  destruct (alive (world s3) (pid process)) eqn:Hup; cbn [snd].
  - split; [done|]. split; [done|]. split; [apply (kill_after_gone latency process s3)|].
    split.
    + eapply never_later_trans; [exact Hlater3 | apply kill_after_never_later].
    + intros p Hp. rewrite <- (Hother p Hp). simpl. by rewrite list_lookup_alter_ne.
  - split; [done|]. split; [done|]. split; [|by split].
    apply not_true_is_false. intros H.
    apply (alive_at_mono (clock (world s3))) in H; [|lia].
    unfold alive in Hup. unfold alive_at in H. congruence.
Qed.

Lemma shutdown_each_spec latency (l : list (string * Popen)) (s : System) :
  let s' := (for_each l (MultiSystemOrchestrator.shutdown_one latency) s).2 in
  (for_each l (MultiSystemOrchestrator.shutdown_one latency) s).1 = Ok tt
  /\ processes s' = processes s
  /\ clock (world s') = clock (world s) + 2 * length l
  /\ never_later s s'
  /\ (forall item, item ∈ l ->
        alive_at (clock (world s') + latency) (world s') (pid item.2) = false)
  /\ (forall p, (forall item, item ∈ l -> pid item.2 <> p) ->
                ptable (world s') !! p = ptable (world s) !! p).
Proof.
  cbv zeta. revert s. induction l as [|[n h] l IH]; intros s.
  - simpl. split; [done|]. split; [done|]. split; [lia|]. split; [apply never_later_refl|].
    split; [|done]. intros item Hin. by apply elem_of_nil in Hin.
  - rewrite for_each_cons_run.
    destruct (shutdown_one_spec latency n h s) as (Hp & Hc & Hgone & Hlater & Hother).
    pose proof (shutdown_one_run latency n h s) as Hrun. cbv zeta in Hrun.
    destruct (MultiSystemOrchestrator.shutdown_one latency (n, h) s) as [r s1].
    injection Hrun as -> _. cbn [snd] in *.
    destruct (IH s1) as (IH1 & IH2 & IH3 & IH4 & IH5 & IH6).
    split; [exact IH1|]. split; [congruence|]. split; [simpl length; lia|].
    split; [by eapply never_later_trans|]. split.
    + intros item Hin. apply elem_of_cons in Hin as [->|Hin]; [|by apply IH5].
      apply not_true_is_false. intros Hup. apply IH4 in Hup. simpl in Hup.
      apply (alive_at_mono (clock (world s1) + latency)) in Hup; [congruence | lia].
    + intros p Hp'. rewrite IH6.
      * apply Hother. intros ->. by apply (Hp' (n, h)); [left|].
      * intros item Hin. apply Hp'. by right.
Qed.

(** X13. The orchestrator's [shutdown].  It never raises; it waits 2 time
    units for every stored handle, whether its process was running or not;
    the handles stay in [processes]; and a process to which the orchestrator
    has no handle, such as a service that the supervisor launched, gets no
    signal.  Every stored process has ended or has been sent SIGKILL, so all
    of them are gone once the latency of SIGKILL has passed after the return;
    but [shutdown] does not wait after [kill]: when SIGKILL takes any time, a
    single stored process that has not ended within the 2 time units after
    SIGTERM is still running when [shutdown] returns. *)
Theorem orchestrator_shutdown (latency : nat) (s : System) :
  let s' := (MultiSystemOrchestrator.shutdown latency s).2 in
  (MultiSystemOrchestrator.shutdown latency s).1 = Ok tt
  /\ processes s' = processes s
  /\ clock (world s') = clock (world s) + 2 * size (processes s)
  /\ (forall system_name process,
         processes s !! system_name = Some process ->
         alive (world (sleep latency s').2) (pid process) = false)
  /\ (forall p,
         (forall system_name, processes s !! system_name <> Some (mkPopen p)) ->
         ptable (world s') !! p = ptable (world s) !! p)
  /\ (forall system_name process pr,
         processes s = {[system_name := process]} ->
         ptable (world s) !! pid process = Some pr ->
         before (clock (world s) + 2) (exit_at (deliver_term (clock (world s)) pr)) = true ->
         0 < latency ->
         alive (world s') (pid process) = true).
Proof.
  cbv zeta.
  assert (Heq : MultiSystemOrchestrator.shutdown latency s
                = match for_each (map_to_list (processes s))
                          (MultiSystemOrchestrator.shutdown_one latency)
                          (logger LogShuttingDown s).2 with
                  | (Ok _, s1) => logger LogShutdownComplete s1
                  | (Raise e, s1) => (Raise e, s1)
                  end) by reflexivity.
  rewrite Heq. clear Heq.
  set (s0 := (logger LogShuttingDown s).2).
  split; [|split; [|split; [|split; [|split]]]].
  6:{ intros n h pr Hsingle Hpr Hstill Hlat. rewrite Hsingle, map_to_list_singleton.
      rewrite for_each_cons_run, shutdown_one_run. cbv zeta. cbn [for_each ret].
      assert (Hup : alive (world (sleep 2 (terminate h (logger (LogStopping n) s0).2).2).2)
                          (pid h) = true).
      { unfold alive. simpl. rewrite list_lookup_alter_eq, Hpr. simpl. exact Hstill. }
      rewrite Hup. unfold alive. simpl. rewrite !list_lookup_alter_eq, Hpr. simpl.
      apply before_earliest_2; [exact Hstill | lia]. }
  all: destruct (shutdown_each_spec latency (map_to_list (processes s)) s0)
         as (H1 & H2 & H3 & _ & H5 & H6);
       destruct (for_each _ _ s0) as [r s1]; cbn [fst snd] in *; subst r;
       rewrite length_map_to_list in H3.
  - done.
  - done.
  - done.
  - intros n h Hn. apply (H5 (n, h)). by apply elem_of_map_to_list.
  - intros p Hno. simpl. rewrite H6; [done|].
    intros [n [q]] Hin Hq. simpl in Hq. subst q.
    apply elem_of_map_to_list in Hin. by apply (Hno n).
Qed.

Lemma orchestrator_shutdown_witness :
  alive (world (MultiSystemOrchestrator.shutdown 1 orchestrated).2) 0 = true
  /\ alive (world (sleep 1 (MultiSystemOrchestrator.shutdown 1 orchestrated).2).2) 0 = false
  /\ ptable (world (MultiSystemOrchestrator.shutdown 1 orchestrated).2) !! 1
     = Some (mkProc None (Some 1)).
Proof.
  destruct (orchestrator_shutdown 1 orchestrated) as (_ & _ & _ & Hgone & Hother & Hstill).
  split; [|split].
  - apply (Hstill "valifi" (mkPopen 0) (mkProc None (Some 3))).
    + reflexivity.
    + reflexivity.
    + reflexivity.
    + lia.
  - apply (Hgone "valifi" (mkPopen 0)). vm_compute. reflexivity.
  - rewrite Hother; [reflexivity|].
    intros n. unfold orchestrated. simpl.
    destruct (decide (n = "valifi")) as [->|Hn].
    + rewrite lookup_singleton_eq. by intros [=].
    + by rewrite lookup_singleton_ne.
Defined.

(** One port of the orchestrator's health check, computed. *)
Lemma check_valifi_port_run env port s :
  MultiSystemOrchestrator.check_valifi_port env port s
  = (Ok match http_get env port HealthPath (calls (world s)) with
        | Response status_code => bool_decide (status_code = 200%Z)
        | _ => false
        end,
     after_calls 1 s).
Proof.
  unfold MultiSystemOrchestrator.check_valifi_port, requests_get, next_call, bind, ret,
    after_calls, set_world.
  simpl. destruct (http_get env port HealthPath (calls (world s))); repeat f_equal; lia.
Qed.

Lemma check_root_run env port s :
  MultiSystemOrchestrator.check_root env port s
  = (Ok match http_get env port RootPath (calls (world s)) with
        | Response status_code =>
            bool_decide (status_code = 200%Z) || bool_decide (status_code = 404%Z)
        | _ => false
        end,
     after_calls 1 s).
Proof.
  unfold MultiSystemOrchestrator.check_root, requests_get, next_call, bind, ret,
    after_calls, set_world.
  simpl. destruct (http_get env port RootPath (calls (world s))); repeat f_equal; lia.
Qed.

Lemma after_calls_after_calls n m s : after_calls n (after_calls m s) = after_calls (m + n) s.
Proof. unfold after_calls, set_world. simpl. f_equal. f_equal. lia. Qed.

(** X14. The orchestrator's health check and the supervisor's probe.  The
    orchestrator's check never raises, makes six requests and reports the
    four agent ports in their fixed order, then ComfyUI and blue_elites.  For
    an agent port it asks [/health] only: given the same answer there, a port
    the orchestrator calls healthy is healthy for the supervisor's probe, and
    the two disagree exactly when the request to [/health] raised and the
    supervisor's second request, to [/], was answered with 200 or 404. *)
Theorem health_checks_compared (env : Env) (service_name : string) (config : ServiceConfig)
    (s s0 : System) :
  (exists status,
      MultiSystemOrchestrator.check_system_health env s = (Ok status, after_calls 6 s)
      /\ (MultiSystemOrchestrator.valifi status).*1 = MultiSystemOrchestrator.valifi_ports
      /\ (MultiSystemOrchestrator.comfyui status).*1 = [8188%Z]
      /\ (MultiSystemOrchestrator.blue_elites status).*1 = [3000%Z])
  /\ (http_get env (port config) HealthPath (calls (world s)) = first_answer env config s0 ->
      exists ok h,
        MultiSystemOrchestrator.check_valifi_port env (port config) s = (Ok ok, after_calls 1 s)
        /\ probe env service_name config s0 = Ok h
        /\ (ok = true -> healthy h = true)
        /\ (healthy h = true /\ ok = false
            <-> raised (first_answer env config s0) = true
                /\ exists status_code,
                     second_answer env config s0 = Response status_code
                     /\ (status_code = 200 \/ status_code = 404)%Z)).
Proof.
  split.
  - unfold MultiSystemOrchestrator.check_system_health,
      MultiSystemOrchestrator.valifi_ports.
    cbn [for_fold]. unfold bind.
    rewrite check_valifi_port_run. cbn [ret app].
    rewrite check_valifi_port_run. cbn [ret app].
    rewrite check_valifi_port_run. cbn [ret app].
    rewrite check_valifi_port_run. cbn [ret app].
    rewrite check_root_run, check_root_run. unfold ret.
    rewrite !after_calls_after_calls. cbn [Nat.add].
    eexists. split; [reflexivity|]. by repeat split.
  - intros Hsame. rewrite check_valifi_port_run, Hsame. unfold probe.
    rewrite _check_service_health_run. cbv zeta. cbn [fst].
    eexists. eexists. split; [reflexivity|]. split; [reflexivity|]. cbn [healthy].
    destruct (first_answer env config s0) as [c| | | |]; cbn [raised].
    { split; [done|]. split; [|by intros [? _]]. intros [H1 H2]. congruence. }
    all: split; [done|]; split;
      [ intros [H1 _]; split; [done|];
        destruct (second_answer env config s0) as [c| | | |]; try done;
        exists c; split; [done|];
        apply orb_true_iff in H1 as [H1|H1]; apply bool_decide_eq_true in H1; auto
      | intros [_ (c & -> & Hc)]; split; [|done]; by destruct Hc as [->| ->] ].
Qed.

Lemma health_checks_compared_witness :
  exists ok h,
    MultiSystemOrchestrator.check_valifi_port (answering_on_root 404) 8001 fresh
    = (Ok ok, after_calls 1 fresh)
    /\ probe (answering_on_root 404) "alpha" alpha_config fresh = Ok h
    /\ healthy h = true /\ ok = false.
Proof.
  destruct (health_checks_compared (answering_on_root 404) "alpha" alpha_config fresh fresh)
    as [_ Hcmp].
  destruct Hcmp as (ok & h & Hok & Hh & _ & Hdiff); [reflexivity|].
  exists ok, h. split; [exact Hok|]. split; [exact Hh|].
  apply Hdiff. split; [reflexivity|]. exists 404%Z. split; [reflexivity | by right].
Defined.

(** * The pace of the restarts *)

Lemma paced_refl n s : paced n s s.
Proof. unfold paced. lia. Qed.

Lemma paced_trans n s1 s2 s3 : paced n s1 s2 -> paced n s2 s3 -> paced n s1 s3.
Proof. unfold paced. lia. Qed.

(** What changes neither the clock backwards nor the counts is paced. *)
Lemma paced_fields n s s' :
  restart_counts s' = restart_counts s -> clock (world s) <= clock (world s') -> paced n s s'.
Proof. intros Hc Ht. unfold paced, restart_count_of. rewrite Hc. lia. Qed.

(** Discharge the premises of a lemma of [Methods] for [paced]. *)
Ltac paced_premises env :=
  first [ apply paced_refl
        | apply paced_trans
        | intros ? ?; apply paced_fields; [reflexivity | simpl; lia]
        | intros ?; apply paced_fields; [reflexivity | simpl; lia]
        | intros ? ?; apply paced_fields;
          unfold subprocess_Popen, bind, next_call; simpl;
          destruct (popen env _ _); simpl; (reflexivity || lia) ].

Lemma stop_service_paced n service_name : preserves (paced n) (stop_service service_name).
Proof.
  apply stop_service_preserves with (R := paced n); paced_premises quiet_env.
Qed.

Lemma start_service_paced n env service_name config :
  preserves (paced n) (start_service env service_name config).
Proof. apply start_service_preserves with (R := paced n); paced_premises env. Qed.

Lemma _check_service_health_paced n env service_name config :
  preserves (paced n) (_check_service_health env service_name config).
Proof. apply _check_service_health_preserves with (R := paced n); paced_premises env. Qed.

Lemma check_system_health_paced n cfg env : preserves (paced n) (check_system_health cfg env).
Proof. apply check_system_health_preserves with (R := paced n); paced_premises env. Qed.

Lemma optimize_memory_paced n env k : preserves (paced n) (optimize_memory env k).
Proof. apply optimize_memory_preserves with (R := paced n); paced_premises env. Qed.

Lemma train_agents_paced n env : preserves (paced n) (train_agents env).
Proof. apply train_agents_preserves with (R := paced n); paced_premises env. Qed.

Lemma monitor_and_report_paced n cfg env : preserves (paced n) (monitor_and_report cfg env).
Proof. apply monitor_and_report_preserves with (R := paced n); paced_premises env. Qed.

Lemma clean_up_paced n service_name : preserves (paced n) (clean_up service_name).
Proof. apply clean_up_preserves with (R := paced n); paced_premises quiet_env. Qed.

Lemma start_all_services_paced n cfg env : preserves (paced n) (start_all_services cfg env).
Proof. apply start_all_services_preserves with (R := paced n); paced_premises env. Qed.

Lemma graceful_shutdown_paced n : preserves (paced n) graceful_shutdown.
Proof. apply graceful_shutdown_preserves with (R := paced n); paced_premises quiet_env. Qed.

Lemma deliver_signal_paced n env : preserves (paced n) (deliver_signal env).
Proof. apply deliver_signal_preserves with (R := paced n); paced_premises env. Qed.

Lemma start_service_later env service_name config :
  preserves later (start_service env service_name config).
Proof. apply start_service_preserves with (R := later); later_premises env. Qed.

(** A restart adds one to the count of its service and takes the two
    time units of its settle delay at least. *)
Lemma restart_service_paced n env service_name config :
  preserves (paced n) (restart_service env service_name config).
Proof.
  intros s. unfold paced.
  destruct (restart_service_ends env service_name config s) as (_ & Hc & _).
  destruct (ready_to_start_spec service_name s) as (_ & _ & _ & [Hlo _] & _).
  pose proof (start_service_later env service_name config (ready_to_start service_name s)) as Hl.
  unfold later in Hl. rewrite Hc.
  unfold restart_count_of at 1. rewrite restart_service_counts.
  destruct (decide (n = service_name)) as [->|Hn].
  - rewrite lookup_insert_eq. simpl. lia.
  - rewrite lookup_insert_ne by done. fold (restart_count_of s n). lia.
Qed.

(** Break a method into the operations that are known to be paced. *)
Ltac paced_step :=
  first
    [ apply stop_service_paced | apply start_service_paced | apply restart_service_paced
    | apply _check_service_health_paced | apply check_system_health_paced
    | apply optimize_memory_paced | apply train_agents_paced | apply monitor_and_report_paced
    | apply clean_up_paced | apply start_all_services_paced | apply graceful_shutdown_paced
    | apply deliver_signal_paced
    | apply preserves_ret; apply paced_refl
    | apply preserves_raise; apply paced_refl
    | apply preserves_get; apply paced_refl
    | apply preserves_modify; intros ?; apply paced_fields; [reflexivity | simpl; lia]
    | apply preserves_for_each; [apply paced_refl | apply paced_trans | intros ?]
    | apply preserves_for_fold; [apply paced_refl | apply paced_trans | intros ? ?]
    | apply preserves_bind; [apply paced_trans | | intros ?]
    | match goal with |- preserves _ (let '(_, _) := ?x in _) => destruct x end
    | match goal with |- preserves _ (match ?b with _ => _ end) => destruct b end ].

Lemma patch_service_paced n env k item : preserves (paced n) (patch_service env k item).
Proof. unfold patch_service. repeat paced_step. Qed.

Lemma heal_paced n cfg env item : preserves (paced n) (heal cfg env item).
Proof. unfold heal. repeat paced_step. Qed.

Lemma auto_patch_system_paced n cfg env : preserves (paced n) (auto_patch_system cfg env).
Proof.
  unfold auto_patch_system, clean_up_zombies.
  repeat first [ apply patch_service_paced | paced_step ].
Qed.

Lemma health_checks_paced n cfg env : preserves (paced n) (health_checks cfg env).
Proof. unfold health_checks. repeat first [ apply heal_paced | paced_step ]. Qed.

Lemma loop_body_paced n cfg env : preserves (paced n) (loop_body cfg env).
Proof.
  unfold loop_body.
  repeat first [ apply health_checks_paced | apply auto_patch_system_paced | paced_step ].
Qed.

Lemma loop_iteration_paced n cfg env : preserves (paced n) (loop_iteration cfg env).
Proof.
  intros s. unfold loop_iteration.
  pose proof (loop_body_paced n cfg env s) as Hb.
  destruct (loop_body cfg env s) as [[[]|[msg|]] s1]; cbn [snd] in *; [done| |].
  - eapply paced_trans; [exact Hb|]. apply paced_fields; [reflexivity | simpl; lia].
  - eapply paced_trans; [exact Hb|]. apply paced_fields; [reflexivity | simpl; lia].
Qed.

Lemma while_running_paced n cfg env fuel : preserves (paced n) (while_running cfg env fuel).
Proof.
  induction fuel as [|fuel IH]; intros s; [apply paced_refl|].
  rewrite while_running_S.
  pose proof (deliver_signal_paced n env s) as Hd.
  destruct (running (deliver_signal env s).2); [|done].
  eapply paced_trans; [exact Hd|].
  eapply paced_trans; [apply loop_iteration_paced | apply IH].
Qed.

Lemma run_persistent_loop_paced n cfg env fuel :
  preserves (paced n) (run_persistent_loop cfg env fuel).
Proof.
  unfold run_persistent_loop.
  repeat first [ apply while_running_paced | paced_step ].
Qed.

Lemma passes_paced n cfg env k s : paced n s (passes cfg env k s).
Proof.
  induction k as [|k IH]; [apply paced_refl|].
  rewrite passes_S. eapply paced_trans; [exact IH | apply loop_iteration_paced].
Qed.

(** X15. The pace of the restarts.  Nothing in the class bounds the number
    of restarts of a service, but each one costs time: over any method, any
    number of passes and any run of the loop, twice the growth of a service's
    restart count is at most the time that has passed, so a service is
    restarted at most once in 2 time units. *)
Theorem restarts_are_paced (cfg : Config) (env : Env) (service_name : string) (s : System) :
  (forall op, paced service_name s (perform cfg env op s))
  /\ (forall k, paced service_name s (passes cfg env k s))
  /\ (forall fuel, paced service_name s (while_running cfg env fuel s).2)
  /\ (forall k,
         restart_count_of (passes cfg env k s) service_name
         <= restart_count_of s service_name
            + (clock (world (passes cfg env k s)) - clock (world s)) / 2).
Proof.
  split; [|split; [|split]].
  - intros op. destruct op; simpl.
    + apply _signal_handler_preserves with (R := paced service_name);
        paced_premises env.
    + apply check_system_health_paced.
    + apply _check_service_health_paced.
    + apply start_service_paced.
    + apply stop_service_paced.
    + apply restart_service_paced.
    + apply auto_patch_system_paced.
    + apply train_agents_paced.
    + apply start_all_services_paced.
    + apply monitor_and_report_paced.
    + apply loop_iteration_paced.
    + apply run_persistent_loop_paced.
  - intros k. apply passes_paced.
  - intros fuel. apply while_running_paced.
  - intros k. pose proof (passes_paced service_name cfg env k s) as Hp. unfold paced in Hp.
    set (c := restart_count_of (passes cfg env k s) service_name) in *.
    set (c0 := restart_count_of s service_name) in *.
    set (t := clock (world (passes cfg env k s))) in *.
    set (t0 := clock (world s)) in *.
    clearbody c c0 t t0.
    destruct (decide (c <= c0)) as [|Hgt]; [lia|].
    assert (Hdiv : c - c0 <= (t - t0) / 2).
    { apply Nat.div_le_lower_bound; lia. }
    lia.
Qed.
